(** * The workflow engine of [app/engine.py]

    A shallow embedding of [Node], [WorkflowGraph] and [WorkflowGraph.run],
    over a small model of the Python objects the engine handles: state
    dictionaries and the mutable values nested in them live in a heap and
    are passed by reference, node transforms are functions on that heap,
    and the [log_entry] dictionaries of the execution log are objects of
    their own which the log refers to by identity. *)

From Stdlib Require Import String ZArith.
From stdpp Require Import base option list gmap sets strings.

Set Warnings "-register-all,-clear-no-such-hyp".

(** ** Python values and objects *)

Module Py.

(** Object identities. *)
Abbreviation loc := positive (only parsing).

(** What a state key can be bound to: an immutable scalar, or a
    reference to a mutable object. *)
Inductive value :=
| VNone
| VBool (b : bool)
| VInt (n : Z)
| VStr (s : string)
| VRef (l : loc).

Inductive obj :=
| ODict (d : gmap string value)
| OList (xs : list value).

Abbreviation heap := (gmap positive obj) (only parsing).

#[global] Instance value_eq_dec : EqDecision value.
Proof. solve_decision. Defined.

(** The exceptions that leave [run]: those the engine raises itself,
    and [Exception msg] for whatever a transform raised, [msg] being
    its [str(e)]. *)
Inductive exn :=
| ValueError (msg : string)
| KeyError (key : value)
| TypeError (msg : string)
| Exception (msg : string).

Inductive result (A : Type) :=
| Ok (a : A)
| Raise (e : exn).
Arguments Ok {A} a.
Arguments Raise {A} e.

(** [bool(v)]. *)
Definition truthy (h : heap) (v : value) : bool :=
  match v with
  | VNone => false
  | VBool b => b
  | VInt n => negb (n =? 0)%Z
  | VStr s => negb (String.eqb s "")
  | VRef l =>
      match h !! l with
      | Some (ODict d) => negb (bool_decide (d = ∅))
      | Some (OList xs) => negb (bool_decide (xs = []))
      | None => true
      end
  end.

(** [hash(v)]: lists and dicts are unhashable. *)
Definition unhashable (h : heap) (l : loc) : exn :=
  match h !! l with
  | Some (ODict _) => TypeError "unhashable type: 'dict'"
  | _ => TypeError "unhashable type: 'list'"
  end.

(** [s.startswith(p)]. *)
Definition startswith (s p : string) : bool := String.prefix p s.

(** [None] or a string, as a value. *)
Definition of_optional (o : option string) : value :=
  match o with
  | Some s => VStr s
  | None => VNone
  end.

(** The dictionary a state reference denotes. *)
Definition dict_at (h : heap) (l : loc) : option (gmap string value) :=
  match h !! l with
  | Some (ODict d) => Some d
  | _ => None
  end.

(** [d.get(k, dflt)]. *)
Definition get (d : gmap string value) (k : string) (dflt : value) : value :=
  default dflt (d !! k).

(** A pure view of a value: what a reader following the references
    sees, down to [depth] levels of nesting. *)
Inductive data :=
| DNone
| DBool (b : bool)
| DInt (n : Z)
| DStr (s : string)
| DList (xs : list data)
| DDict (kvs : list (string * data))
| DDeeper.

Fixpoint view (depth : nat) (h : heap) (v : value) : data :=
  match v with
  | VNone => DNone
  | VBool b => DBool b
  | VInt n => DInt n
  | VStr s => DStr s
  | VRef l =>
      match depth with
      | O => DDeeper
      | S depth =>
          match h !! l with
          | Some (OList xs) => DList (map (view depth h) xs)
          | Some (ODict d) =>
              DDict (map (λ kv, (kv.1, view depth h kv.2)) (map_to_list d))
          | None => DDeeper
          end
      end
  end.

End Py.
Import Py.

(** ** Nodes *)

(** A transform receives the state by reference and returns a state
    reference, or raises; [msg] is [str(e)] of what it raised.  It may
    mutate any object it can reach and allocate new ones. *)
Inductive returned :=
| Returns (updated_state : loc)
| Raises (msg : string).

Abbreviation transform :=
  (gmap positive obj → positive → gmap positive obj * returned) (only parsing).

Inductive NodeStatus := PENDING | RUNNING | COMPLETED | FAILED.

Record Node := {
  name : string;
  func : transform;
  status : NodeStatus
}.

Definition set_status (st : NodeStatus) (self : Node) : Node :=
  {| name := name self; func := func self; status := st |}.

(** [Node.execute] *)
Definition execute (self : Node) (h : heap) (state : loc)
  : Node * heap * returned :=
  let self := set_status RUNNING self in
  match func self h state with
  | (h, Returns updated_state) =>
      (set_status COMPLETED self, h, Returns updated_state)
  | (h, Raises e) =>
      (set_status FAILED self, h, Raises e)
  end.

(** ** The graph *)

Record WorkflowGraph := {
  graph_id : string;
  nodes : gmap string Node;
  edges : gmap string string;
  entry_node : option string
}.

Definition set_nodes (ns : gmap string Node) (self : WorkflowGraph) :=
  {| graph_id := graph_id self; nodes := ns;
     edges := edges self; entry_node := entry_node self |}.

(** [WorkflowGraph.__init__] *)
Definition init (graph_id : string) : WorkflowGraph :=
  {| graph_id := graph_id; nodes := ∅; edges := ∅; entry_node := None |}.

(** [WorkflowGraph.add_node] *)
Definition add_node (self : WorkflowGraph) (name : string) (func : transform)
  : WorkflowGraph :=
  {| graph_id := graph_id self;
     nodes := <[name := {| name := name; func := func; status := PENDING |}]>
                (nodes self);
     edges := edges self;
     entry_node := match entry_node self with
                   | None => Some name
                   | Some e => Some e
                   end |}.

(** [WorkflowGraph.add_edge] *)
Definition add_edge (self : WorkflowGraph) (from_node to_node : string)
  : result WorkflowGraph :=
  if negb (bool_decide (from_node ∈ dom (nodes self))) then
    Raise (ValueError ("Node '" +:+ from_node +:+ "' does not exist"))
  else if negb (bool_decide (to_node ∈ dom (nodes self))) then
    Raise (ValueError ("Node '" +:+ to_node +:+ "' does not exist"))
  else
    Ok {| graph_id := graph_id self; nodes := nodes self;
          edges := <[from_node := to_node]> (edges self);
          entry_node := entry_node self |}.

(** [WorkflowGraph.get_next_node] *)
Definition get_next_node (self : WorkflowGraph) (current_node : string)
  : option string :=
  edges self !! current_node.

(** [k in self.nodes] for an arbitrary value [k]. *)
Definition in_nodes (self : WorkflowGraph) (h : heap) (k : value) : result bool :=
  match k with
  | VStr s => Ok (bool_decide (s ∈ dom (nodes self)))
  | VRef l => Raise (unhashable h l)
  | _ => Ok false
  end.

(** [self.nodes[k]] for an arbitrary value [k]. *)
Definition nodes_getitem (self : WorkflowGraph) (h : heap) (k : value)
  : result (string * Node) :=
  match k with
  | VStr s =>
      match nodes self !! s with
      | Some node => Ok (s, node)
      | None => Raise (KeyError k)
      end
  | VRef l => Raise (unhashable h l)
  | _ => Raise (KeyError k)
  end.

(** [WorkflowGraph._evaluate_conditional]: [None] when [state] does not
    denote a dictionary. *)
Definition _evaluate_conditional (self : WorkflowGraph)
    (conditional_node : string) (h : heap) (state : loc)
  : option (heap * result value) :=
  d ← dict_at h state;
  match d !! "route_to" with
  | Some next_node =>
      let h := <[state := ODict (delete "route_to" d)]> h in
      Some (h, match in_nodes self h next_node with
               | Ok true => Ok next_node
               | Ok false => Ok VNone
               | Raise e => Raise e
               end)
  | None => Some (h, Ok VNone)
  end.

(** ** The execution log *)

(** A [log_entry] dictionary: the keys ["node"], ["status"] and
    ["iteration"] are there from the start, ["state_snapshot"] and
    ["error"] are added later.  The snapshot is the dictionary
    [state.copy()] builds: an object only the entry refers to, whose
    values are the very values (references included) the state held. *)
Record log_entry := {
  log_node : string;
  log_status : string;
  log_iteration : nat;
  log_state_snapshot : option (gmap string value);
  log_error : option string
}.

(** [log_entry["status"] = s] *)
Definition set_log_status (s : string) (e : log_entry) : log_entry :=
  {| log_node := log_node e; log_status := s;
     log_iteration := log_iteration e;
     log_state_snapshot := log_state_snapshot e; log_error := log_error e |}.

(** [log_entry["state_snapshot"] = d] *)
Definition set_log_state_snapshot (d : gmap string value) (e : log_entry)
  : log_entry :=
  {| log_node := log_node e; log_status := log_status e;
     log_iteration := log_iteration e;
     log_state_snapshot := Some d; log_error := log_error e |}.

(** [log_entry["error"] = msg] *)
Definition set_log_error (msg : string) (e : log_entry) : log_entry :=
  {| log_node := log_node e; log_status := log_status e;
     log_iteration := log_iteration e;
     log_state_snapshot := log_state_snapshot e; log_error := Some msg |}.

(** ** Run *)

(** The local variables of [run].  [execution_log] is a list of
    references to [log_entry] objects; [log_objs] holds those objects,
    the identity of one being its index. *)
Record locals := {
  state : loc;
  execution_log : list nat;
  log_objs : list log_entry;
  current_node_name : value;
  visited_nodes : gset string;
  iteration : nat
}.

Definition with_state (s : loc) (L : locals) : locals :=
  {| state := s; execution_log := execution_log L; log_objs := log_objs L;
     current_node_name := current_node_name L;
     visited_nodes := visited_nodes L; iteration := iteration L |}.

Definition with_log (log : list nat) (objs : list log_entry) (L : locals)
  : locals :=
  {| state := state L; execution_log := log; log_objs := objs;
     current_node_name := current_node_name L;
     visited_nodes := visited_nodes L; iteration := iteration L |}.

Definition with_current (c : value) (L : locals) : locals :=
  {| state := state L; execution_log := execution_log L;
     log_objs := log_objs L; current_node_name := c;
     visited_nodes := visited_nodes L; iteration := iteration L |}.

Definition with_visited (v : gset string) (L : locals) : locals :=
  {| state := state L; execution_log := execution_log L;
     log_objs := log_objs L; current_node_name := current_node_name L;
     visited_nodes := v; iteration := iteration L |}.

Definition with_iteration (i : nat) (L : locals) : locals :=
  {| state := state L; execution_log := execution_log L;
     log_objs := log_objs L; current_node_name := current_node_name L;
     visited_nodes := visited_nodes L; iteration := i |}.

(** How [run] ends: it returns [(state, execution_log)], or an exception
    leaves it.  [NotADict] stands for a state reference that does not
    denote a dictionary, which the annotation [Dict[str, Any]] rules
    out; [OutOfFuel] is the recursion bound of [run_loop], never
    reached from [run]. *)
Inductive outcome :=
| Returned (final_state : loc) (log : list nat)
| Raised (e : exn)
| NotADict
| OutOfFuel.

Record run_result := {
  res_graph : WorkflowGraph;
  res_heap : heap;
  res_locals : locals;
  res_outcome : outcome
}.

(** How one pass through the loop body ends. *)
Inductive control :=
| Continue
| Break
| Abort (o : outcome).

Definition max_iterations : nat := 100.

(** [k in visited_nodes] for an arbitrary value [k]. *)
Definition in_visited (h : heap) (visited_nodes : gset string) (k : value)
  : result bool :=
  match k with
  | VStr s => Ok (bool_decide (s ∈ visited_nodes))
  | VRef l => Raise (unhashable h l)
  | _ => Ok false
  end.

(** Lines 98-113: append a fresh entry, execute the node, and record in
    the entry how that ended.  [Some o] when the run stops here. *)
Definition attempt (self : WorkflowGraph) (h : heap) (L : locals)
    (key : string) (node : Node)
  : WorkflowGraph * heap * locals * option outcome :=
  let log_entry := length (log_objs L) in
  let L := with_log (execution_log L ++ [log_entry])
             (log_objs L ++ [ {| log_node := key; log_status := "running";
                                 log_iteration := iteration L;
                                 log_state_snapshot := None;
                                 log_error := None |} ]) L in
  let '(node, h, r) := execute node h (state L) in
  let self := set_nodes (<[key := node]> (nodes self)) self in
  match r with
  | Returns state =>
      let L := with_state state L in
      let L := with_log (execution_log L)
                 (alter (set_log_status "completed") log_entry (log_objs L)) L in
      match dict_at h state with
      | Some snapshot =>
          (self, h,
           with_log (execution_log L)
             (alter (set_log_state_snapshot snapshot) log_entry (log_objs L)) L,
           None)
      | None => (self, h, L, Some NotADict)
      end
  | Raises e =>
      let L := with_log (execution_log L)
                 (alter (set_log_status "failed") log_entry (log_objs L)) L in
      let L := with_log (execution_log L)
                 (alter (set_log_error e) log_entry (log_objs L)) L in
      let L := with_log (execution_log L ++ [log_entry]) (log_objs L) L in
      (self, h, L, Some (Raised (Exception e)))
  end.

(** Lines 117-127: the static successor of [key], or what the resolver
    makes of it when it is an [if_] marker. *)
Definition route (self : WorkflowGraph) (h : heap) (state : loc) (key : string)
  : option (heap * result value) :=
  let next_node := get_next_node self key in
  match next_node with
  | Some n =>
      if negb (String.eqb n "") && startswith n "if_"
      then _evaluate_conditional self n h state
      else Some (h, Ok (VStr n))
  | None => Some (h, Ok VNone)
  end.

(** Lines 129-139: the [loop_continue] override, and the final
    [break]. *)
Definition loop_override (self : WorkflowGraph) (h : heap) (L : locals)
  : option (heap * locals * control) :=
  d ← dict_at h (state L);
  if truthy h (get d "loop_continue" (VBool false)) then
    let loop_node := get d "loop_node" (of_optional (entry_node self)) in
    let L := with_current loop_node L in
    let h := <[state L := ODict (<["loop_continue" := VBool false]> d)]> h in
    Some (h, L, Continue)
  else
    Some (h, L, match current_node_name L with
                | VNone => Break
                | _ => Continue
                end).

(** The body of the [while] loop of [run]. *)
Definition run_body (self : WorkflowGraph) (h : heap) (L : locals)
  : WorkflowGraph * heap * locals * control :=
  let L := with_iteration (S (iteration L)) L in
  match in_visited h (visited_nodes L) (current_node_name L) with
  | Raise e => (self, h, L, Abort (Raised e))
  | Ok _ =>
  match nodes_getitem self h (current_node_name L) with
  | Raise e => (self, h, L, Abort (Raised e))
  | Ok (key, node) =>
      let '(self, h, L, stop) := attempt self h L key node in
      match stop with
      | Some o => (self, h, L, Abort o)
      | None =>
          let L := with_visited ({[key]} ∪ visited_nodes L) L in
          match route self h (state L) key with
          | None => (self, h, L, Abort NotADict)
          | Some (h, Raise e) => (self, h, L, Abort (Raised e))
          | Some (h, Ok next) =>
              let L := with_current next L in
              match loop_override self h L with
              | None => (self, h, L, Abort NotADict)
              | Some (h, L, c) => (self, h, L, c)
              end
          end
      end
  end
  end.

(** The [while] loop of [run]; [fuel] bounds the recursion. *)
Fixpoint run_loop (fuel : nat) (self : WorkflowGraph) (h : heap) (L : locals)
  : run_result :=
  if truthy h (current_node_name L) && (iteration L <? max_iterations) then
    match fuel with
    | O => {| res_graph := self; res_heap := h; res_locals := L;
              res_outcome := OutOfFuel |}
    | S fuel =>
        match run_body self h L with
        | (self, h, L, Continue) => run_loop fuel self h L
        | (self, h, L, Break) =>
            {| res_graph := self; res_heap := h; res_locals := L;
               res_outcome := Returned (state L) (execution_log L) |}
        | (self, h, L, Abort o) =>
            {| res_graph := self; res_heap := h; res_locals := L;
               res_outcome := o |}
        end
    end
  else
    {| res_graph := self; res_heap := h; res_locals := L;
       res_outcome := Returned (state L) (execution_log L) |}.

(** The locals of [run] before the loop, for an entry node [entry] and
    the working copy [state]. *)
Definition run_init (entry : string) (state : loc) : locals :=
  {| state := state; execution_log := []; log_objs := [];
     current_node_name := VStr entry; visited_nodes := ∅; iteration := 0 |}.

(** [WorkflowGraph.run] *)
Definition run (self : WorkflowGraph) (h : heap) (initial_state : loc)
  : run_result :=
  match entry_node self with
  | None =>
      {| res_graph := self; res_heap := h;
         res_locals := {| state := initial_state; execution_log := [];
                          log_objs := []; current_node_name := VNone;
                          visited_nodes := ∅; iteration := 0 |};
         res_outcome := Raised (ValueError "No entry node defined") |}
  | Some entry =>
      match dict_at h initial_state with
      | None =>
          {| res_graph := self; res_heap := h;
             res_locals := run_init entry initial_state;
             res_outcome := NotADict |}
      | Some d =>
          let state := fresh (dom h) in
          let h := <[state := ODict d]> h in
          run_loop max_iterations self h (run_init entry state)
      end
  end.

(** The execution log as the caller reads it: each reference followed
    to its entry. *)
Definition trace_of (L : locals) : list log_entry :=
  omap (λ i, log_objs L !! i) (execution_log L).

Definition trace (r : run_result) : list log_entry := trace_of (res_locals r).

(** * Vocabulary of the properties *)

(** ** What a pass leaves behind *)

(** The entry a successful attempt leaves in the log. *)
Definition completed_entry (key : string) (i : nat)
    (d : gmap string value) : log_entry :=
  {| log_node := key; log_status := "completed"; log_iteration := i;
     log_state_snapshot := Some d; log_error := None |}.

(** The entry a failed attempt leaves in the log. *)
Definition failed_entry (key : string) (i : nat) (msg : string) : log_entry :=
  {| log_node := key; log_status := "failed"; log_iteration := i;
     log_state_snapshot := None; log_error := Some msg |}.

(** What of a node [run] reads. *)
Definition wiring (n : Node) : string * transform := (name n, func n).

(** Two graphs are wired alike when they differ at most in the [status]
    fields of their nodes. *)
Definition same_wiring (g g' : WorkflowGraph) : Prop :=
  edges g = edges g' ∧ entry_node g = entry_node g'
  ∧ wiring <$> nodes g = wiring <$> nodes g'.

(** The locals after [key] has executed and returned the state [s1],
    whose dictionary is [d1], before the next node is chosen. *)
Definition after_node (L : locals) (key : string) (s1 : loc)
    (d1 : gmap string value) : locals :=
  {| state := s1;
     execution_log := execution_log L ++ [length (log_objs L)];
     log_objs := log_objs L ++ [completed_entry key (S (iteration L)) d1];
     current_node_name := current_node_name L;
     visited_nodes := {[key]} ∪ visited_nodes L;
     iteration := S (iteration L) |}.

(** The locals after the transform of [key] has raised [msg]. *)
Definition after_failure (L : locals) (key msg : string) : locals :=
  {| state := state L;
     execution_log :=
       execution_log L ++ [length (log_objs L); length (log_objs L)];
     log_objs := log_objs L ++ [failed_entry key (S (iteration L)) msg];
     current_node_name := current_node_name L;
     visited_nodes := visited_nodes L;
     iteration := S (iteration L) |}.

(** The locals after the transform of [key] has returned a reference
    [s1] that denotes no dictionary. *)
Definition after_bad_return (L : locals) (key : string) (s1 : loc)
  : locals :=
  {| state := s1;
     execution_log := execution_log L ++ [length (log_objs L)];
     log_objs := log_objs L ++ [ {| log_node := key; log_status := "completed";
                                    log_iteration := S (iteration L);
                                    log_state_snapshot := None;
                                    log_error := None |} ];
     current_node_name := current_node_name L;
     visited_nodes := visited_nodes L;
     iteration := S (iteration L) |}.

(** Every reference in the log denotes an entry. *)
Definition log_wf (L : locals) : Prop :=
  Forall (λ i, i < length (log_objs L)) (execution_log L).

(** What a pass can hand back to the loop: it goes on, it breaks, an
    exception leaves, or the state is no dictionary. *)
Definition passes_on (c : control) : Prop :=
  match c with
  | Continue | Break | Abort (Raised _) | Abort NotADict => True
  | Abort (Returned _ _) | Abort OutOfFuel => False
  end.

(** The four ways a pass can go: no node found; the transform raised;
    it returned something that is no state; it returned a state. *)
Inductive pass (g : WorkflowGraph) (h : gmap positive obj) (L : locals)
  : WorkflowGraph * gmap positive obj * locals * control → Prop :=
| pass_no_node e :
    (∀ key, current_node_name L = VStr key → nodes g !! key = None) →
    pass g h L (g, h, with_iteration (S (iteration L)) L, Abort (Raised e))
| pass_raised key node h1 msg :
    current_node_name L = VStr key → nodes g !! key = Some node →
    func node h (state L) = (h1, Raises msg) →
    pass g h L
      (set_nodes (<[key := set_status FAILED node]> (nodes g)) g, h1,
       after_failure L key msg, Abort (Raised (Exception msg)))
| pass_no_state key node h1 s1 :
    current_node_name L = VStr key → nodes g !! key = Some node →
    func node h (state L) = (h1, Returns s1) → dict_at h1 s1 = None →
    pass g h L
      (set_nodes (<[key := set_status COMPLETED node]> (nodes g)) g, h1,
       after_bad_return L key s1, Abort NotADict)
| pass_returned key node h1 s1 d1 h3 cur c :
    current_node_name L = VStr key → nodes g !! key = Some node →
    func node h (state L) = (h1, Returns s1) → dict_at h1 s1 = Some d1 →
    (∀ l, l ≠ s1 → h3 !! l = h1 !! l) → passes_on c →
    pass g h L
      (set_nodes (<[key := set_status COMPLETED node]> (nodes g)) g, h3,
       with_current cur (after_node L key s1 d1), c).

(** ** Transforms, states and graphs of the scenarios *)

(** A transform that returns the state it was given, untouched. *)
Definition same_state : transform := λ h s, (h, Returns s).

(** The graph of scenario D, its marker edge written into the edge map
    as [run] finds it. *)
Definition scenario_d : WorkflowGraph :=
  let g := add_node (add_node (init "d") "a" same_state) "c" same_state in
  {| graph_id := graph_id g; nodes := nodes g;
     edges := <["a" := "if_route"]> (edges g); entry_node := entry_node g |}.

(** A transform that raises. *)
Definition always_raises (msg : string) : transform := λ h s, (h, Raises msg).

(** Scenario B: [a → b], the transform of [a] raises. *)
Definition scenario_b : WorkflowGraph :=
  let g := add_node (add_node (init "b") "a" (always_raises "boom"))
             "b" same_state in
  match add_edge g "a" "b" with
  | Ok g => g
  | Raise _ => g
  end.

(** A single node with an edge to itself. *)
Definition self_loop : WorkflowGraph :=
  let g := add_node (init "loop") "a" same_state in
  match add_edge g "a" "a" with
  | Ok g => g
  | Raise _ => g
  end.

(** The state [{"x": 1}], held at address 1. *)
Definition x_is_1 : heap := {[ 1%positive := ODict {[ "x" := VInt 1 ]} ]}.

(** [state.update(kvs); return state] *)
Definition update_state (kvs : gmap string value) : transform :=
  λ h s,
    match dict_at h s with
    | Some d => (<[s := ODict (kvs ∪ d)]> h, Returns s)
    | None => (h, Raises "not a dict")
    end.

(** Scenario D with a first node that also asks for a loop. *)
Definition scenario_d_looping : WorkflowGraph :=
  let g := add_node
             (add_node (init "dl") "a"
                (update_state {[ "loop_continue" := VBool true ]}))
             "c" same_state in
  {| graph_id := graph_id g; nodes := nodes g;
     edges := <["a" := "if_route"]> (edges g); entry_node := entry_node g |}.

(** What [POST /graph/create] builds: an entry node and no nodes. *)
Definition entry_only (entry : string) : WorkflowGraph :=
  {| graph_id := "created"; nodes := ∅; edges := ∅;
     entry_node := Some entry |}.

(** A node that asks to loop back to a node that does not exist. *)
Definition loops_to_ghost : WorkflowGraph :=
  add_node (init "ghost") "a"
    (update_state {[ "loop_continue" := VBool true;
                     "loop_node" := VStr "ghost" ]}).

(** A node that asks to loop back to the empty name, which names no
    node. *)
Definition loops_to_empty_name : WorkflowGraph :=
  add_node (init "empty") "a"
    (update_state {[ "loop_continue" := VBool true;
                     "loop_node" := VStr "" ]}).

(** [state["n"] += 1], and with the hundredth call a request to loop
    back to a node that does not exist. *)
Definition count_to_ghost : transform :=
  λ h s,
    match dict_at h s with
    | Some d =>
        match d !! "n" with
        | Some (VInt n) =>
            let d := <["n" := VInt (n + 1)]> d in
            if (n + 1 =? 100)%Z then
              let d := <["loop_continue" := VBool true]> d in
              let d := <["loop_node" := VStr "ghost"]> d in
              (<[s := ODict d]> h, Returns s)
            else (<[s := ODict d]> h, Returns s)
        | _ => (h, Raises "'n'")
        end
    | None => (h, Raises "not a dict")
    end.

(** A single node with an edge to itself, which counts its calls and
    asks for the missing node at the hundredth. *)
Definition ghost_at_ceiling : WorkflowGraph :=
  let g := add_node (init "late") "a" count_to_ghost in
  match add_edge g "a" "a" with
  | Ok g => g
  | Raise _ => g
  end.

(** The state [{"n": 0}], held at address 1. *)
Definition n_is_0 : heap := {[ 1%positive := ODict {[ "n" := VInt 0 ]} ]}.

(** ** Linear chains *)



(** Each name has an edge to the next one, the last has none. *)
Fixpoint linked (g : WorkflowGraph) (names : list string) : Prop :=
  match names with
  | [] => True
  | a :: rest => edges g !! a = head rest ∧ linked g rest
  end.

#[global] Instance linked_dec (g : WorkflowGraph) (names : list string) :
  Decision (linked g names).
Proof. induction names as [|a rest IH]; cbn; apply _. Defined.

(** [names] is a chain of [g] from its entry node: the names are node
    names a run can follow (not empty, not [if_] markers). *)
Definition chain (g : WorkflowGraph) (names : list string) : Prop :=
  entry_node g = head names
  ∧ Forall (λ a, a ≠ "" ∧ startswith a "if_" = false ∧ is_Some (nodes g !! a))
      names
  ∧ linked g names.

(** The graph [add_node] and [add_edge] build for the chain [names],
    every transform returning the state as it got it. *)
Definition chain_graph (names : list string) : WorkflowGraph :=
  let g := foldl (λ g a, add_node g a same_state) (init "chain") names in
  foldl (λ g e, match add_edge g e.1 e.2 with
                | Ok g' => g'
                | Raise _ => g
                end) g (zip names (tail names)).



(** ** Sharing of nested values *)

(** [state["items"].append(v); return state] *)
Definition append_item (v : value) : transform :=
  λ h s,
    match dict_at h s with
    | Some d =>
        match d !! "items" with
        | Some (VRef l) =>
            match h !! l with
            | Some (OList xs) => (<[l := OList (xs ++ [v])]> h, Returns s)
            | _ => (h, Raises "object has no attribute 'append'")
            end
        | Some _ => (h, Raises "object has no attribute 'append'")
        | None => (h, Raises "'items'")
        end
    | None => (h, Raises "not a dict")
    end.

(** The state [{"items": [1]}], held at address 1, its list at 2. *)
Definition items_is_1 : heap :=
  {[ 1%positive := ODict {[ "items" := VRef 2 ]};
     2%positive := OList [VInt 1] ]}.

(** One node, which appends 2 to [state["items"]]. *)
Definition appender : WorkflowGraph :=
  add_node (init "append") "a" (append_item (VInt 2)).

(** [a → b]: [a] leaves the state alone, [b] appends 2 to
    [state["items"]]. *)
Definition snapshot_then_append : WorkflowGraph :=
  let g := add_node (add_node (init "snap") "a" same_state)
             "b" (append_item (VInt 2)) in
  match add_edge g "a" "b" with
  | Ok g => g
  | Raise _ => g
  end.

(** What a reader of the dictionary [d] sees. *)
Definition view_dict (depth : nat) (h : heap) (d : gmap string value)
  : list (string * data) :=
  (λ kv, (kv.1, view depth h kv.2)) <$> map_to_list d.

(** The transform [f], handed any state but the dictionary at [l0],
    neither writes to that object nor returns it. *)
Definition spares (l0 : loc) (f : transform) : Prop :=
  ∀ h s, s ≠ l0 → is_Some (dict_at h l0) →
         (f h s).1 !! l0 = h !! l0 ∧ (f h s).2 ≠ Returns l0.

(** No value of [d] is a reference. *)
Definition flat (d : gmap string value) : Prop :=
  map_Forall (λ _ v, ∀ l, v ≠ VRef l) d.

(** ** Graphs built through the construction calls *)

(** One call of the construction API. *)
Inductive op :=
| AddNode (name : string) (func : transform)
| AddEdge (from_node to_node : string).

(** A sequence of construction calls on [self], up to the first one
    that raises. *)
Fixpoint build (self : WorkflowGraph) (ops : list op) : result WorkflowGraph :=
  match ops with
  | [] => Ok self
  | AddNode name func :: ops => build (add_node self name func) ops
  | AddEdge from_node to_node :: ops =>
      match add_edge self from_node to_node with
      | Ok self => build self ops
      | Raise e => Raise e
      end
  end.

(** The name of the first [add_node] of a sequence of calls. *)
Fixpoint first_added (ops : list op) : option string :=
  match ops with
  | [] => None
  | AddNode name _ :: _ => Some name
  | AddEdge _ _ :: ops => first_added ops
  end.

(** Both ends of every edge are nodes, the entry node is a node, there
    is one as soon as there is a node, and each node is stored under
    its own name. *)
Definition well_formed (g : WorkflowGraph) : Prop :=
  (∀ a b, edges g !! a = Some b →
          is_Some (nodes g !! a) ∧ is_Some (nodes g !! b))
  ∧ (∀ e, entry_node g = Some e → is_Some (nodes g !! e))
  ∧ (entry_node g = None → nodes g = ∅)
  ∧ (∀ k n, nodes g !! k = Some n → name n = k).

(** The state is a dictionary, and if it asks for a loop, the node it
    asks for (the entry node when it names none) is a node of [g]. *)
Definition loop_request_ok (g : WorkflowGraph) (h : heap) (s : loc) : Prop :=
  ∃ d, dict_at h s = Some d
       ∧ (truthy h (get d "loop_continue" (VBool false)) = true →
          ∃ m, get d "loop_node" (of_optional (entry_node g)) = VStr m
               ∧ is_Some (nodes g !! m)).

(** Whenever a transform of [g], given such a state, returns, it
    returns such a state. *)
Definition well_targeted (g : WorkflowGraph) : Prop :=
  ∀ key n h s h' s',
    nodes g !! key = Some n → loop_request_ok g h s →
    func n h s = (h', Returns s') → loop_request_ok g h' s'.

(** The outcomes left to a run of a well-formed graph. *)
Definition no_lookup_failure (g : WorkflowGraph) (o : outcome) : Prop :=
  match o with
  | Returned _ _ | Raised (Exception _) | Raised (TypeError _) => True
  | Raised (ValueError _) => entry_node g = None
  | Raised (KeyError _) | NotADict | OutOfFuel => False
  end.

(** The log of a run none of whose passes failed: the log refers to
    each entry once, in the order they were made, and the entry of
    pass [k] is numbered [k], reads "completed", has a snapshot and no
    error. *)
Definition tidy (L : locals) : Prop :=
  execution_log L = seq 0 (length (log_objs L))
  ∧ length (log_objs L) = iteration L
  ∧ ∀ k e, log_objs L !! k = Some e →
           log_iteration e = S k ∧ log_status e = "completed"
           ∧ is_Some (log_state_snapshot e) ∧ log_error e = None.

(** * The tools of [app/tools.py] and the workflow of [app/workflows.py] *)

(** ** Strings, sequences and numbers as the tools use them

    A string is the sequence of its code points, all below 256. *)

(** The exceptions the tools and the node functions of the example
    workflow raise, with their messages. *)
Inductive error :=
| Value_error (msg : string)
| Attribute_error (msg : string)
| Type_error (msg : string).

(** [str(e)] *)
Definition message (e : error) : string :=
  match e with
  | Value_error msg | Attribute_error msg | Type_error msg => msg
  end.

(** A value, or the exception raised instead. *)
Inductive may (A : Type) :=
| Got (a : A)
| Threw (e : error).
Arguments Got {A} a.
Arguments Threw {A} e.

#[global] Instance may_bind : MBind may :=
  λ A B f x, match x with
             | Got a => f a
             | Threw e => Threw e
             end.

(** [type(v).__name__]; a reference to nothing is a bare [object]. *)
Definition type_name (h : heap) (v : value) : string :=
  match v with
  | VNone => "NoneType"
  | VBool _ => "bool"
  | VInt _ => "int"
  | VStr _ => "str"
  | VRef l =>
      match h !! l with
      | Some (ODict _) => "dict"
      | Some (OList _) => "list"
      | None => "object"
      end
  end.

(** What [v.attr] raises when [v] has no such attribute. *)
Definition no_attribute (h : heap) (v : value) (attr : string) : error :=
  Attribute_error
    ("'" +:+ type_name h v +:+ "' object has no attribute '" +:+ attr +:+ "'").

(** The occurrences of a non-empty [sub] in [s] that do not overlap,
    counted from the left; [skip] characters are still part of the
    occurrence found last. *)
Fixpoint count_from (skip : nat) (sub s : string) : nat :=
  match s with
  | EmptyString => 0
  | String _ rest =>
      match skip with
      | S skip => count_from skip sub rest
      | O =>
          if String.prefix sub s
          then S (count_from (String.length sub - 1) sub rest)
          else count_from 0 sub rest
      end
  end.

(** [s.count(sub)] for strings. *)
Definition str_count (s sub : string) : nat :=
  if String.eqb sub "" then S (String.length s) else count_from 0 sub s.

(** [sub in s] for strings. *)
Fixpoint str_contains (sub s : string) : bool :=
  String.prefix sub s
  || match s with
     | EmptyString => false
     | String _ rest => str_contains sub rest
     end.

(** [c.lower()] for one code point below 256: the letters A to Z, and
    those from 192 to 222 but the multiplication sign 215. *)
Definition lower_char (c : Ascii.ascii) : Ascii.ascii :=
  let n := Ascii.nat_of_ascii c in
  if ((65 <=? n) && (n <=? 90))
     || ((192 <=? n) && (n <=? 222) && negb (n =? 215))
  then Ascii.ascii_of_nat (n + 32)
  else c.

(** [s.lower()] *)
Fixpoint lower (s : string) : string :=
  match s with
  | EmptyString => EmptyString
  | String c rest => String (lower_char c) (lower rest)
  end.

(** The characters of a string, as [for c in s] yields them. *)
Fixpoint characters (s : string) : list value :=
  match s with
  | EmptyString => []
  | String c rest => VStr (String c EmptyString) :: characters rest
  end.

(** [len(v)] *)
Definition len (h : heap) (v : value) : may nat :=
  match v with
  | VStr s => Got (String.length s)
  | VRef l =>
      match h !! l with
      | Some (OList xs) => Got (length xs)
      | Some (ODict d) => Got (size d)
      | None => Threw (Type_error "object of type 'object' has no len()")
      end
  | _ =>
      Threw (Type_error ("object of type '" +:+ type_name h v
                         +:+ "' has no len()"))
  end.

(** [v.count(sub)]: strings and lists have the method; an element of a
    list equals the string [sub] only when it is that string. *)
Definition count (h : heap) (v : value) (sub : string) : may nat :=
  match v with
  | VStr s => Got (str_count s sub)
  | VRef l =>
      match h !! l with
      | Some (OList xs) => Got (length (filter (λ x, x = VStr sub) xs))
      | _ => Threw (no_attribute h v "count")
      end
  | _ => Threw (no_attribute h v "count")
  end.

(** [sub in v] for a string [sub]: a substring of a string, an element
    of a list, a key of a dictionary. *)
Definition contains (h : heap) (sub : string) (v : value) : may bool :=
  match v with
  | VStr s => Got (str_contains sub s)
  | VRef l =>
      match h !! l with
      | Some (OList xs) => Got (bool_decide (VStr sub ∈ xs))
      | Some (ODict d) => Got (bool_decide (is_Some (d !! sub)))
      | None =>
          Threw (Type_error "argument of type 'object' is not iterable")
      end
  | _ =>
      Threw (Type_error ("argument of type '" +:+ type_name h v
                         +:+ "' is not iterable"))
  end.

(** The dictionary behind [v], for a call of its method [attr]. *)
Definition dict_of (h : heap) (v : value) (attr : string)
  : may (gmap string value) :=
  match v with
  | VRef l =>
      match h !! l with
      | Some (ODict d) => Got d
      | _ => Threw (no_attribute h v attr)
      end
  | _ => Threw (no_attribute h v attr)
  end.

(** The integer a value is in arithmetic and in comparisons with
    integers: [bool] is a subclass of [int].  The values of the model
    have no floating-point numbers among them: the other values are
    [None], strings, lists and dictionaries. *)
Definition number (v : value) : option Z :=
  match v with
  | VInt n => Some n
  | VBool b => Some (if b then 1 else 0)%Z
  | _ => None
  end.

(** [acc - (v * k)] for integers [acc] and [k]: a string or a list
    times [k] is a string or a list again, which cannot be subtracted;
    [None] and dictionaries cannot be multiplied. *)
Definition minus_times (h : heap) (acc : Z) (v : value) (k : Z) : may Z :=
  match number v with
  | Some n => Got (acc - n * k)%Z
  | None =>
      Threw (Type_error
        (match type_name h v with
         | "str" => "unsupported operand type(s) for -: 'int' and 'str'"
         | "list" => "unsupported operand type(s) for -: 'int' and 'list'"
         | t => "unsupported operand type(s) for *: '" +:+ t +:+ "' and 'int'"
         end))
  end.

(** ** The registry *)

(** A dictionary with string keys, kept in insertion order. *)
Fixpoint setitem {T} (items : list (string * T)) (k : string) (v : T)
  : list (string * T) :=
  match items with
  | [] => [(k, v)]
  | (k', v') :: items =>
      if decide (k' = k) then (k', v) :: items
      else (k', v') :: setitem items k v
  end.

Fixpoint getitem {T} (items : list (string * T)) (k : string) : option T :=
  match items with
  | [] => None
  | (k', v') :: items => if decide (k' = k) then Some v' else getitem items k
  end.

Module ToolRegistry.

(** [ToolRegistry], over the type [T] of what it stores. *)
Record t (T : Type) := { tools : list (string * T) }.
Arguments tools {T} self : rename.

(** [ToolRegistry.__init__] *)
Definition init {T} : t T := {| tools := [] |}.

(** [ToolRegistry.register] *)
Definition register {T} (self : t T) (name : string) (func : T) : t T :=
  {| tools := setitem (tools self) name func |}.

(** [ToolRegistry.get] *)
Definition get {T} (self : t T) (name : string) : may T :=
  match getitem (tools self) name with
  | None => Threw (Value_error ("Tool '" +:+ name +:+ "' not found in registry"))
  | Some func => Got func
  end.

(** [ToolRegistry.list_tools] *)
Definition list_tools {T} (self : t T) : list string := (tools self).*1.

End ToolRegistry.

(** ** The example tools *)

(** A tool takes one argument and returns a new dictionary, given here
    by its bindings, or raises; it works on the heap like a
    transform. *)
Abbreviation tool :=
  (gmap positive obj → value → gmap positive obj * may (gmap string value))
  (only parsing).

(** [detect_smells]: [issues] is a new list. *)
Definition detect_smells : tool := λ h code,
  let found : may (list string) :=
    let issues := [] in
    n ← len h code;
    let issues := if 1000 <? n then issues ++ ["Code too long"] else issues in
    ifs ← count h code "if";
    let issues :=
      if 10 <? ifs then issues ++ ["Too many conditionals"] else issues in
    todo ← contains h "TODO" code;
    fixme ← (if todo : bool then Got true else contains h "FIXME" code);
    let issues :=
      if fixme : bool then issues ++ ["Contains TODO/FIXME"] else issues in
    Got issues in
  match found with
  | Threw e => (h, Threw e)
  | Got issues =>
      let l := fresh (dom h) in
      (<[l := OList (VStr <$> issues)]> h,
       Got {[ "issues" := VRef l;
              "issue_count" := VInt (Z.of_nat (length issues)) ]})
  end.

(** [check_complexity] *)
Definition check_complexity : tool := λ h code,
  let complexity_score : may Z :=
    let complexity_score := 0%Z in
    ifs ← count h code "if";
    let complexity_score := (complexity_score + Z.of_nat ifs * 2)%Z in
    fors ← count h code "for";
    let complexity_score := (complexity_score + Z.of_nat fors * 3)%Z in
    whiles ← count h code "while";
    let complexity_score := (complexity_score + Z.of_nat whiles * 4)%Z in
    defs ← count h code "def";
    let complexity_score := (complexity_score + Z.of_nat defs * 1)%Z in
    Got complexity_score in
  match complexity_score with
  | Threw e => (h, Threw e)
  | Got complexity_score =>
      (h, Got {[ "complexity_score" := VInt complexity_score ]})
  end.

(** [calculate_quality_score] *)
Definition calculate_quality_score : tool := λ h state,
  let quality_score : may Z :=
    d ← dict_of h state "get";
    let issue_count := get d "issue_count" (VInt 0) in
    let complexity_score := get d "complexity_score" (VInt 0) in
    quality_score ← minus_times h 100 issue_count 10;
    quality_score ← minus_times h quality_score complexity_score 2;
    Got (Z.max 0 quality_score) in
  match quality_score with
  | Threw e => (h, Threw e)
  | Got quality_score => (h, Got {[ "quality_score" := VInt quality_score ]})
  end.

(** The registry after the three [register] calls of the module. *)
Definition tool_registry : ToolRegistry.t tool :=
  let r := ToolRegistry.init in
  let r := ToolRegistry.register r "detect_smells" detect_smells in
  let r := ToolRegistry.register r "check_complexity" check_complexity in
  ToolRegistry.register r "calculate_quality_score" calculate_quality_score.

(** ** The node functions of the example workflow *)

Section Workflow.

(** The registry the node functions find in [tool_registry] when they
    run. *)
Variable registry : ToolRegistry.t tool.

(** Two things Python settles and the heap does not record: the order
    in which the keys of a dictionary object are iterated (the order of
    their insertion), and how two lists compare under [>=] (element by
    element, as deep as they nest). *)
Variable keys_in_order : gmap positive obj → positive → list string.
Variable list_ge : gmap positive obj → list value → list value → may bool.

(** [for x in v] *)
Definition iterate (h : heap) (v : value) : may (list value) :=
  match v with
  | VStr s => Got (characters s)
  | VRef l =>
      match h !! l with
      | Some (OList xs) => Got xs
      | Some (ODict _) => Got (VStr <$> keys_in_order h l)
      | None => Threw (Type_error "'object' object is not iterable")
      end
  | _ => Threw (Type_error ("'" +:+ type_name h v +:+ "' object is not iterable"))
  end.

(** [a >= b] *)
Definition ge (h : heap) (a b : value) : may bool :=
  let unordered :=
    Threw (Type_error ("'>=' not supported between instances of '"
                       +:+ type_name h a +:+ "' and '"
                       +:+ type_name h b +:+ "'")) in
  match number a, number b with
  | Some x, Some y => Got (y <=? x)%Z
  | _, _ =>
      match a, b with
      | VStr s, VStr t => Got (String.leb t s)
      | VRef l, VRef l' =>
          match h !! l, h !! l' with
          | Some (OList xs), Some (OList ys) => list_ge h xs ys
          | _, _ => unordered
          end
      | _, _ => unordered
      end
  end.

(** A node function that raises [e]. *)
Definition raises (h : heap) (e : error) : heap * returned :=
  (h, Raises (message e)).

(** [extract_functions] *)
Definition extract_functions : transform := λ h state,
  match dict_of h (VRef state) "get" with
  | Threw e => raises h e
  | Got d =>
      let code := get d "code" (VStr "") in
      match count h code "def " with
      | Threw e => raises h e
      | Got function_count =>
          let d := <["function_count" := VInt (Z.of_nat function_count)]> d in
          let d := <["extracted" := VBool true]> d in
          (<[state := ODict d]> h, Returns state)
      end
  end.

(** [state.update(result); return state], after the call of a tool. *)
Definition update_with (h : heap) (state : loc)
    (r : heap * may (gmap string value)) : heap * returned :=
  match r with
  | (h, Threw e) => raises h e
  | (h, Got result) =>
      match dict_of h (VRef state) "update" with
      | Threw e => raises h e
      | Got d => (<[state := ODict (result ∪ d)]> h, Returns state)
      end
  end.

(** [check_complexity_node] *)
Definition check_complexity_node : transform := λ h state,
  match dict_of h (VRef state) "get" with
  | Threw e => raises h e
  | Got d =>
      let code := get d "code" (VStr "") in
      match ToolRegistry.get registry "check_complexity" with
      | Threw e => raises h e
      | Got check_complexity => update_with h state (check_complexity h code)
      end
  end.

(** [detect_issues_node] *)
Definition detect_issues_node : transform := λ h state,
  match dict_of h (VRef state) "get" with
  | Threw e => raises h e
  | Got d =>
      let code := get d "code" (VStr "") in
      match ToolRegistry.get registry "detect_smells" with
      | Threw e => raises h e
      | Got detect_smells => update_with h state (detect_smells h code)
      end
  end.

(** The loop of [suggest_improvements] over the issues still to
    visit. *)
Fixpoint suggest (h : heap) (issues : list value) (suggestions : list string)
  : may (list string) :=
  match issues with
  | [] => Got suggestions
  | issue :: issues =>
      match issue with
      | VStr s =>
          if str_contains "too long" (lower s) then
            suggest h issues
              (suggestions ++ ["Consider breaking into smaller functions"])
          else if str_contains "conditionals" (lower s) then
            suggest h issues
              (suggestions ++ ["Consider using switch/case or polymorphism"])
          else if str_contains "TODO" s then
            suggest h issues
              (suggestions ++ ["Remove TODO comments before production"])
          else suggest h issues suggestions
      | _ => Threw (no_attribute h issue "lower")
      end
  end.

(** [suggest_improvements]: [suggestions] is a new list; without the
    key, [issues] is a new empty list. *)
Definition suggest_improvements : transform := λ h state,
  match dict_of h (VRef state) "get" with
  | Threw e => raises h e
  | Got d =>
      let issues :=
        match d !! "issues" with
        | Some issues => iterate h issues
        | None => Got []
        end in
      match issues ≫= λ issues, suggest h issues [] with
      | Threw e => raises h e
      | Got suggestions =>
          let l := fresh (dom h) in
          let h := <[l := OList (VStr <$> suggestions)]> h in
          (<[state := ODict (<["suggestions" := VRef l]> d)]> h, Returns state)
      end
  end.

(** [calculate_quality] *)
Definition calculate_quality : transform := λ h state,
  match ToolRegistry.get registry "calculate_quality_score" with
  | Threw e => raises h e
  | Got calculate_quality_score =>
      update_with h state (calculate_quality_score h (VRef state))
  end.

(** [check_threshold] *)
Definition check_threshold : transform := λ h state,
  match dict_of h (VRef state) "get" with
  | Threw e => raises h e
  | Got d =>
      let quality_score := get d "quality_score" (VInt 0) in
      let threshold := get d "threshold" (VInt 70) in
      match ge h quality_score threshold with
      | Threw e => raises h e
      | Got true =>
          let d := <["quality_met" := VBool true]> d in
          let d := <["loop_continue" := VBool false]> d in
          (<[state := ODict d]> h, Returns state)
      | Got false =>
          let d := <["quality_met" := VBool false]> d in
          let d := <["loop_continue" := VBool true]> d in
          let d := <["loop_node" := VStr "suggest_improvements"]> d in
          (<[state := ODict d]> h, Returns state)
      end
  end.

(** [create_code_review_workflow] *)
Definition create_code_review_workflow : result WorkflowGraph :=
  let graph := init "code_review_workflow" in
  build graph
    [ AddNode "extract_functions" extract_functions;
      AddNode "check_complexity" check_complexity_node;
      AddNode "detect_issues" detect_issues_node;
      AddNode "suggest_improvements" suggest_improvements;
      AddNode "calculate_quality" calculate_quality;
      AddNode "check_threshold" check_threshold;
      AddEdge "extract_functions" "check_complexity";
      AddEdge "check_complexity" "detect_issues";
      AddEdge "detect_issues" "suggest_improvements";
      AddEdge "suggest_improvements" "calculate_quality";
      AddEdge "calculate_quality" "check_threshold" ].

End Workflow.

(** ** Vocabulary of the properties of the tools and of the workflow *)

(** The registry after the [register] calls [calls], in that order, on
    a new registry. *)
Definition registered {T} (calls : list (string * T)) : ToolRegistry.t T :=
  foldl (λ self call, ToolRegistry.register self call.1 call.2)
    ToolRegistry.init calls.

(** [v] is a string or a list. *)
Definition is_sequence (h : heap) (v : value) : Prop :=
  match v with
  | VStr _ => True
  | VRef l => ∃ xs, h !! l = Some (OList xs)
  | _ => False
  end.

(** [v] is [None], a string, a list or a dictionary. *)
Definition not_a_number (v : value) : Prop :=
  match v with
  | VNone | VStr _ | VRef _ => True
  | VBool _ | VInt _ => False
  end.

(** The messages of [detect_smells], in the order of its tests. *)
Definition smell_messages : list string :=
  ["Code too long"; "Too many conditionals"; "Contains TODO/FIXME"].

(** The suggestion [suggest_improvements] has for an issue, if any. *)
Definition advice (issue : string) : option string :=
  if str_contains "too long" (lower issue)
  then Some "Consider breaking into smaller functions"
  else if str_contains "conditionals" (lower issue)
  then Some "Consider using switch/case or polymorphism"
  else if str_contains "TODO" issue
  then Some "Remove TODO comments before production"
  else None.

(** The transform [f] writes to no object there is but the state it is
    handed, and when it returns, it returns that state. *)
Definition in_place (f : transform) : Prop :=
  ∀ h s, (∀ l, l ≠ s → is_Some (h !! l) → (f h s).1 !! l = h !! l)
         ∧ (∀ s', (f h s).2 = Returns s' → s' = s).

(** The nodes of the example workflow, in the order of its edges. *)
Definition workflow_order : list string :=
  ["extract_functions"; "check_complexity"; "detect_issues";
   "suggest_improvements"; "calculate_quality"; "check_threshold"].

(** The nodes [check_threshold] sends a run round again. *)
Definition loop_order : list string :=
  ["suggest_improvements"; "calculate_quality"; "check_threshold"].

(** What [detect_smells] finds in a string. *)
Definition smells (code : string) : list string :=
  (if 1000 <? String.length code then ["Code too long"] else [])
  ++ (if 10 <? str_count code "if" then ["Too many conditionals"] else [])
  ++ (if str_contains "TODO" code || str_contains "FIXME" code
      then ["Contains TODO/FIXME"] else []).

(** What [check_complexity] makes of a string. *)
Definition complexity (code : string) : Z :=
  Z.of_nat (str_count code "if") * 2
  + Z.of_nat (str_count code "for") * 3
  + Z.of_nat (str_count code "while") * 4
  + Z.of_nat (str_count code "def") * 1.

(** The score [calculate_quality_score] gives the two. *)
Definition quality (code : string) : Z :=
  Z.max 0 (100 - Z.of_nat (length (smells code)) * 10 - complexity code * 2).

(** The names of the nodes a run of the example workflow executes from
    the node number [stage] on, [n] passes at most: down the chain,
    and from [check_threshold] back to [suggest_improvements] unless
    the threshold is [met]. *)
Fixpoint schedule (met : bool) (stage n : nat) : list string :=
  match n with
  | O => []
  | S n =>
      default "" (workflow_order !! stage)
      :: (if stage <? 5 then schedule met (S stage) n
          else if met then [] else schedule met 3 n)
  end.

(** The state of a run of the example workflow on the string [code]
    with the threshold [threshold], before the node number [stage]
    executes; [seen] when [check_threshold] has executed already. *)
Definition reviewing (code : string) (threshold : value) (met : bool)
    (stage : nat) (seen : bool) (h : heap) (s : loc) : Prop :=
  ∃ d, dict_at h s = Some d
    ∧ get d "code" (VStr "") = VStr code
    ∧ get d "threshold" (VInt 70) = threshold
    ∧ truthy h (get d "loop_continue" (VBool false)) = false
    ∧ (2 ≤ stage → d !! "complexity_score" = Some (VInt (complexity code)))
    ∧ (3 ≤ stage →
       d !! "issue_count" = Some (VInt (Z.of_nat (length (smells code))))
       ∧ ∃ l, d !! "issues" = Some (VRef l)
              ∧ h !! l = Some (OList (VStr <$> smells code)))
    ∧ (5 ≤ stage ∨ seen = true →
       d !! "quality_score" = Some (VInt (quality code)))
    ∧ (seen = true →
       d !! "quality_met" = Some (VBool met)
       ∧ d !! "loop_continue" = Some (VBool false)).

(** The node function of the node number [stage]. *)
Definition stage_func (registry : ToolRegistry.t tool)
    (keys_in_order : heap → loc → list string)
    (list_ge : heap → list value → list value → may bool)
    (stage : nat) : transform :=
  match stage with
  | 0 => extract_functions
  | 1 => check_complexity_node registry
  | 2 => detect_issues_node registry
  | 3 => suggest_improvements keys_in_order
  | 4 => calculate_quality registry
  | _ => check_threshold list_ge
  end.

(** [g] has the nodes and the edges of the example workflow, and no
    others. *)
Definition review_wired (registry : ToolRegistry.t tool)
    (keys_in_order : heap → loc → list string)
    (list_ge : heap → list value → list value → may bool)
    (g : WorkflowGraph) : Prop :=
  entry_node g = Some "extract_functions"
  ∧ (∀ stage key, workflow_order !! stage = Some key →
       edges g !! key = workflow_order !! S stage
       ∧ ∃ node, nodes g !! key = Some node
                 ∧ name node = key
                 ∧ func node = stage_func registry keys_in_order list_ge stage)
  ∧ ∀ key, is_Some (nodes g !! key) → key ∈ workflow_order.

(** The example workflow as the requests below run it: they iterate
    no dictionary and compare no two lists, so the two parameters are
    set to anything. *)
Definition example_workflow : WorkflowGraph :=
  match create_code_review_workflow tool_registry
          (λ _ _, []) (λ _ _ _, Got true) with
  | Ok g => g
  | Raise _ => init "code_review_workflow"
  end.

(** A caller's state with [code], and with [threshold] when given, held
    at address 1. *)
Definition review_request (code : value) (threshold : option value) : heap :=
  {[ 1%positive :=
       ODict (match threshold with
              | Some t => <["threshold" := t]> {[ "code" := code ]}
              | None => {[ "code" := code ]}
              end) ]}.

(** * Properties *)

(** ** The phases of the loop body *)

Section Phases.
Implicit Types (self g : WorkflowGraph) (L : locals) (d : gmap string value).

Lemma alter_last {A} (f : A → A) (l : list A) (x : A) :
  alter f (length l) (l ++ [x]) = l ++ [f x].
Proof.
  replace (length l) with (length l + 0) by lia.
  by rewrite alter_app_r.
Qed.

Lemma dict_at_Some (h : gmap positive obj) (l : positive) d :
  dict_at h l = Some d ↔ h !! l = Some (ODict d).
Proof.
  unfold dict_at. destruct (h !! l) as [[]|]; naive_solver.
Qed.

Lemma dict_at_insert_eq (h : gmap positive obj) (l : positive) d :
  dict_at (<[l := ODict d]> h) l = Some d.
Proof. apply dict_at_Some, lookup_insert_eq. Qed.

Lemma dict_at_insert_ne (h : gmap positive obj) (l l' : positive) o :
  l ≠ l' → dict_at (<[l := o]> h) l' = dict_at h l'.
Proof. intros. unfold dict_at. by rewrite lookup_insert_ne. Qed.

Lemma nodes_getitem_Ok g (h : gmap positive obj) k key node :
  nodes_getitem g h k = Ok (key, node) ↔
  k = VStr key ∧ nodes g !! key = Some node.
Proof.
  unfold nodes_getitem. destruct k; try naive_solver.
  destruct (nodes g !! s) eqn:E; naive_solver.
Qed.

Lemma attempt_returns g (h h1 : gmap positive obj) L key node s1 d1 :
  func node h (state L) = (h1, Returns s1) →
  dict_at h1 s1 = Some d1 →
  attempt g h L key node =
    (set_nodes (<[key := set_status COMPLETED node]> (nodes g)) g, h1,
     with_log (execution_log L ++ [length (log_objs L)])
       (log_objs L ++ [completed_entry key (iteration L) d1])
       (with_state s1 L),
     None).
Proof.
  intros Hf Hd. unfold attempt, execute. cbn. rewrite Hf. cbn.
  rewrite Hd. cbn. by rewrite !alter_last.
Qed.

Lemma attempt_not_a_dict g (h h1 : gmap positive obj) L key node s1 :
  func node h (state L) = (h1, Returns s1) →
  dict_at h1 s1 = None →
  attempt g h L key node =
    (set_nodes (<[key := set_status COMPLETED node]> (nodes g)) g, h1,
     with_log (execution_log L ++ [length (log_objs L)])
       (log_objs L ++ [ {| log_node := key; log_status := "completed";
                           log_iteration := iteration L;
                           log_state_snapshot := None;
                           log_error := None |} ])
       (with_state s1 L),
     Some NotADict).
Proof.
  intros Hf Hd. unfold attempt, execute. cbn. rewrite Hf. cbn.
  rewrite Hd. by rewrite alter_last.
Qed.

Lemma attempt_raises g (h h1 : gmap positive obj) L key node msg :
  func node h (state L) = (h1, Raises msg) →
  attempt g h L key node =
    (set_nodes (<[key := set_status FAILED node]> (nodes g)) g, h1,
     with_log (execution_log L ++ [length (log_objs L); length (log_objs L)])
       (log_objs L ++ [failed_entry key (iteration L) msg]) L,
     Some (Raised (Exception msg))).
Proof.
  intros Hf. unfold attempt, execute. cbn. rewrite Hf. cbn.
  by rewrite !alter_last, <-app_assoc.
Qed.

End Phases.

(** ** The conditional routing resolver *)

Section Resolver.
Implicit Types (g : WorkflowGraph) (d : gmap string value).

(** C7, as stated, fails: with [route_to] bound to a list, the value
    names no node, and yet the resolver does not return empty: the
    membership test [next_node in self.nodes] raises [TypeError]. *)
Lemma evaluate_conditional_unhashable_raises :
  let h : heap := {[ 1%positive := ODict {[ "route_to" := VRef 2 ]};
                     2%positive := OList [] ]} in
  (∃ d, dict_at h 1 = Some d ∧ d !! "route_to" = Some (VRef 2))
  ∧ in_nodes scenario_d h (VRef 2) ≠ Ok true
  ∧ (∀ h', _evaluate_conditional scenario_d "if_route" h 1 ≠ Some (h', Ok VNone))
  ∧ ∃ h' msg, _evaluate_conditional scenario_d "if_route" h 1
              = Some (h', Raise (TypeError msg)).
Proof.
  cbn zeta. split; [|split; [|split]].
  - eexists. split; reflexivity.
  - vm_compute. discriminate.
  - intros h'. vm_compute. intros [=].
  - eexists _, _. vm_compute. reflexivity.
Qed.

(** C7, amended: the resolver removes [route_to] from the state whenever
    it is there, and touches no other object; it returns the value when
    that names an existing node, empty for any other hashable value, and
    raises [TypeError] (the key already removed) when the value is a
    list or a mapping.  Without the key it returns empty and leaves the
    state as it is. *)
Theorem evaluate_conditional_consumes_route_to
    g (marker : string) (h : gmap positive obj) (s : positive) d :
  dict_at h s = Some d →
  (d !! "route_to" = None →
   _evaluate_conditional g marker h s = Some (h, Ok VNone))
  ∧ (∀ v, d !! "route_to" = Some v →
     ∃ h' r,
       _evaluate_conditional g marker h s = Some (h', r)
       ∧ dict_at h' s = Some (delete "route_to" d)
       ∧ delete "route_to" d !! "route_to" = None
       ∧ (∀ l, l ≠ s → h' !! l = h !! l)
       ∧ (∀ n, v = VStr n → n ∈ dom (nodes g) → r = Ok (VStr n))
       ∧ (∀ n, v = VStr n → n ∉ dom (nodes g) → r = Ok VNone)
       ∧ (v = VNone ∨ (∃ b, v = VBool b) ∨ (∃ z, v = VInt z) → r = Ok VNone)
       ∧ (∀ l, v = VRef l → ∃ msg, r = Raise (TypeError msg))).
Proof.
  intros Hd. unfold _evaluate_conditional. rewrite Hd. cbn. split.
  - by intros ->.
  - intros v ->. eexists _, _. split; [reflexivity|].
    split; [apply dict_at_insert_eq|].
    split; [apply lookup_delete_eq|].
    split; [by intros l Hl; rewrite lookup_insert_ne|].
    repeat split.
    + intros n -> Hn. cbn. by rewrite bool_decide_eq_true_2.
    + intros n -> Hn. cbn. by rewrite bool_decide_eq_false_2.
    + intros [->|[[b ->]|[z ->]]]; reflexivity.
    + intros l ->. cbn. unfold unhashable.
      repeat case_match; eauto.
Qed.

Lemma evaluate_conditional_consumes_route_to_witness :
  let h : heap := {[ 1%positive := ODict {[ "route_to" := VStr "c" ]} ]} in
  dict_at h 1 = Some {[ "route_to" := VStr "c" ]}
  ∧ ∃ h', _evaluate_conditional scenario_d "if_route" h 1
          = Some (h', Ok (VStr "c"))
          ∧ dict_at h' 1 = Some (delete "route_to" {[ "route_to" := VStr "c" ]}).
Proof.
  cbn zeta. split; [reflexivity|].
  pose proof (evaluate_conditional_consumes_route_to scenario_d "if_route"
                {[ 1%positive := ODict {[ "route_to" := VStr "c" ]} ]} 1
                {[ "route_to" := VStr "c" ]}) as H.
  destruct H as [_ Hp]; [reflexivity|].
  destruct (Hp (VStr "c")) as (h' & r & He & Hd & _ & _ & Hin & _);
    [reflexivity|].
  exists h'. rewrite He, (Hin "c" eq_refl); [done|].
  apply elem_of_dom. eexists. reflexivity.
Defined.

End Resolver.

(** ** Node status is write-only *)

Section Wiring.
Implicit Types (g : WorkflowGraph) (L : locals) (h : gmap positive obj).

#[global] Instance same_wiring_equiv : Equivalence same_wiring.
Proof.
  unfold same_wiring. split.
  - by intros g.
  - intros g g' (? & ? & ?). by repeat split.
  - intros g1 g2 g3 (? & ? & ?) (? & ? & ?). repeat split; congruence.
Qed.

Lemma same_wiring_lookup g g' k :
  same_wiring g g' → wiring <$> nodes g !! k = wiring <$> nodes g' !! k.
Proof. intros (_ & _ & E). by rewrite <-!lookup_fmap, E. Qed.

Lemma same_wiring_dom g g' : same_wiring g g' → dom (nodes g) = dom (nodes g').
Proof.
  intros (_ & _ & E). by rewrite <-(dom_fmap_L wiring), E, dom_fmap_L.
Qed.

Lemma same_wiring_set_node g key node node' :
  nodes g !! key = Some node → wiring node' = wiring node →
  same_wiring g (set_nodes (<[key := node']> (nodes g)) g).
Proof.
  intros Hn Hw. repeat split. cbn. apply map_eq. intros k.
  rewrite !lookup_fmap. destruct (decide (key = k)) as [->|].
  - rewrite lookup_insert_eq, Hn. cbn. by rewrite Hw.
  - by rewrite lookup_insert_ne.
Qed.

Lemma same_wiring_set_status_both g g' key node node' st :
  same_wiring g g' → func node = func node' → name node = name node' →
  same_wiring (set_nodes (<[key := set_status st node]> (nodes g)) g)
              (set_nodes (<[key := set_status st node']> (nodes g')) g').
Proof.
  intros (He & Hentry & Hn) Hf Hname. repeat split; cbn; [done..|].
  rewrite !fmap_insert, Hn. unfold wiring at 1 3. cbn. by rewrite Hf, Hname.
Qed.

Lemma in_nodes_wiring g g' h k :
  same_wiring g g' → in_nodes g h k = in_nodes g' h k.
Proof. intros Hw. unfold in_nodes. by rewrite (same_wiring_dom g g'). Qed.

Lemma nodes_getitem_wiring g g' h k :
  same_wiring g g' →
  match nodes_getitem g h k, nodes_getitem g' h k with
  | Ok (key, n), Ok (key', n') => key = key' ∧ wiring n = wiring n'
  | Raise e, Raise e' => e = e'
  | _, _ => False
  end.
Proof.
  intros Hw. unfold nodes_getitem. destruct k; try done.
  pose proof (same_wiring_lookup g g' s Hw) as E.
  destruct (nodes g !! s), (nodes g' !! s); cbn in E; try done.
  split; [done|congruence].
Qed.

Lemma evaluate_conditional_wiring g g' marker h s :
  same_wiring g g' →
  _evaluate_conditional g marker h s = _evaluate_conditional g' marker h s.
Proof.
  intros Hw. unfold _evaluate_conditional.
  destruct (dict_at h s) as [d|]; [cbn|done].
  destruct (d !! "route_to"); [|done].
  by rewrite (in_nodes_wiring g g').
Qed.

Lemma route_wiring g g' h s key :
  same_wiring g g' → route g h s key = route g' h s key.
Proof.
  intros Hw. unfold route, get_next_node.
  pose proof Hw as (He & _ & _). rewrite <-He.
  destruct (edges g !! key) as [n|]; [|done].
  case_match; [|done]. by apply evaluate_conditional_wiring.
Qed.

Lemma loop_override_wiring g g' h L :
  same_wiring g g' → loop_override g h L = loop_override g' h L.
Proof. intros (_ & He & _). unfold loop_override. by rewrite He. Qed.

Lemma attempt_wiring g g' h L key n n' :
  same_wiring g g' → wiring n = wiring n' →
  ∃ g1 g1' h1 L1 stop,
    attempt g h L key n = (g1, h1, L1, stop)
    ∧ attempt g' h L key n' = (g1', h1, L1, stop)
    ∧ same_wiring g1 g1'.
Proof.
  intros Hw [= Hname Hf]. unfold attempt, execute. cbn. rewrite <-Hf.
  destruct (func n h (state L)) as [h1 [s1|msg]]; cbn.
  - destruct (dict_at h1 s1); eexists _, _, _, _, _;
      (split; [reflexivity|split; [reflexivity|]]);
      by apply same_wiring_set_status_both.
  - eexists _, _, _, _, _. split; [reflexivity|split; [reflexivity|]].
    by apply same_wiring_set_status_both.
Qed.

Lemma run_body_wiring g g' h L :
  same_wiring g g' →
  ∃ g1 g1' h1 L1 c,
    run_body g h L = (g1, h1, L1, c)
    ∧ run_body g' h L = (g1', h1, L1, c)
    ∧ same_wiring g1 g1'.
Proof.
  intros Hw. unfold run_body.
  destruct (in_visited _ _ _); [|by eexists _, _, _, _, _].
  pose proof (nodes_getitem_wiring g g' h
                (current_node_name (with_iteration (S (iteration L)) L)) Hw) as Hg.
  destruct (nodes_getitem g h _) as [[key n]|e],
           (nodes_getitem g' h _) as [[key' n']|e']; try done.
  2:{ subst. by eexists _, _, _, _, _. }
  destruct Hg as [<- Hn].
  destruct (attempt_wiring g g' h (with_iteration (S (iteration L)) L) key n n'
              Hw Hn) as (g1 & g1' & h1 & L1 & stop & -> & -> & Hw1).
  destruct stop; [by eexists _, _, _, _, _|].
  rewrite <-(route_wiring g1 g1') by done.
  destruct (route g1 h1 _ key) as [[h2 [next|e]]|];
    [|by eexists _, _, _, _, _..].
  rewrite <-(loop_override_wiring g1 g1') by done.
  destruct (loop_override g1 h2 _) as [[[h3 L3] c]|];
    by eexists _, _, _, _, _.
Qed.

Lemma run_loop_wiring fuel g g' h L :
  same_wiring g g' →
  res_heap (run_loop fuel g h L) = res_heap (run_loop fuel g' h L)
  ∧ res_locals (run_loop fuel g h L) = res_locals (run_loop fuel g' h L)
  ∧ res_outcome (run_loop fuel g h L) = res_outcome (run_loop fuel g' h L)
  ∧ same_wiring (res_graph (run_loop fuel g h L))
                (res_graph (run_loop fuel g' h L)).
Proof.
  revert g g' h L. induction fuel as [|fuel IH]; intros g g' h L Hw; cbn.
  - by case_match.
  - case_match; [|done].
    destruct (run_body_wiring g g' h L Hw)
      as (g1 & g1' & h1 & L1 & c & -> & -> & Hw1).
    destruct c; [by apply IH|done..].
Qed.

Lemma attempt_keeps_wiring g h L key node :
  nodes g !! key = Some node →
  same_wiring g (attempt g h L key node).1.1.1.
Proof.
  intros Hn. unfold attempt, execute. cbn.
  destruct (func node h (state L)) as [h1 [s1|msg]]; cbn.
  - destruct (dict_at h1 s1); cbn; by apply (same_wiring_set_node _ _ node).
  - by apply (same_wiring_set_node _ _ node).
Qed.

Lemma run_body_keeps_wiring g h L : same_wiring g (run_body g h L).1.1.1.
Proof.
  unfold run_body. destruct (in_visited _ _ _); [|done].
  destruct (nodes_getitem g h _) as [[key node]|e] eqn:Hg; [|done].
  apply nodes_getitem_Ok in Hg as [_ Hn].
  pose proof (attempt_keeps_wiring g h (with_iteration (S (iteration L)) L)
                key node Hn) as Hw.
  destruct (attempt g h _ key node) as [[[g1 h1] L1] stop]. cbn in Hw.
  destruct stop; [done|].
  destruct (route g1 h1 _ key) as [[h2 [next|e]]|]; [|done..].
  by destruct (loop_override g1 h2 _) as [[[h3 L3] c]|].
Qed.

Lemma run_loop_keeps_wiring fuel g h L :
  same_wiring g (res_graph (run_loop fuel g h L)).
Proof.
  revert g h L. induction fuel as [|fuel IH]; intros g h L; cbn.
  - by case_match.
  - case_match; [|done].
    pose proof (run_body_keeps_wiring g h L) as Hw.
    destruct (run_body g h L) as [[[g1 h1] L1] c]. cbn in Hw.
    destruct c; [|done..]. etrans; [exact Hw|apply IH].
Qed.

Lemma run_keeps_wiring g h (l0 : positive) :
  same_wiring g (res_graph (run g h l0)).
Proof.
  unfold run. destruct (entry_node g); [|done].
  destruct (dict_at h l0); [|done]. apply run_loop_keeps_wiring.
Qed.

Lemma run_wiring g g' h (l0 : positive) :
  same_wiring g g' →
  res_heap (run g h l0) = res_heap (run g' h l0)
  ∧ res_locals (run g h l0) = res_locals (run g' h l0)
  ∧ res_outcome (run g h l0) = res_outcome (run g' h l0).
Proof.
  intros Hw. unfold run. pose proof Hw as (_ & <- & _).
  destruct (entry_node g); [|done].
  destruct (dict_at h l0) as [d|]; [|done].
  by destruct (run_loop_wiring max_iterations g g'
                 (<[fresh (dom h) := ODict d]> h)
                 (run_init s (fresh (dom h))) Hw) as (? & ? & ? & _).
Qed.

(** C9: a second run of the graph object the first run leaves behind,
    from the same heap and the same initial state, ends the same way
    (same return or same exception), with the same final state, the
    same heap and the same execution log: the [status] fields the first
    run wrote are never read. *)
Theorem rerun_identical (g : WorkflowGraph) (h : gmap positive obj)
    (initial_state : positive) :
  let first := run g h initial_state in
  let second := run (res_graph first) h initial_state in
  res_outcome second = res_outcome first
  ∧ res_heap second = res_heap first
  ∧ state (res_locals second) = state (res_locals first)
  ∧ trace second = trace first
  ∧ res_locals second = res_locals first.
Proof.
  cbn zeta.
  destruct (run_wiring g (res_graph (run g h initial_state)) h initial_state
              (run_keeps_wiring g h initial_state)) as (Hh & HL & Ho).
  unfold trace. by rewrite <-Hh, <-HL, <-Ho.
Qed.

End Wiring.

(** ** One pass through the loop *)

Section Body.
Implicit Types (g : WorkflowGraph) (L : locals) (h : gmap positive obj)
  (d : gmap string value).

Lemma run_body_bad_return g h L key node h1 s1 :
  current_node_name L = VStr key → nodes g !! key = Some node →
  func node h (state L) = (h1, Returns s1) → dict_at h1 s1 = None →
  run_body g h L =
    (set_nodes (<[key := set_status COMPLETED node]> (nodes g)) g, h1,
     after_bad_return L key s1, Abort NotADict).
Proof.
  intros Hc Hn Hf Hd. unfold run_body. cbn. rewrite Hc. cbn. rewrite Hn.
  by rewrite (attempt_not_a_dict g h h1 _ key node s1).
Qed.

Lemma run_body_returns g h L key node h1 s1 d1 :
  current_node_name L = VStr key → nodes g !! key = Some node →
  func node h (state L) = (h1, Returns s1) → dict_at h1 s1 = Some d1 →
  let g1 := set_nodes (<[key := set_status COMPLETED node]> (nodes g)) g in
  run_body g h L =
    match route g h1 s1 key with
    | None => (g1, h1, after_node L key s1 d1, Abort NotADict)
    | Some (h2, Raise e) => (g1, h2, after_node L key s1 d1, Abort (Raised e))
    | Some (h2, Ok next) =>
        match loop_override g h2 (with_current next (after_node L key s1 d1)) with
        | None =>
            (g1, h2, with_current next (after_node L key s1 d1), Abort NotADict)
        | Some (h3, L3, c) => (g1, h3, L3, c)
        end
    end.
Proof.
  intros Hc Hn Hf Hd g1. unfold run_body. cbn. rewrite Hc. cbn. rewrite Hn.
  rewrite (attempt_returns g h h1 _ key node s1 d1) by done.
  cbn. fold g1.
  assert (same_wiring g g1) as Hw
    by (apply (same_wiring_set_node _ _ node); done).
  rewrite <-(route_wiring g g1) by done.
  by destruct (route g h1 s1 key) as [[h2 [next|e]]|].
Qed.

Lemma run_body_raises g h L key node h1 msg :
  current_node_name L = VStr key → nodes g !! key = Some node →
  func node h (state L) = (h1, Raises msg) →
  run_body g h L =
    (set_nodes (<[key := set_status FAILED node]> (nodes g)) g, h1,
     after_failure L key msg, Abort (Raised (Exception msg))).
Proof.
  intros Hc Hn Hf. unfold run_body. cbn. rewrite Hc. cbn. rewrite Hn.
  by rewrite (attempt_raises g h h1 _ key node msg).
Qed.

Lemma run_body_missing g h L (m : string) :
  current_node_name L = VStr m → nodes g !! m = None →
  run_body g h L =
    (g, h, with_iteration (S (iteration L)) L,
     Abort (Raised (KeyError (VStr m)))).
Proof.
  intros Hc Hn. unfold run_body. cbn. rewrite Hc. cbn. by rewrite Hn.
Qed.

Lemma run_loop_enter fuel g h L :
  truthy h (current_node_name L) = true → iteration L < max_iterations →
  run_loop (S fuel) g h L =
    match run_body g h L with
    | (g1, h1, L1, Continue) => run_loop fuel g1 h1 L1
    | (g1, h1, L1, Break) =>
        {| res_graph := g1; res_heap := h1; res_locals := L1;
           res_outcome := Returned (state L1) (execution_log L1) |}
    | (g1, h1, L1, Abort o) =>
        {| res_graph := g1; res_heap := h1; res_locals := L1;
           res_outcome := o |}
    end.
Proof.
  intros Ht Hi. cbn [run_loop]. rewrite Ht.
  by rewrite (proj2 (Nat.ltb_lt _ _) Hi).
Qed.

Lemma run_loop_exit fuel g h L :
  truthy h (current_node_name L) = false ∨ max_iterations ≤ iteration L →
  run_loop fuel g h L =
    {| res_graph := g; res_heap := h; res_locals := L;
       res_outcome := Returned (state L) (execution_log L) |}.
Proof.
  intros Hc.
  assert (truthy h (current_node_name L) && (iteration L <? max_iterations)
          = false) as E.
  { destruct Hc as [->|Hi]; [done|].
    rewrite (proj2 (Nat.ltb_ge _ _) Hi). apply andb_false_r. }
  destruct fuel; cbn [run_loop]; by rewrite E.
Qed.

End Body.

(** ** What a pass can do to the heap and to the log *)

Section Frame.
Implicit Types (g : WorkflowGraph) (L : locals) (h : gmap positive obj)
  (d : gmap string value).

Lemma route_frame g h (s : positive) key h2 r :
  route g h s key = Some (h2, r) → ∀ l, l ≠ s → h2 !! l = h !! l.
Proof.
  unfold route, _evaluate_conditional. intros Hr l Hl.
  destruct (get_next_node g key) as [n|]; [|by simplify_eq].
  destruct (negb (String.eqb n "") && startswith n "if_"); [|by simplify_eq].
  destruct (dict_at h s) as [d|]; [cbn in Hr|done].
  destruct (d !! "route_to"); simplify_eq; [|done].
  by rewrite lookup_insert_ne.
Qed.

Lemma loop_override_frame g h L h3 L3 c :
  loop_override g h L = Some (h3, L3, c) →
  (∀ l, l ≠ state L → h3 !! l = h !! l)
  ∧ (c = Continue ∨ c = Break)
  ∧ ∃ cur, L3 = with_current cur L.
Proof.
  unfold loop_override. intros Ho.
  destruct (dict_at h (state L)) as [d|]; [cbn in Ho|done].
  destruct (truthy h _); injection Ho as <- <- <-.
  - split; [|split; [auto|by eexists]].
    intros l Hl. by rewrite lookup_insert_ne.
  - split; [done|]. split; [by destruct (current_node_name L); auto|].
    exists (current_node_name L). by destruct L.
Qed.

Lemma run_body_pass g h L : pass g h L (run_body g h L).
Proof.
  destruct (in_visited h (visited_nodes L) (current_node_name L))
    as [b|e] eqn:Hv.
  2:{ unfold run_body. cbn. rewrite Hv. constructor.
      intros key Hc. by rewrite Hc in Hv. }
  destruct (nodes_getitem g h (current_node_name L)) as [[key node]|e] eqn:Hg.
  2:{ unfold run_body. cbn. rewrite Hv, Hg. constructor.
      intros key Hc. rewrite Hc in Hg. cbn in Hg.
      by destruct (nodes g !! key). }
  apply nodes_getitem_Ok in Hg as [Hc Hn].
  destruct (func node h (state L)) as [h1 [s1|msg]] eqn:Hf.
  2:{ rewrite (run_body_raises g h L key node h1 msg) by done.
      by constructor. }
  destruct (dict_at h1 s1) as [d1|] eqn:Hd.
  - rewrite (run_body_returns g h L key node h1 s1 d1) by done. cbn zeta.
    assert (after_node L key s1 d1
            = with_current (current_node_name L) (after_node L key s1 d1)) as E
      by done.
    destruct (route g h1 s1 key) as [[h2 [next|e]]|] eqn:Hr.
    + pose proof (route_frame _ _ _ _ _ _ Hr) as Hfr.
      destruct (loop_override g h2 _) as [[[h3 L3] c]|] eqn:Ho.
      * apply loop_override_frame in Ho as (Hfo & Hc' & cur & ->).
        cbn in Hfo. eapply pass_returned; eauto.
        -- intros l Hl. by rewrite Hfo, Hfr.
        -- by destruct Hc' as [->| ->].
      * eapply pass_returned; eauto. done.
    + rewrite E. eapply pass_returned; eauto using route_frame. done.
    + rewrite E. eapply pass_returned; eauto. done.
  - rewrite (run_body_bad_return g h L key node h1 s1) by done.
    by constructor.
Qed.

Lemma pass_control g h L g1 h1 L1 c :
  pass g h L (g1, h1, L1, c) → passes_on c.
Proof. by inversion 1. Qed.

End Frame.

(** ** Accounting: iterations, attempts and log entries *)

Section Accounting.
Implicit Types (g : WorkflowGraph) (L : locals) (h : gmap positive obj).

Lemma pass_log g h L g1 h1 L1 c :
  pass g h L (g1, h1, L1, c) →
  iteration L1 = S (iteration L)
  ∧ ∃ news refs,
      log_objs L1 = log_objs L ++ news ∧ length news ≤ 1
      ∧ execution_log L1 = execution_log L ++ refs
      ∧ Forall (λ i, i < length (log_objs L1)) refs
      ∧ (match c with Abort _ => True | _ => length refs = length news end).
Proof.
  intros Hp.
  inversion Hp as [e _|key node h1' msg Hc Hn Hf|key node h1' s1 Hc Hn Hf Hd
                   |key node h1' s1 d1 h3 cur c' Hc Hn Hf Hd Hfr Hpo];
    subst.
  - split; [done|]. exists [], []. cbn. rewrite !app_nil_r.
    repeat split; auto.
  - split; [done|]. eexists [_], [_; _]. cbn. rewrite length_app. cbn.
    repeat split; auto. repeat constructor; lia.
  - split; [done|]. eexists [_], [_]. cbn. rewrite length_app. cbn.
    repeat split; auto. repeat constructor; lia.
  - split; [done|]. eexists [_], [_]. cbn. rewrite length_app. cbn.
    repeat split; auto; [|by destruct c]. repeat constructor; lia.
Qed.

Lemma log_wf_app L L1 news refs :
  log_objs L1 = log_objs L ++ news →
  execution_log L1 = execution_log L ++ refs →
  Forall (λ i, i < length (log_objs L1)) refs →
  log_wf L → log_wf L1.
Proof.
  unfold log_wf. intros Ho Hl Hr Hw. rewrite Hl. apply Forall_app. split; [|done].
  eapply Forall_impl; [exact Hw|]. intros i Hi. rewrite Ho, length_app. cbn in *. lia.
Qed.

Lemma omap_lookup_app {A} (objs news : list A) (refs : list nat) :
  Forall (λ i, i < length objs) refs →
  omap (λ i, (objs ++ news) !! i) refs = omap (λ i, objs !! i) refs.
Proof.
  induction 1 as [|i l Hi _ IH]; [done|]. cbn.
  by rewrite lookup_app_l, IH.
Qed.

Lemma omap_lookup_length {A} (objs : list A) (refs : list nat) :
  Forall (λ i, i < length objs) refs →
  length (omap (λ i, objs !! i) refs) = length refs.
Proof.
  induction 1 as [|i l Hi _ IH]; [done|]. cbn.
  destruct (lookup_lt_is_Some_2 _ _ Hi) as [e ->]. cbn. by rewrite IH.
Qed.

Lemma trace_of_app L L1 news refs :
  log_objs L1 = log_objs L ++ news →
  execution_log L1 = execution_log L ++ refs →
  log_wf L →
  trace_of L1 = trace_of L ++ omap (λ i, log_objs L1 !! i) refs.
Proof.
  unfold trace_of, log_wf. intros Ho Hl Hw. rewrite Hl, omap_app. f_equal.
  rewrite Ho. by apply omap_lookup_app.
Qed.

Lemma trace_of_length L : log_wf L → length (trace_of L) = length (execution_log L).
Proof. apply omap_lookup_length. Qed.

(** The loop never needs more fuel than the iterations the ceiling
    leaves, counts one iteration per pass, and appends at most one
    entry object per pass. *)
Lemma run_loop_accounting fuel g h L :
  max_iterations ≤ iteration L + fuel →
  let r := run_loop fuel g h L in
  res_outcome r ≠ OutOfFuel
  ∧ (iteration L ≤ max_iterations → iteration (res_locals r) ≤ max_iterations)
  ∧ length (log_objs (res_locals r)) + iteration L
    ≤ length (log_objs L) + iteration (res_locals r)
  ∧ (log_wf L → log_wf (res_locals r))
  ∧ (∀ s log, res_outcome r = Returned s log →
       s = state (res_locals r) ∧ log = execution_log (res_locals r)
       ∧ length log + length (log_objs L)
         = length (execution_log L) + length (log_objs (res_locals r))).
Proof.
  revert g h L.
  assert (∀ g h L,
    res_outcome {| res_graph := g; res_heap := h; res_locals := L;
                   res_outcome := Returned (state L) (execution_log L) |}
      ≠ OutOfFuel
    ∧ (iteration L ≤ max_iterations → iteration L ≤ max_iterations)
    ∧ length (log_objs L) + iteration L ≤ length (log_objs L) + iteration L
    ∧ (log_wf L → log_wf L)
    ∧ (∀ s log, Returned (state L) (execution_log L) = Returned s log →
         s = state L ∧ log = execution_log L
         ∧ length log + length (log_objs L)
           = length (execution_log L) + length (log_objs L))) as Hexit.
  { intros g h L. split; [done|]. split; [done|]. split; [lia|].
    split; [done|]. intros st lg [= <- <-]. repeat split; lia. }
  induction fuel as [|fuel IH]; intros g h L Hfuel; cbn zeta.
  - rewrite run_loop_exit by (right; lia). apply Hexit.
  - destruct (truthy h (current_node_name L) && (iteration L <? max_iterations))
      eqn:Hc.
    2:{ rewrite run_loop_exit; [apply Hexit|].
        apply andb_false_iff in Hc as [?|?%Nat.ltb_ge]; auto. }
    apply andb_true_iff in Hc as [Ht Hi%Nat.ltb_lt].
    rewrite run_loop_enter by done.
    pose proof (run_body_pass g h L) as Hp.
    destruct (run_body g h L) as [[[g1 h1] L1] c].
    pose proof (pass_log _ _ _ _ _ _ _ Hp)
      as (Hit & news & refs & Ho & Hn & Hl & Hr & Hc).
    assert (length (log_objs L1) = length (log_objs L) + length news) as Hlen
      by (by rewrite Ho, length_app).
    assert (length (execution_log L1)
            = length (execution_log L) + length refs) as Hlen'
      by (by rewrite Hl, length_app).
    destruct c as [| |o]; cbn.
    + destruct (IH g1 h1 L1) as (IH1 & IH2 & IH3 & IH4 & IH5); [lia|].
      split; [done|]. split; [intros; apply IH2; lia|].
      split; [lia|]. split; [eauto using log_wf_app|].
      intros st lg Hret. destruct (IH5 st lg Hret) as (? & ? & ?).
      repeat split; try done. lia.
    + split; [done|]. split; [lia|]. split; [lia|].
      split; [eauto using log_wf_app|].
      intros st lg [= <- <-]. repeat split; lia.
    + pose proof (pass_control _ _ _ _ _ _ _ Hp) as Ho'.
      split; [by intros ->|]. split; [lia|]. split; [lia|].
      split; [eauto using log_wf_app|].
      by intros st lg ->.
Qed.

End Accounting.

(** ** Earlier log entries are never rewritten *)

Section LogPrefix.
Implicit Types (g : WorkflowGraph) (L : locals) (h : gmap positive obj).

Lemma run_loop_log_prefix fuel g h L :
  let r := run_loop fuel g h L in
  log_objs L `prefix_of` log_objs (res_locals r)
  ∧ execution_log L `prefix_of` execution_log (res_locals r)
  ∧ (log_wf L → trace_of L `prefix_of` trace r).
Proof.
  revert g h L. induction fuel as [|fuel IH]; intros g h L; cbn zeta.
  - cbn. by case_match.
  - destruct (truthy h (current_node_name L) && (iteration L <? max_iterations))
      eqn:Hc.
    2:{ rewrite run_loop_exit; [done|].
        apply andb_false_iff in Hc as [?|?%Nat.ltb_ge]; auto. }
    apply andb_true_iff in Hc as [Ht Hi%Nat.ltb_lt].
    rewrite run_loop_enter by done.
    pose proof (run_body_pass g h L) as Hp.
    destruct (run_body g h L) as [[[g1 h1] L1] c].
    apply pass_log in Hp as (Hit & news & refs & Ho & Hn & Hl & Hr & Hc).
    assert (log_objs L `prefix_of` log_objs L1) as P1 by (by exists news).
    assert (execution_log L `prefix_of` execution_log L1) as P2
      by (by exists refs).
    assert (log_wf L → trace_of L `prefix_of` trace_of L1) as P3.
    { intros Hw. eexists. by eapply trace_of_app. }
    destruct c as [| |o]; [|done..].
    destruct (IH g1 h1 L1) as (I1 & I2 & I3).
    split; [by etrans|]. split; [by etrans|].
    intros Hw. etrans; [by apply P3|]. apply I3. eauto using log_wf_app.
Qed.

End LogPrefix.

(** ** The iteration ceiling *)

Section Ceiling.
Implicit Types (g : WorkflowGraph) (L : locals) (h : gmap positive obj).

Lemma run_init_wf entry (s : positive) : log_wf (run_init entry s).
Proof. constructor. Qed.

(** C3: whatever the graph and the initial state, [run] ends (the
    recursion bound of the model is never what stops it) after at most
    100 iterations, having made at most one execution attempt, and one
    log entry object, per iteration; a log it returns has at most 100
    entries.  And a loop test reached with the counter at 100 ends the
    run by the ordinary [return (state, execution_log)], whatever node
    was to come next. *)
Theorem run_iteration_ceiling g h (initial_state : positive) :
  let r := run g h initial_state in
  res_outcome r ≠ OutOfFuel
  ∧ iteration (res_locals r) ≤ 100
  ∧ length (log_objs (res_locals r)) ≤ iteration (res_locals r)
  ∧ (∀ s log, res_outcome r = Returned s log →
       s = state (res_locals r) ∧ log = execution_log (res_locals r)
       ∧ length (trace r) = length log ∧ length log ≤ 100)
  ∧ (∀ fuel g' h' L, iteration L = 100 →
       run_loop fuel g' h' L =
         {| res_graph := g'; res_heap := h'; res_locals := L;
            res_outcome := Returned (state L) (execution_log L) |}).
Proof.
  cbn zeta. split; [|split; [|split; [|split]]].
  5:{ intros fuel g' h' L Hi. apply run_loop_exit. right.
      unfold max_iterations. lia. }
  all: unfold run; destruct (entry_node g) as [entry|]; cbn; [|done || lia..].
  all: destruct (dict_at h initial_state) as [d|]; cbn; [|done || lia..].
  all: destruct (run_loop_accounting max_iterations g
                   (<[fresh (dom h) := ODict d]> h)
                   (run_init entry (fresh (dom h))))
         as (A1 & A2 & A3 & A4 & A5); [cbn; lia|].
  all: cbn in A2, A3, A5; unfold max_iterations in A2.
  - done.
  - apply A2. lia.
  - lia.
  - intros s log Hret. destruct (A5 s log Hret) as (-> & -> & Hlen).
    split; [done|]. split; [done|].
    unfold trace. rewrite trace_of_length by (apply A4, run_init_wf).
    split; [done|]. specialize (A2 ltac:(lia)). lia.
Qed.

(** The ceiling is reached, silently: a node with an edge to itself
    runs 100 times, and [run] returns as if the workflow had ended. *)
Example self_loop_stops_at_ceiling :
  let r := run self_loop x_is_1 1 in
  (∃ s log, res_outcome r = Returned s log)
  ∧ length (trace r) = 100
  ∧ Forall (λ e, log_status e = "completed") (trace r)
  ∧ current_node_name (res_locals r) = VStr "a".
Proof.
  cbn zeta. split; [eexists _, _; by vm_compute|].
  split; [by vm_compute|]. split; [|by vm_compute].
  apply Forall_forall. intros e He.
  apply (list_elem_of_fmap_2 log_status) in He. revert He.
  generalize (log_status e). intros st.
  assert (log_status <$> trace (run self_loop x_is_1 1)
          = replicate 100 "completed") as -> by (by vm_compute).
  intros Hin. apply elem_of_replicate in Hin. tauto.
Qed.

Lemma run_iteration_ceiling_witness :
  res_outcome (run self_loop x_is_1 1) ≠ OutOfFuel
  ∧ iteration (res_locals (run self_loop x_is_1 1)) ≤ 100
  ∧ res_outcome
      (run_loop 0 self_loop x_is_1 (with_iteration 100 (run_init "a" 2)))
    = Returned 2 [].
Proof.
  destruct (run_iteration_ceiling self_loop x_is_1 1) as (H1 & H2 & _ & _ & H5).
  split; [exact H1|]. split; [exact H2|].
  by rewrite (H5 0 self_loop x_is_1 (with_iteration 100 (run_init "a" 2))
                eq_refl).
Defined.

End Ceiling.

(** ** Failure of a node *)

Section Failure.
Implicit Types (g : WorkflowGraph) (L : locals) (h : gmap positive obj).

Lemma truthy_name h (key : string) : key ≠ "" → truthy h (VStr key) = true.
Proof. intros Hk. cbn. by rewrite (proj2 (String.eqb_neq _ _) Hk). Qed.

(** C4: when the loop is about to execute the node [key] and its
    transform raises, the run ends there with that exception: the heap
    is the one the transform left, only the status of [key] changed, to
    [FAILED]; the entry appended for the attempt now reads "failed" and
    carries the message, and the log refers to that same entry twice,
    so the trace ends with two failure entries. *)
Theorem failing_node_aborts_run fuel g h L (key : string) node h1 msg :
  iteration L < max_iterations →
  current_node_name L = VStr key → key ≠ "" →
  nodes g !! key = Some node →
  func node h (state L) = (h1, Raises msg) →
  let r := run_loop (S fuel) g h L in
  let n := length (log_objs L) in
  let failed := failed_entry key (S (iteration L)) msg in
  res_outcome r = Raised (Exception msg)
  ∧ res_heap r = h1
  ∧ nodes (res_graph r) = <[key := set_status FAILED node]> (nodes g)
  ∧ status <$> nodes (res_graph r) !! key = Some FAILED
  ∧ log_objs (res_locals r) = log_objs L ++ [failed]
  ∧ execution_log (res_locals r) = execution_log L ++ [n; n]
  ∧ (log_wf L → trace r = trace_of L ++ [failed; failed]).
Proof.
  intros Hi Hc Hk Hn Hf. cbn zeta.
  rewrite run_loop_enter by (rewrite ?Hc; auto using truthy_name).
  rewrite (run_body_raises g h L key node h1 msg) by done. cbn.
  repeat split; try done.
  - by rewrite lookup_insert_eq.
  - intros Hw.
    change (trace_of (after_failure L key msg)
            = trace_of L ++ [failed_entry key (S (iteration L)) msg;
                             failed_entry key (S (iteration L)) msg]).
    erewrite (trace_of_app L (after_failure L key msg)); [|done..].
    f_equal. cbn. rewrite lookup_app_r by lia. by rewrite Nat.sub_diag.
Qed.

Lemma failing_node_aborts_run_witness :
  let r := run scenario_b x_is_1 1 in
  res_outcome r = Raised (Exception "boom")
  ∧ trace r = [failed_entry "a" 1 "boom"; failed_entry "a" 1 "boom"]
  ∧ execution_log (res_locals r) = [0; 0]
  ∧ status <$> nodes (res_graph r) = {[ "a" := FAILED; "b" := PENDING ]}.
Proof.
  cbn zeta.
  assert (run scenario_b x_is_1 1
          = run_loop 100 scenario_b (<[2%positive := ODict {[ "x" := VInt 1 ]}]> x_is_1)
              (run_init "a" 2)) as -> by reflexivity.
  destruct (failing_node_aborts_run 99 scenario_b
              (<[2%positive := ODict {[ "x" := VInt 1 ]}]> x_is_1)
              (run_init "a" 2) "a"
              {| name := "a"; func := always_raises "boom"; status := PENDING |}
              (<[2%positive := ODict {[ "x" := VInt 1 ]}]> x_is_1) "boom")
    as (H1 & H2 & H3 & H4 & H5 & H6 & H7);
    [unfold max_iterations; cbn; lia|reflexivity|discriminate
    |reflexivity|reflexivity|].
  split; [exact H1|]. split; [exact (H7 (run_init_wf _ _))|].
  split; [exact H6|]. rewrite H3. by vm_compute.
Defined.

End Failure.

(** ** The loop override *)

Section Override.
Implicit Types (g : WorkflowGraph) (L : locals) (h : gmap positive obj)
  (d : gmap string value).

(** Choosing the next node leaves the state a dictionary, and changes
    at most its [route_to] key. *)
Lemma route_state g h (s : positive) key h2 r d :
  route g h s key = Some (h2, r) → dict_at h s = Some d →
  ∃ d2, dict_at h2 s = Some d2
        ∧ ∀ k, k ≠ "route_to" → d2 !! k = d !! k.
Proof.
  unfold route, _evaluate_conditional. intros Hr Hd.
  destruct (get_next_node g key) as [n|]; [|simplify_eq; eauto].
  destruct (negb (String.eqb n "") && startswith n "if_");
    [|simplify_eq; eauto].
  rewrite Hd in Hr. cbn in Hr.
  destruct (d !! "route_to"); simplify_eq; [|eauto].
  eexists. split; [apply dict_at_insert_eq|].
  intros k Hk. by rewrite lookup_delete_ne.
Qed.

(** The override, for any flag value Python takes for true. *)
Lemma run_body_loop_override g h L (key : string) node h1 s1 d1 h2 next d2 :
  current_node_name L = VStr key → nodes g !! key = Some node →
  func node h (state L) = (h1, Returns s1) → dict_at h1 s1 = Some d1 →
  route g h1 s1 key = Some (h2, Ok next) →
  dict_at h2 s1 = Some d2 →
  truthy h2 (get d2 "loop_continue" (VBool false)) = true →
  run_body g h L =
    (set_nodes (<[key := set_status COMPLETED node]> (nodes g)) g,
     <[s1 := ODict (<["loop_continue" := VBool false]> d2)]> h2,
     with_current (get d2 "loop_node" (of_optional (entry_node g)))
       (after_node L key s1 d1),
     Continue).
Proof.
  intros Hc Hn Hf Hd Hr Hd2 Ht.
  rewrite (run_body_returns g h L key node h1 s1 d1) by done. cbn zeta.
  rewrite Hr. unfold loop_override. cbn. rewrite Hd2. cbn. by rewrite Ht.
Qed.

(** C8: when the state a node returned holds [loop_continue = True],
    the pass ends by going round the loop again with the next node set
    to the state's [loop_node] (the entry node when there is none),
    whatever node [next] the edge map or the resolver had produced, and
    with the flag set to [False] in the state, every other key as the
    routing left it. *)
Theorem loop_flag_overrides_next_node
    g h L (key : string) node h1 (s1 : positive) d1 h2 next :
  current_node_name L = VStr key → nodes g !! key = Some node →
  func node h (state L) = (h1, Returns s1) → dict_at h1 s1 = Some d1 →
  route g h1 s1 key = Some (h2, Ok next) →
  d1 !! "loop_continue" = Some (VBool true) →
  ∃ g1 h3 L3 d3,
    run_body g h L = (g1, h3, L3, Continue)
    ∧ current_node_name L3 = get d1 "loop_node" (of_optional (entry_node g))
    ∧ state L3 = s1
    ∧ dict_at h3 s1 = Some d3
    ∧ d3 !! "loop_continue" = Some (VBool false)
    ∧ truthy h3 (get d3 "loop_continue" (VBool false)) = false
    ∧ (∀ k, k ≠ "loop_continue" → k ≠ "route_to" → d3 !! k = d1 !! k)
    ∧ (∀ l, l ≠ s1 → h3 !! l = h2 !! l).
Proof.
  intros Hc Hn Hf Hd Hr Hflag.
  destruct (route_state g h1 s1 key h2 (Ok next) d1 Hr Hd) as (d2 & Hd2 & Hk).
  assert (get d2 "loop_continue" (VBool false) = VBool true) as Hget
    by (unfold get; by rewrite Hk, Hflag).
  eexists _, _, _, _. split.
  { apply (run_body_loop_override g h L key node h1 s1 d1 h2 next d2);
      try done. by rewrite Hget. }
  split; [cbn; unfold get; by rewrite Hk|].
  split; [done|]. split; [apply dict_at_insert_eq|].
  split; [apply lookup_insert_eq|].
  split; [unfold get; by rewrite lookup_insert_eq|].
  split; [intros k K1 K2; by rewrite lookup_insert_ne, Hk|].
  intros l Hl. by rewrite lookup_insert_ne.
Qed.

Lemma loop_flag_overrides_next_node_witness :
  let h : heap := {[ 2%positive := ODict {[ "route_to" := VStr "c" ]} ]} in
  ∃ g1 h3 L3 d3,
    run_body scenario_d_looping h (run_init "a" 2) = (g1, h3, L3, Continue)
    ∧ current_node_name L3 = VStr "a"
    ∧ dict_at h3 2 = Some d3
    ∧ d3 !! "loop_continue" = Some (VBool false).
Proof.
  cbn zeta.
  edestruct (loop_flag_overrides_next_node scenario_d_looping
               {[ 2%positive := ODict {[ "route_to" := VStr "c" ]} ]}
               (run_init "a" 2) "a")
    as (g1 & h3 & L3 & d3 & Hb & Hc & Hs & Hd & Hf & _);
    [reflexivity|reflexivity|reflexivity|reflexivity|reflexivity|reflexivity|].
  exists g1, h3, L3, d3. split; [exact Hb|]. split; [exact Hc|].
  split; [exact Hd|exact Hf].
Defined.

End Override.

(** ** Names nobody checks *)

Section Unchecked.
Implicit Types (g : WorkflowGraph) (L : locals) (h : gmap positive obj)
  (d : gmap string value).

(** C10, as stated, fails: not every name absent from the node set
    makes [run] raise.  The empty string is absent like any other
    name, but the loop test takes it for "no node": as entry node, and
    as [loop_node] of an override, it makes [run] return.  And a
    [loop_node] naming no node that the override supplies in the
    hundredth pass is never looked up: the ceiling ends the run,
    which returns with the missing name as its next node. *)
Lemma absent_names_without_KeyError :
  let r1 := run (entry_only "") x_is_1 1 in
  let r2 := run loops_to_empty_name x_is_1 1 in
  let r3 := run ghost_at_ceiling n_is_0 1 in
  (entry_node (entry_only "") = Some ""
   ∧ nodes (entry_only "") !! "" = None
   ∧ res_outcome r1 = Returned 2 [] ∧ iteration (res_locals r1) = 0)
  ∧ (nodes loops_to_empty_name !! "" = None
     ∧ res_outcome r2 = Returned 2 [0] ∧ iteration (res_locals r2) = 1
     ∧ current_node_name (res_locals r2) = VStr ""
     ∧ log_status <$> trace r2 = ["completed"])
  ∧ (nodes ghost_at_ceiling !! "ghost" = None
     ∧ (∃ log, res_outcome r3 = Returned 2 log)
     ∧ iteration (res_locals r3) = 100
     ∧ current_node_name (res_locals r3) = VStr "ghost"
     ∧ log_status <$> trace r3 = replicate 100 "completed").
Proof.
  cbn zeta. split; [|split].
  - split; [reflexivity|]. split; [reflexivity|].
    split; by vm_compute.
  - split; [by vm_compute|]. split; [by vm_compute|].
    split; [by vm_compute|]. split; by vm_compute.
  - split; [by vm_compute|]. split; [eexists; by vm_compute|].
    split; [by vm_compute|]. split; by vm_compute.
Qed.

(** C10, amended: a non-empty name [m] that is not in the node set
    makes [run] raise [KeyError(m)] where it next subscripts
    [self.nodes]: at once, before anything is logged, when [m] is the
    entry node; and, when a node's state asks to loop to [m] and the
    ceiling leaves room for another pass, at the start of that
    pass. *)
Theorem unchecked_node_names_raise_KeyError
    fuel g h (initial_state : positive) d0
    L (key : string) node h1 (s1 : positive) d1 h2 next (m : string) :
  m ≠ "" → nodes g !! m = None →
  (entry_node g = Some m → dict_at h initial_state = Some d0 →
   let r := run g h initial_state in
   res_outcome r = Raised (KeyError (VStr m))
   ∧ trace r = [] ∧ log_objs (res_locals r) = [])
  ∧ (S (iteration L) < max_iterations →
     current_node_name L = VStr key → key ≠ "" →
     nodes g !! key = Some node →
     func node h (state L) = (h1, Returns s1) → dict_at h1 s1 = Some d1 →
     route g h1 s1 key = Some (h2, Ok next) →
     d1 !! "loop_continue" = Some (VBool true) →
     d1 !! "loop_node" = Some (VStr m) →
     let r := run_loop (S (S fuel)) g h L in
     res_outcome r = Raised (KeyError (VStr m))
     ∧ iteration (res_locals r) = S (S (iteration L))
     ∧ log_objs (res_locals r)
       = log_objs L ++ [completed_entry key (S (iteration L)) d1]).
Proof.
  intros Hm Hnone. split.
  - intros He Hd. unfold run. rewrite He, Hd. cbn zeta.
    change (run_loop max_iterations) with (run_loop (S 99)).
    rewrite run_loop_enter;
      [|by apply truthy_name|cbn; unfold max_iterations; lia].
    by rewrite (run_body_missing _ _ _ m).
  - intros Hi Hc Hk Hn Hf Hd Hr Hflag Hnode. cbn zeta.
    destruct (route_state g h1 s1 key h2 (Ok next) d1 Hr Hd) as (d2 & Hd2 & Hd2k).
    assert (get d2 "loop_continue" (VBool false) = VBool true) as Hget
      by (unfold get; by rewrite Hd2k, Hflag).
    assert (get d2 "loop_node" (of_optional (entry_node g)) = VStr m) as Hghost
      by (unfold get; by rewrite Hd2k, Hnode).
    rewrite run_loop_enter by (rewrite ?Hc; auto using truthy_name with lia).
    rewrite (run_body_loop_override g h L key node h1 s1 d1 h2 next d2)
      by (by rewrite ?Hget).
    rewrite Hghost.
    rewrite run_loop_enter; [|by apply truthy_name|by cbn].
    rewrite (run_body_missing _ _ _ m); [done|done|]. cbn.
    rewrite lookup_insert_ne; [done|]. intros ->. congruence.
Qed.

Lemma unchecked_node_names_raise_KeyError_witness :
  res_outcome (run (entry_only "start") x_is_1 1)
    = Raised (KeyError (VStr "start"))
  ∧ res_outcome (run loops_to_ghost x_is_1 1)
    = Raised (KeyError (VStr "ghost")).
Proof.
  split.
  - destruct (unchecked_node_names_raise_KeyError 0 (entry_only "start")
                x_is_1 1 {[ "x" := VInt 1 ]}
                (run_init "start" 2) "a"
                {| name := "a"; func := same_state; status := PENDING |}
                x_is_1 1 ∅ x_is_1 VNone "start")
      as [Ha _]; [discriminate|reflexivity|].
    destruct Ha as [Ha _]; [reflexivity|reflexivity|]. exact Ha.
  - assert (run loops_to_ghost x_is_1 1
            = run_loop 100 loops_to_ghost
                (<[2%positive := ODict {[ "x" := VInt 1 ]}]> x_is_1)
                (run_init "a" 2)) as -> by reflexivity.
    pose (kvs := ({[ "loop_continue" := VBool true;
                     "loop_node" := VStr "ghost" ]} : gmap string value)).
    pose (h0 := <[2%positive := ODict {[ "x" := VInt 1 ]}]> x_is_1).
    pose (h1 := <[2%positive := ODict (kvs ∪ {[ "x" := VInt 1 ]})]> h0).
    destruct (unchecked_node_names_raise_KeyError 98 loops_to_ghost h0
                1 ∅ (run_init "a" 2) "a"
                {| name := "a"; func := update_state kvs; status := PENDING |}
                h1 2 (kvs ∪ {[ "x" := VInt 1 ]}) h1 VNone "ghost")
      as [_ Hb]; [discriminate|reflexivity|].
    destruct Hb as [Hb _];
      [unfold max_iterations; cbn; lia|reflexivity|discriminate|reflexivity
      |reflexivity|reflexivity|reflexivity|reflexivity|reflexivity|].
    exact Hb.
Defined.

End Unchecked.


(** ** Only nodes of the graph are ever logged *)

Section Logged.
Implicit Types (g : WorkflowGraph) (L : locals) (h : gmap positive obj)
  (d : gmap string value).






End Logged.

(** ** Conditional routing through a marker *)

Section Marker.
Implicit Types (g : WorkflowGraph) (L : locals) (h : gmap positive obj)
  (d : gmap string value).





End Marker.

(** ** Linear chains *)

Section Chain.
Implicit Types (g : WorkflowGraph) (L : locals) (h : gmap positive obj)
  (d : gmap string value) (names : list string).




Lemma truthy_insert_fresh h (l : positive) o v :
  h !! l = None → truthy h v = false → truthy (<[l := o]> h) v = false.
Proof.
  intros Hl. destruct v as [| | | |l']; try done. cbn.
  destruct (decide (l = l')) as [<-|]; [by rewrite Hl|].
  by rewrite lookup_insert_ne.
Qed.


Lemma trace_of_after_node L (key : string) (s1 : positive) d1 cur :
  log_wf L →
  trace_of (with_current cur (after_node L key s1 d1))
  = trace_of L ++ [completed_entry key (S (iteration L)) d1].
Proof.
  intros Hw.
  rewrite (trace_of_app L _ [completed_entry key (S (iteration L)) d1]
             [length (log_objs L)]) by done.
  f_equal. cbn. rewrite lookup_app_r by lia. by rewrite Nat.sub_diag.
Qed.

Lemma log_wf_after_node L (key : string) (s1 : positive) d1 cur :
  log_wf L → log_wf (with_current cur (after_node L key s1 d1)).
Proof.
  intros Hw.
  apply (log_wf_app L _ [completed_entry key (S (iteration L)) d1]
           [length (log_objs L)]); try done.
  repeat constructor. cbn. rewrite length_app. cbn. lia.
Qed.


End Chain.

Section ChainRun.
Implicit Types (g : WorkflowGraph) (L : locals) (h : gmap positive obj)
  (d : gmap string value) (names : list string).




(** The empty string is no name a run can follow: it is what the loop
    test takes for "no next node". *)
Example empty_name_ends_run :
  let g := chain_graph ["a"; ""; "b"] in
  linked g ["a"; ""; "b"] ∧ entry_node g = Some "a"
  ∧ log_node <$> trace (run g x_is_1 1) = ["a"].
Proof. cbn zeta. split; [by vm_compute|]. split; by vm_compute. Qed.



End ChainRun.

(** ** Copies are shallow *)

Section Shallow.
Implicit Types (g : WorkflowGraph) (L : locals) (h : gmap positive obj)
  (d : gmap string value).

Lemma funcs_wiring (Q : (gmap positive obj → positive
                          → gmap positive obj * returned) → Prop) g g' :
  same_wiring g g' →
  (∀ key n, nodes g !! key = Some n → Q (func n)) →
  ∀ key n, nodes g' !! key = Some n → Q (func n).
Proof.
  intros Hw Hg key n' Hn'.
  pose proof (same_wiring_lookup g g' key Hw) as E. rewrite Hn' in E.
  destruct (nodes g !! key) as [n|] eqn:Hn; [|done].
  injection E as _ E. rewrite <-E. by eapply Hg.
Qed.

Lemma view_flat d depth h h' :
  flat d → view_dict depth h' d = view_dict depth h d.
Proof.
  intros Hflat. unfold view_dict. apply list_fmap_ext.
  intros i [k v] Hkv. cbn. f_equal.
  apply list_elem_of_lookup_2, elem_of_map_to_list in Hkv.
  specialize (Hflat k v Hkv). cbn in Hflat.
  destruct v as [| | | |l]; [by destruct depth..|]. by destruct (Hflat l).
Qed.

(** C5, as stated, fails: the caller's state holds a list, the node
    appends to it through the working copy, and after [run] has
    returned the caller's state reads [{"items": [1, 2]}]. *)
Lemma nested_list_of_caller_mutated :
  let r := run appender items_is_1 1 in
  (∃ s log, res_outcome r = Returned s log)
  ∧ view 2 items_is_1 (VRef 1) = DDict [("items", DList [DInt 1])]
  ∧ view 2 (res_heap r) (VRef 1) = DDict [("items", DList [DInt 1; DInt 2])]
  ∧ view 2 (res_heap r) (VRef 1) ≠ view 2 items_is_1 (VRef 1).
Proof.
  cbn zeta. split; [eexists _, _; by vm_compute|].
  split; [by vm_compute|]. split; [by vm_compute|].
  vm_compute. discriminate.
Qed.

Lemma run_loop_spares fuel g h L (l0 : positive) :
  (∀ key n, nodes g !! key = Some n → spares l0 (func n)) →
  state L ≠ l0 → is_Some (dict_at h l0) →
  let r := run_loop fuel g h L in
  res_heap r !! l0 = h !! l0
  ∧ ∀ s log, res_outcome r = Returned s log → s ≠ l0.
Proof.
  revert g h L. induction fuel as [|fuel IH]; intros g h L Hg Hs Hd0; cbn zeta.
  - cbn. case_match; cbn; (split; [done|]); [done|]. by intros s log [= <- _].
  - destruct (truthy h (current_node_name L) && (iteration L <? max_iterations))
      eqn:Hc.
    2:{ rewrite run_loop_exit; cbn.
        - split; [done|]. by intros s log [= <- _].
        - apply andb_false_iff in Hc as [?|?%Nat.ltb_ge]; auto. }
    apply andb_true_iff in Hc as [Ht Hi%Nat.ltb_lt].
    rewrite run_loop_enter by done.
    pose proof (run_body_pass g h L) as Hp.
    pose proof (run_body_keeps_wiring g h L) as Hw.
    destruct (run_body g h L) as [[[g1 h1] L1] c]. cbn in Hw.
    pose proof (pass_control _ _ _ _ _ _ _ Hp) as Hpo'.
    assert (h1 !! l0 = h !! l0 ∧ state L1 ≠ l0) as [Hh1 Hs1].
    { inversion Hp as [e Hno|key node h1' msg Hc Hn Hf|key node h1' s1 Hc
                       Hn Hf Hd|key node h1' s1 d1 h3 cur c' Hc
                       Hn Hf Hd Hfr Hpo]; subst; cbn.
      - done.
      - destruct (Hg key node Hn h (state L) Hs Hd0) as [H1 _].
        by rewrite Hf in H1.
      - destruct (Hg key node Hn h (state L) Hs Hd0) as [H1 H2].
        rewrite Hf in H1, H2. cbn in *. split; [done|congruence].
      - destruct (Hg key node Hn h (state L) Hs Hd0) as [H1 H2].
        rewrite Hf in H1, H2. cbn in *.
        assert (s1 ≠ l0) by congruence. split; [|done].
        by rewrite Hfr. }
    destruct c as [| |o]; cbn.
    + destruct (IH g1 h1 L1) as [I1 I2]; [|done| |].
      * by apply (funcs_wiring (spares l0) g g1).
      * unfold dict_at in *. by rewrite Hh1.
      * split; [congruence|done].
    + split; [done|]. by intros s log [= <- _].
    + split; [done|]. intros s log ->. done.
Qed.

(** C5, amended: [run] itself never writes to the caller's state
    object, only to the shallow copy it makes and to the states its
    nodes return.  So when no transform writes to that object or
    returns it, the object holds after [run] the bindings it held
    before, the state [run] returns is another object, and a caller
    whose state holds no mutable value reads it unchanged.  Mutable
    values the state refers to are shared with the working copy, and
    are not covered. *)
Theorem run_never_writes_caller_object g h (initial_state : positive) :
  (∀ key n, nodes g !! key = Some n → spares initial_state (func n)) →
  let r := run g h initial_state in
  res_heap r !! initial_state = h !! initial_state
  ∧ (∀ s log, res_outcome r = Returned s log → s ≠ initial_state)
  ∧ (∀ d depth, dict_at h initial_state = Some d → flat d →
       view depth (res_heap r) (VRef initial_state)
       = view depth h (VRef initial_state)).
Proof.
  intros Hg. cbn zeta.
  assert (res_heap (run g h initial_state) !! initial_state
          = h !! initial_state
          ∧ (∀ s log, res_outcome (run g h initial_state) = Returned s log →
               s ≠ initial_state))
    as [Hheap Hstate].
  { unfold run. destruct (entry_node g) as [entry|]; [|done].
    destruct (dict_at h initial_state) as [d|] eqn:Hd; [|done].
    assert (fresh (dom h) ≠ initial_state) as Hfresh.
    { intros E. apply dict_at_Some in Hd.
      apply (is_fresh (dom h)). rewrite E. apply elem_of_dom. eauto. }
    destruct (run_loop_spares max_iterations g
                (<[fresh (dom h) := ODict d]> h)
                (run_init entry (fresh (dom h))) initial_state Hg Hfresh)
      as [H1 H2].
    { rewrite dict_at_insert_ne by done. by rewrite Hd. }
    split; [|done]. rewrite H1. by rewrite lookup_insert_ne. }
  split; [done|]. split; [done|].
  intros d depth Hd Hflat. destruct depth as [|depth]; [done|].
  cbn. rewrite Hheap. apply dict_at_Some in Hd. rewrite Hd. f_equal.
  apply (view_flat d depth h _ Hflat).
Qed.

Lemma run_never_writes_caller_object_witness :
  let r := run appender items_is_1 1 in
  res_heap r !! 1%positive = Some (ODict {[ "items" := VRef 2 ]})
  ∧ res_outcome r = Returned 3 [0].
Proof.
  cbn zeta.
  destruct (run_never_writes_caller_object appender items_is_1 1) as (H1 & _).
  - intros key n Hn h s Hs [d0 Hd0%dict_at_Some].
    assert (func n = append_item (VInt 2)) as ->.
    { unfold appender, add_node in Hn. cbn in Hn.
      apply lookup_insert_Some in Hn as [[_ <-]|[_ Hn]]; [done|].
      by rewrite lookup_empty in Hn. }
    unfold append_item.
    destruct (dict_at h s) as [d|] eqn:Hd; [|done].
    destruct (d !! "items") as [[| | | |l]|]; try done.
    destruct (h !! l) as [[|xs]|] eqn:Hl; try done. cbn.
    split; [|congruence].
    rewrite lookup_insert_ne; [done|]. intros ->. congruence.
  - split; [by rewrite H1|by vm_compute].
Defined.

(** C6, as stated, fails: the snapshot the entry of [a] holds is a
    shallow copy.  Right after the first iteration it reads
    [{"items": [1]}]; [b] then appends to the list, and in the trace
    [run] returns the same entry reads [{"items": [1, 2]}]. *)
Lemma earlier_snapshot_altered :
  let g := snapshot_then_append in
  let h0 := <[3%positive := ODict {[ "items" := VRef 2 ]}]> items_is_1 in
  let after_a := run_body g h0 (run_init "a" 3) in
  let r := run g items_is_1 1 in
  ∃ e snap,
    trace_of after_a.1.2 = [e] ∧ trace r !! 0 = Some e
    ∧ log_status e = "completed" ∧ log_state_snapshot e = Some snap
    ∧ view_dict 1 after_a.1.1.2 snap = [("items", DList [DInt 1])]
    ∧ view_dict 1 (res_heap r) snap = [("items", DList [DInt 1; DInt 2])].
Proof.
  cbn zeta. eexists _, _.
  split; [by vm_compute|]. split; [by vm_compute|]. split; [done|].
  split; [done|]. split; by vm_compute.
Qed.

(** C6, amended: when a node returns a state, the pass leaves the entry
    it appended with status "completed" and, as [state_snapshot], a
    shallow copy of that state: a dictionary with the bindings the
    state had when the node returned.  No later pass rewrites the entry
    or rebinds a key of the snapshot, so a snapshot of immutable values
    reads the same ever after; mutable values are shared with the
    state, and a snapshot reads their later contents. *)
Theorem snapshot_is_shallow_copy
    fuel g h L (key : string) node h1 (s1 : positive) d1 :
  current_node_name L = VStr key → nodes g !! key = Some node →
  func node h (state L) = (h1, Returns s1) → dict_at h1 s1 = Some d1 →
  let entry := completed_entry key (S (iteration L)) d1 in
  ∃ g1 h3 L1 c,
    run_body g h L = (g1, h3, L1, c)
    ∧ log_objs L1 = log_objs L ++ [entry]
    ∧ execution_log L1 = execution_log L ++ [length (log_objs L)]
    ∧ log_state_snapshot entry = Some d1
    ∧ log_objs L1 `prefix_of` log_objs (res_locals (run_loop fuel g1 h3 L1))
    ∧ (log_wf L →
       trace_of L1 = trace_of L ++ [entry]
       ∧ trace_of L1 `prefix_of` trace (run_loop fuel g1 h3 L1))
    ∧ (flat d1 → ∀ depth h', view_dict depth h' d1 = view_dict depth h1 d1).
Proof.
  intros Hc Hn Hf Hd. cbn zeta.
  pose proof (run_body_pass g h L) as Hp.
  destruct (run_body g h L) as [[[g1 h3] L1] c].
  assert (∃ cur, L1 = with_current cur (after_node L key s1 d1)) as [cur ->].
  { inversion Hp as [e Hno|key' node' h1' msg Hc' Hn' Hf'|key' node' h1' s1' Hc'
                     Hn' Hf' Hd'|key' node' h1' s1' d1' h3' cur c' Hc'
                     Hn' Hf' Hd' Hfr Hpo]; subst.
    - rewrite (Hno key Hc) in Hn. done.
    - assert (key' = key) as -> by congruence.
      assert (node' = node) as -> by congruence. congruence.
    - assert (key' = key) as -> by congruence.
      assert (node' = node) as -> by congruence.
      rewrite Hf in Hf'. injection Hf' as <- <-. congruence.
    - assert (key' = key) as -> by congruence.
      assert (node' = node) as -> by congruence.
      rewrite Hf in Hf'. injection Hf' as <- <-.
      assert (d1' = d1) as -> by congruence. by exists cur. }
  exists g1, h3, (with_current cur (after_node L key s1 d1)), c.
  split; [done|]. split; [done|]. split; [done|]. split; [done|].
  destruct (run_loop_log_prefix fuel g1 h3
              (with_current cur (after_node L key s1 d1))) as (P1 & _ & P3).
  split; [exact P1|]. split.
  - intros Hw. split; [by apply trace_of_after_node|].
    by apply P3, log_wf_after_node.
  - intros Hflat depth h'. by apply view_flat.
Qed.

Lemma snapshot_is_shallow_copy_witness :
  let h0 := <[3%positive := ODict {[ "items" := VRef 2 ]}]> items_is_1 in
  ∃ g1 h3 L1 c,
    run_body snapshot_then_append h0 (run_init "a" 3) = (g1, h3, L1, c)
    ∧ trace_of L1 = [completed_entry "a" 1 {[ "items" := VRef 2 ]}].
Proof.
  cbn zeta.
  destruct (snapshot_is_shallow_copy 99 snapshot_then_append
              (<[3%positive := ODict {[ "items" := VRef 2 ]}]> items_is_1)
              (run_init "a" 3) "a"
              {| name := "a"; func := same_state; status := PENDING |}
              (<[3%positive := ODict {[ "items" := VRef 2 ]}]> items_is_1)
              3 {[ "items" := VRef 2 ]})
    as (g1 & h3 & L1 & c & Hb & _ & _ & _ & _ & Ht & _);
    [reflexivity|reflexivity|reflexivity|reflexivity|].
  exists g1, h3, L1, c. split; [exact Hb|].
  destruct (Ht (run_init_wf "a" 3)) as [-> _]. reflexivity.
Defined.

End Shallow.

(** * Further properties of the engine *)

(** ** Construction *)

Section Construction.
Implicit Types (g : WorkflowGraph) (ops : list op).

(** X1: [add_edge] succeeds exactly when both ends are nodes; it then sets
    the successor of [from_node], replacing any earlier one, and
    changes nothing else.  When it raises, the message names
    [from_node] if that is missing, and [to_node] otherwise. *)
Theorem add_edge_spec g (from_node to_node : string) :
  match add_edge g from_node to_node with
  | Ok g' =>
      is_Some (nodes g !! from_node) ∧ is_Some (nodes g !! to_node)
      ∧ get_next_node g' from_node = Some to_node
      ∧ (∀ a, a ≠ from_node → get_next_node g' a = get_next_node g a)
      ∧ nodes g' = nodes g ∧ entry_node g' = entry_node g
      ∧ graph_id g' = graph_id g
  | Raise e =>
      (nodes g !! from_node = None
       ∧ e = ValueError ("Node '" +:+ from_node +:+ "' does not exist"))
      ∨ (is_Some (nodes g !! from_node) ∧ nodes g !! to_node = None
         ∧ e = ValueError ("Node '" +:+ to_node +:+ "' does not exist"))
  end.
Proof.
  unfold add_edge.
  destruct (decide (from_node ∈ dom (nodes g))) as [Hf|Hf].
  - rewrite (bool_decide_eq_true_2 _ Hf). cbn.
    destruct (decide (to_node ∈ dom (nodes g))) as [Ht|Ht].
    + rewrite (bool_decide_eq_true_2 _ Ht). cbn.
      apply elem_of_dom in Hf, Ht. unfold get_next_node. cbn.
      split; [done|]. split; [done|]. split; [apply lookup_insert_eq|].
      split; [|done]. intros a Ha. by rewrite lookup_insert_ne.
    + rewrite (bool_decide_eq_false_2 _ Ht). cbn. right.
      apply elem_of_dom in Hf. by apply not_elem_of_dom in Ht.
  - rewrite (bool_decide_eq_false_2 _ Hf). cbn. left.
    by apply not_elem_of_dom in Hf.
Qed.

Lemma well_formed_init (graph_id : string) : well_formed (init graph_id).
Proof. repeat split; cbn; intros; by simplify_map_eq. Qed.

Lemma well_formed_add_node g (n : string)
    (f : gmap positive obj → positive → gmap positive obj * returned) :
  well_formed g → well_formed (add_node g n f).
Proof.
  intros (He & Hentry & Hnone & Hname). repeat split; cbn.
  - destruct (He a b H) as [[x Hx] _].
    destruct (decide (n = a)) as [->|]; [rewrite lookup_insert_eq|
      rewrite lookup_insert_ne by done]; eauto.
  - destruct (He a b H) as [_ [x Hx]].
    destruct (decide (n = b)) as [->|]; [rewrite lookup_insert_eq|
      rewrite lookup_insert_ne by done]; eauto.
  - intros e. destruct (entry_node g) as [e0|] eqn:E; intros [= <-].
    + destruct (Hentry e0 eq_refl) as [x Hx].
      destruct (decide (n = e0)) as [->|]; [rewrite lookup_insert_eq|
        rewrite lookup_insert_ne by done]; eauto.
    + rewrite lookup_insert_eq. eauto.
  - by destruct (entry_node g).
  - intros k m. destruct (decide (n = k)) as [->|].
    + rewrite lookup_insert_eq. by intros [= <-].
    + rewrite lookup_insert_ne by done. apply Hname.
Qed.

Lemma add_edge_Ok g (a b : string) :
  is_Some (nodes g !! a) → is_Some (nodes g !! b) →
  add_edge g a b
  = Ok {| graph_id := graph_id g; nodes := nodes g;
          edges := <[a := b]> (edges g); entry_node := entry_node g |}.
Proof.
  intros Ha%elem_of_dom Hb%elem_of_dom. unfold add_edge.
  by rewrite !bool_decide_eq_true_2.
Qed.

Lemma add_edge_Ok_inv g g' (a b : string) :
  add_edge g a b = Ok g' →
  is_Some (nodes g !! a) ∧ is_Some (nodes g !! b)
  ∧ g' = {| graph_id := graph_id g; nodes := nodes g;
            edges := <[a := b]> (edges g); entry_node := entry_node g |}.
Proof.
  unfold add_edge. repeat case_bool_decide; cbn; try done.
  intros [= <-]. by rewrite <-!elem_of_dom.
Qed.

Lemma well_formed_add_edge g g' (a b : string) :
  well_formed g → add_edge g a b = Ok g' → well_formed g'.
Proof.
  intros (He & Hrest) (Ha & Hb & ->)%add_edge_Ok_inv.
  split; [|done]. intros a0 b0 H. cbn in H |- *.
  destruct (decide (a0 = a)) as [->|Hne].
  - rewrite lookup_insert_eq in H. by injection H as <-.
  - rewrite lookup_insert_ne in H by done. apply (He a0 b0 H).
Qed.

Lemma build_invariant ops g0 g :
  well_formed g0 → build g0 ops = Ok g →
  well_formed g
  ∧ entry_node g = match entry_node g0 with
                   | Some e => Some e
                   | None => first_added ops
                   end.
Proof.
  revert g0 g.
  induction ops as [|[n f|a b] ops IH]; intros g0 g Hwf Hb; cbn in Hb.
  - injection Hb as <-. split; [done|]. by destruct (entry_node g0).
  - destruct (IH _ _ (well_formed_add_node g0 n f Hwf) Hb) as [H1 H2].
    split; [done|]. rewrite H2. cbn. by destruct (entry_node g0).
  - destruct (add_edge g0 a b) as [g1|e] eqn:Hadd; [|done].
    destruct (IH _ _ (well_formed_add_edge g0 g1 a b Hwf Hadd) Hb)
      as [H1 H2].
    split; [done|]. rewrite H2.
    by apply add_edge_Ok_inv in Hadd as (_ & _ & ->).
Qed.

(** X2: whatever sequence of [add_node] and [add_edge] calls builds a
    graph, starting from a new one: every edge joins two nodes, the
    entry node is a node, and it is the first node that was added. *)
Theorem build_well_formed (graph_id : string) ops g :
  build (init graph_id) ops = Ok g →
  well_formed g ∧ entry_node g = first_added ops.
Proof.
  intros Hb.
  by destruct (build_invariant ops (init graph_id) g (well_formed_init _) Hb).
Qed.

Lemma build_well_formed_witness :
  well_formed scenario_b ∧ entry_node scenario_b = Some "a".
Proof.
  apply (build_well_formed "b"
           [AddNode "a" (always_raises "boom"); AddNode "b" same_state;
            AddEdge "a" "b"]).
  reflexivity.
Defined.

End Construction.

(** ** The trace of a run that returns *)

Section Returning.
Implicit Types (g : WorkflowGraph) (L : locals) (h : gmap positive obj).

Lemma omap_lookup_seq {A} (pre l : list A) :
  omap (λ i, (pre ++ l) !! i) (seq (length pre) (length l)) = l.
Proof.
  revert pre. induction l as [|x l IH]; intros pre; [done|]. cbn.
  rewrite lookup_app_r by lia. rewrite Nat.sub_diag. cbn. f_equal.
  specialize (IH (pre ++ [x])). rewrite length_app in IH. cbn in IH.
  rewrite Nat.add_1_r, <-app_assoc in IH. exact IH.
Qed.

Lemma tidy_trace L : tidy L → trace_of L = log_objs L.
Proof.
  intros (Hlog & _ & _). unfold trace_of. rewrite Hlog.
  apply (omap_lookup_seq [] (log_objs L)).
Qed.

Lemma tidy_after_node L (key : string) (s1 : positive) d1 cur :
  tidy L → tidy (with_current cur (after_node L key s1 d1)).
Proof.
  intros (Hlog & Hlen & Hentries). split; [|split].
  - cbn. rewrite Hlog, length_app. cbn. by rewrite Nat.add_1_r, seq_S.
  - cbn. rewrite length_app. cbn. lia.
  - intros k e Hk. cbn in Hk.
    apply lookup_app_Some in Hk as [Hk|[Hge Hk]]; [by apply Hentries|].
    apply list_lookup_singleton_Some in Hk as [Hz <-]. cbn.
    split; [f_equal; lia|]. eauto.
Qed.

Lemma run_loop_tidy fuel g h L s log :
  tidy L → res_outcome (run_loop fuel g h L) = Returned s log →
  tidy (res_locals (run_loop fuel g h L)).
Proof.
  revert g h L. induction fuel as [|fuel IH]; intros g h L Ht Hret.
  - cbn in *. by case_match.
  - destruct (truthy h (current_node_name L) && (iteration L <? max_iterations))
      eqn:Hc.
    2:{ rewrite run_loop_exit; [done|].
        apply andb_false_iff in Hc as [?|?%Nat.ltb_ge]; auto. }
    apply andb_true_iff in Hc as [Htr Hi%Nat.ltb_lt].
    rewrite run_loop_enter in Hret |- * by done.
    pose proof (run_body_pass g h L) as Hp.
    destruct (run_body g h L) as [[[g1 h1] L1] c].
    inversion Hp as [e Hno|key node h1' msg Hc Hn Hf|key node h1' s1 Hc
                     Hn Hf Hd|key node h1' s1 d1 h3 cur c' Hc
                     Hn Hf Hd Hfr Hpo]; subst; try done.
    pose proof (tidy_after_node L key s1 d1 cur Ht) as Ht1.
    destruct c as [| |o]; [by eapply IH|done|].
    cbn in Hret. subst o. done.
Qed.

Lemma returned_run_tidy g h (initial_state : positive) s log :
  res_outcome (run g h initial_state) = Returned s log →
  tidy (res_locals (run g h initial_state)).
Proof.
  intros Hret. unfold run in *. destruct (entry_node g) as [entry|]; [|done].
  destruct (dict_at h initial_state) as [d|]; [|done].
  eapply run_loop_tidy; [|exact Hret]. by repeat split.
Qed.

(** X3: whenever [run] returns, its log has one entry per pass of the
    loop, each referred to once: the entries are numbered 1, 2, ... in
    order, every one reads "completed", carries a state snapshot and
    no error, and there are as many as the loop counted iterations. *)
Theorem returned_trace_shape g h (initial_state : positive) s log :
  res_outcome (run g h initial_state) = Returned s log →
  let r := run g h initial_state in
  trace r = log_objs (res_locals r)
  ∧ length (trace r) = iteration (res_locals r)
  ∧ log_iteration <$> trace r = seq 1 (length (trace r))
  ∧ Forall (λ e, log_status e = "completed"
                 ∧ is_Some (log_state_snapshot e) ∧ log_error e = None)
      (trace r).
Proof.
  intros Hret. cbn zeta.
  pose proof (returned_run_tidy g h initial_state s log Hret) as Ht.
  unfold trace. rewrite (tidy_trace _ Ht).
  destruct Ht as (_ & Hlen & Hentries).
  split; [done|]. split; [done|]. split.
  - apply list_eq. intros k. rewrite list_lookup_fmap.
    destruct (log_objs (res_locals (run g h initial_state)) !! k) as [e|] eqn:E.
    + destruct (Hentries k e E) as (Hk & _). cbn. rewrite Hk.
      pose proof (lookup_lt_Some _ _ _ E).
      symmetry. rewrite lookup_seq_lt by done. done.
    + cbn. symmetry. apply lookup_ge_None. rewrite length_seq.
      by apply lookup_ge_None in E.
  - apply Forall_lookup. intros k e E.
    by destruct (Hentries k e E) as (_ & ? & ? & ?).
Qed.

Lemma returned_trace_shape_witness :
  log_iteration <$> trace (run self_loop x_is_1 1) = seq 1 100.
Proof.
  destruct (returned_trace_shape self_loop x_is_1 1 2 (seq 0 100))
    as (_ & Hlen & Hits & _); [by vm_compute|].
  rewrite Hits, Hlen. by vm_compute.
Defined.

End Returning.

(** ** Node status after a run that returns *)

Section Statuses.
Implicit Types (g : WorkflowGraph) (L : locals) (h : gmap positive obj).

Lemma run_loop_statuses fuel g h L s log :
  res_outcome (run_loop fuel g h L) = Returned s log →
  let r := run_loop fuel g h L in
  let news := drop (length (log_objs L)) (log_objs (res_locals r)) in
  ∀ key,
    (key ∈ log_node <$> news →
     ∃ n, nodes (res_graph r) !! key = Some n ∧ status n = COMPLETED)
    ∧ (key ∉ log_node <$> news → nodes (res_graph r) !! key = nodes g !! key).
Proof.
  revert g h L. induction fuel as [|fuel IH]; intros g h L Hret; cbn zeta.
  - cbn in *. case_match; [done|]. cbn. rewrite drop_all. intros key.
    split; [by intros ?%elem_of_nil|done].
  - destruct (truthy h (current_node_name L) && (iteration L <? max_iterations))
      eqn:Hc.
    2:{ rewrite run_loop_exit.
        - cbn. rewrite drop_all. intros key.
          split; [by intros ?%elem_of_nil|done].
        - apply andb_false_iff in Hc as [?|?%Nat.ltb_ge]; auto. }
    apply andb_true_iff in Hc as [Htr Hi%Nat.ltb_lt].
    rewrite run_loop_enter in Hret |- * by done.
    pose proof (run_body_pass g h L) as Hp.
    destruct (run_body g h L) as [[[g1 h1] L1] c].
    inversion Hp as [e Hno|key0 node h1' msg Hc Hn Hf|key0 node h1' s1 Hc
                     Hn Hf Hd|key0 node h1' s1 d1 h3 cur c' Hc
                     Hn Hf Hd Hfr Hpo]; subst; try done.
    set (g1 := set_nodes (<[key0 := set_status COMPLETED node]> (nodes g)) g)
      in *.
    set (L1 := with_current cur (after_node L key0 s1 d1)) in *.
    set (e0 := completed_entry key0 (S (iteration L)) d1).
    assert (∀ objs_r, log_objs L1 `prefix_of` objs_r →
              drop (length (log_objs L)) objs_r
              = e0 :: drop (length (log_objs L1)) objs_r) as Hdrop.
    { intros objs_r [k ->]. cbn. rewrite drop_app_length.
      by rewrite <-app_assoc, drop_app_length. }
    destruct c as [| |o].
    + rewrite Hdrop by apply run_loop_log_prefix.
      intros key. destruct (IH g1 h1 L1 Hret key) as [IH1 IH2].
      split.
      * intros Hin%elem_of_cons.
        destruct (decide (key ∈ log_node <$>
                    drop (length (log_objs L1))
                      (log_objs (res_locals (run_loop fuel g1 h1 L1)))))
          as [Hin1|Hin1]; [by apply IH1|].
        destruct Hin as [->|Hin]; [|done].
        rewrite (IH2 Hin1). cbn. rewrite lookup_insert_eq. eauto.
      * intros Hnin. apply not_elem_of_cons in Hnin as [Hne Hnin].
        rewrite (IH2 Hnin). cbn. by rewrite lookup_insert_ne.
    + cbn [res_locals res_graph]. rewrite Hdrop by done. rewrite drop_all.
      intros key. split.
      * intros ->%list_elem_of_singleton. cbn.
        rewrite lookup_insert_eq. eauto.
      * intros Hne%not_elem_of_cons. cbn. rewrite lookup_insert_ne; [done|].
        by destruct Hne.
    + cbn in Hret. by subst o.
Qed.

(** X4: when [run] returns, every node the trace mentions has status
    [COMPLETED], and every other node is as it was before the run:
    a status left by an earlier run is overwritten only for the nodes
    this run executed. *)
Theorem returned_run_statuses g h (initial_state : positive) s log (key : string) :
  res_outcome (run g h initial_state) = Returned s log →
  let r := run g h initial_state in
  (key ∈ log_node <$> trace r →
   status <$> nodes (res_graph r) !! key = Some COMPLETED)
  ∧ (key ∉ log_node <$> trace r → nodes (res_graph r) !! key = nodes g !! key).
Proof.
  intros Hret. cbn zeta. unfold trace.
  rewrite (tidy_trace _ (returned_run_tidy g h initial_state s log Hret)).
  unfold run in *. destruct (entry_node g) as [entry|]; [|done].
  destruct (dict_at h initial_state) as [d|]; [|done].
  pose proof (run_loop_statuses _ _ _ _ _ _ Hret key) as Hst.
  cbn zeta in Hst.
  change (length (log_objs (run_init entry (fresh (dom h))))) with 0 in Hst.
  rewrite drop_0 in Hst. destruct Hst as [H1 H2]. split; [|done].
  intros Hin. destruct (H1 Hin) as (n & -> & Hn). cbn. by rewrite Hn.
Qed.

Lemma returned_run_statuses_witness :
  let r := run scenario_d {[ 1%positive := ODict {[ "x" := VInt 1 ]} ]} 1 in
  status <$> nodes (res_graph r) !! "a" = Some COMPLETED
  ∧ nodes (res_graph r) !! "c" = nodes scenario_d !! "c".
Proof.
  cbn zeta.
  destruct (returned_run_statuses scenario_d
              {[ 1%positive := ODict {[ "x" := VInt 1 ]} ]} 1 2 [0] "a")
    as [H1 _]; [by vm_compute|].
  destruct (returned_run_statuses scenario_d
              {[ 1%positive := ODict {[ "x" := VInt 1 ]} ]} 1 2 [0] "c")
    as [_ H2]; [by vm_compute|].
  split; [apply H1|apply H2]; vm_compute.
  - apply list_elem_of_singleton. reflexivity.
  - intros Hin%list_elem_of_singleton. discriminate.
Defined.

End Statuses.

(** ** What a run of a well-formed graph cannot do *)

Section Safety.
Implicit Types (g : WorkflowGraph) (L : locals) (h : gmap positive obj)
  (d : gmap string value).

Lemma well_formed_wiring g g' :
  same_wiring g g' → well_formed g → well_formed g'.
Proof.
  intros Hw (He & Hentry & Hnone & Hname).
  pose proof Hw as (Hedges & Hent & Hnodes).
  assert (∀ k, is_Some (nodes g !! k) ↔ is_Some (nodes g' !! k)) as Hdom.
  { intros k. rewrite <-!elem_of_dom. by rewrite (same_wiring_dom g g'). }
  repeat split.
  - apply Hdom. rewrite <-Hedges in H. by destruct (He a b H).
  - apply Hdom. rewrite <-Hedges in H. by destruct (He a b H).
  - intros e E. apply Hdom, Hentry. by rewrite Hent.
  - intros E. rewrite <-Hent in E. specialize (Hnone E).
    apply map_eq. intros k. rewrite lookup_empty.
    destruct (nodes g' !! k) eqn:E'; [|done].
    assert (is_Some (nodes g !! k)) as [x Hx] by (apply Hdom; eauto).
    by rewrite Hnone in Hx.
  - intros k n' Hn'.
    pose proof (same_wiring_lookup g g' k Hw) as E. rewrite Hn' in E.
    destruct (nodes g !! k) as [n|] eqn:Hn; [|done].
    injection E as E _. rewrite <-E. by apply Hname.
Qed.

Lemma loop_request_ok_wiring g g' h (s : positive) :
  same_wiring g g' → loop_request_ok g h s → loop_request_ok g' h s.
Proof.
  intros Hw (d & Hd & Hloop). pose proof Hw as (_ & Hent & _).
  exists d. split; [done|]. intros Htr.
  destruct (Hloop Htr) as (m & Hm & Hin). exists m. rewrite <-Hent.
  split; [done|]. rewrite <-elem_of_dom in *.
  by rewrite <-(same_wiring_dom g g').
Qed.

Lemma well_targeted_wiring g g' :
  same_wiring g g' → well_targeted g → well_targeted g'.
Proof.
  intros Hw Ht key n' h s h' s' Hn' Hok Hf.
  pose proof (same_wiring_lookup g g' key Hw) as E. rewrite Hn' in E.
  destruct (nodes g !! key) as [n|] eqn:Hn; [|done].
  injection E as _ E. rewrite <-E in Hf.
  apply (loop_request_ok_wiring g g'); [done|].
  apply (Ht key n h s h' s' Hn); [|done].
  by apply (loop_request_ok_wiring g' g).
Qed.

(** The resolver's [pop] does not change what the loop flag reads. *)
Lemma truthy_flag_after_pop h (s : positive) d :
  dict_at h s = Some d →
  truthy (<[s := ODict (delete "route_to" d)]> h)
    (get (delete "route_to" d) "loop_continue" (VBool false))
  = truthy h (get d "loop_continue" (VBool false)).
Proof.
  intros Hd%dict_at_Some. unfold get. rewrite lookup_delete_ne by done.
  destruct (d !! "loop_continue") as [v|] eqn:Hv; [|done]. cbn.
  destruct v as [| | | |l]; try done. cbn.
  destruct (decide (s = l)) as [<-|]; [|by rewrite lookup_insert_ne].
  rewrite lookup_insert_eq, Hd.
  rewrite !bool_decide_eq_false_2; [done|..].
  - intros E. by rewrite E in Hv.
  - intros E. apply (f_equal (λ m, m !! "loop_continue")) in E.
    by rewrite lookup_delete_ne, Hv, lookup_empty in E.
Qed.

(** What choosing the next node comes to, case by case. *)
Lemma route_cases g h (s : positive) (key : string) d :
  dict_at h s = Some d →
  route g h s key = Some (h, Ok (of_optional (get_next_node g key)))
  ∨ (∃ marker, get_next_node g key = Some marker
               ∧ startswith marker "if_" = true
               ∧ let h2 := <[s := ODict (delete "route_to" d)]> h in
                 match d !! "route_to" with
                 | None => route g h s key = Some (h, Ok VNone)
                 | Some (VStr n) =>
                     route g h s key
                     = Some (h2, Ok (if bool_decide (n ∈ dom (nodes g))
                                     then VStr n else VNone))
                 | Some (VRef l) =>
                     ∃ msg, route g h s key = Some (h2, Raise (TypeError msg))
                 | Some _ => route g h s key = Some (h2, Ok VNone)
                 end).
Proof.
  intros Hd. unfold route.
  destruct (get_next_node g key) as [n|]; [|by left].
  destruct (negb (String.eqb n "") && startswith n "if_") eqn:Hm; [|by left].
  right. exists n. apply andb_true_iff in Hm as [_ Hm].
  split; [done|]. split; [done|]. cbn zeta.
  unfold _evaluate_conditional. rewrite Hd. cbn.
  destruct (d !! "route_to") as [[| | |k|l]|]; try done.
  - cbn. by destruct (bool_decide (k ∈ dom (nodes g))).
  - cbn. unfold unhashable. repeat case_match; eauto.
Qed.

Lemma run_loop_safe fuel g h L :
  well_formed g → well_targeted g →
  max_iterations ≤ iteration L + fuel →
  (current_node_name L = VNone
   ∨ ∃ m, current_node_name L = VStr m ∧ is_Some (nodes g !! m)) →
  loop_request_ok g h (state L) →
  match res_outcome (run_loop fuel g h L) with
  | Returned _ _ | Raised (Exception _) => True
  | Raised (TypeError _) =>
      ∃ a marker, edges g !! a = Some marker ∧ startswith marker "if_" = true
  | _ => False
  end.
Proof.
  revert g h L.
  induction fuel as [|fuel IH]; intros g h L Hwf Hwt Hfuel Hcur Hok.
  - by rewrite run_loop_exit by (right; lia).
  - destruct (truthy h (current_node_name L) && (iteration L <? max_iterations))
      eqn:Hc.
    2:{ rewrite run_loop_exit; [done|].
        apply andb_false_iff in Hc as [?|?%Nat.ltb_ge]; auto. }
    apply andb_true_iff in Hc as [Htr Hi%Nat.ltb_lt].
    rewrite run_loop_enter by done.
    destruct Hcur as [Hcur|(m & Hcur & [node Hn])]; [by rewrite Hcur in Htr|].
    destruct (func node h (state L)) as [h1 [s1|msg]] eqn:Hf.
    2:{ by rewrite (run_body_raises g h L m node h1 msg). }
    destruct (Hwt m node h (state L) h1 s1 Hn Hok Hf) as (d1 & Hd1 & Hloop).
    rewrite (run_body_returns g h L m node h1 s1 d1) by done. cbn zeta.
    set (g1 := set_nodes (<[m := set_status COMPLETED node]> (nodes g)) g).
    assert (same_wiring g g1) as Hw
      by (by apply (same_wiring_set_node _ _ node)).
    pose proof (well_formed_wiring g g1 Hw Hwf) as Hwf1.
    pose proof (well_targeted_wiring g g1 Hw Hwt) as Hwt1.
    assert (∀ k, is_Some (nodes g !! k) → is_Some (nodes g1 !! k)) as Hdom.
    { intros k. rewrite <-!elem_of_dom. by rewrite (same_wiring_dom g g1). }
    (* the state and the next node after routing *)
    assert (∃ h2 r, route g h1 s1 m = Some (h2, r)
              ∧ match r with
                | Raise (TypeError _) =>
                    ∃ a marker, edges g !! a = Some marker
                                ∧ startswith marker "if_" = true
                | Raise _ => False
                | Ok next =>
                    (next = VNone ∨ ∃ k, next = VStr k ∧ is_Some (nodes g !! k))
                    ∧ ∃ d2, dict_at h2 s1 = Some d2
                        ∧ truthy h2 (get d2 "loop_continue" (VBool false))
                          = truthy h1 (get d1 "loop_continue" (VBool false))
                        ∧ get d2 "loop_node" (of_optional (entry_node g))
                          = get d1 "loop_node" (of_optional (entry_node g))
                end) as (h2 & r & Hr & Hnext).
    { destruct (route_cases g h1 s1 m d1 Hd1) as [Hr|(mk & Hmk & Hst & Hr)].
      - eexists _, _. split; [exact Hr|]. split; [|eauto].
        destruct (get_next_node g m) as [k|] eqn:Hk; [|by left].
        right. exists k. split; [done|].
        destruct Hwf as (He & _). by destruct (He m k Hk).
      - cbn zeta in Hr.
        assert (∃ d2, dict_at (<[s1 := ODict (delete "route_to" d1)]> h1) s1
                      = Some d2
                  ∧ truthy (<[s1 := ODict (delete "route_to" d1)]> h1)
                      (get d2 "loop_continue" (VBool false))
                    = truthy h1 (get d1 "loop_continue" (VBool false))
                  ∧ get d2 "loop_node" (of_optional (entry_node g))
                    = get d1 "loop_node" (of_optional (entry_node g))) as Hpop.
        { eexists. split; [apply dict_at_insert_eq|].
          split; [by apply truthy_flag_after_pop|].
          unfold get. by rewrite lookup_delete_ne. }
        destruct (d1 !! "route_to") as [[| | |k|l]|].
        1-3: eexists _, _; (split; [exact Hr|]); split; [by left|done].
        + eexists _, _. split; [exact Hr|]. split; [|done].
          case_bool_decide as Hk; [|by left]. right. exists k.
          split; [done|]. by apply elem_of_dom.
        + destruct Hr as [msg Hr]. eexists _, _. split; [exact Hr|].
          by exists m, mk.
        + eexists _, _. split; [exact Hr|]. split; [by left|eauto]. }
    rewrite Hr. destruct r as [next|[]]; try done.
    destruct Hnext as (Hnext & d2 & Hd2 & Hflag & Hnode).
    unfold loop_override. cbn [state with_current after_node].
    rewrite Hd2. cbn [mbind option_bind].
    destruct (truthy h2 (get d2 "loop_continue" (VBool false))) eqn:Ht2.
    + assert (truthy h1 (get d1 "loop_continue" (VBool false)) = true) as Ht1
        by (by rewrite <-Hflag).
      destruct (Hloop Ht1) as (k & Hk & Hin).
      apply (IH g1); [done|done|cbn; lia| |].
      * right. exists k. cbn. rewrite Hnode. split; [done|]. by apply Hdom.
      * eexists. cbn. split; [apply dict_at_insert_eq|].
        unfold get. by rewrite lookup_insert_eq.
    + cbn [current_node_name with_current].
      destruct Hnext as [->|(k & -> & Hin)]; [done|].
      apply (IH g1); [done|done|cbn; lia| |].
      * right. exists k. cbn. split; [done|]. by apply Hdom.
      * exists d2. cbn. split; [done|]. by rewrite Ht2.
Qed.

Lemma loop_request_ok_copy g h (l0 : positive) d :
  dict_at h l0 = Some d → loop_request_ok g h l0 →
  loop_request_ok g (<[fresh (dom h) := ODict d]> h) (fresh (dom h)).
Proof.
  intros Hd (d' & Hd' & Hloop). assert (d' = d) as -> by congruence.
  exists d. split; [apply dict_at_insert_eq|]. intros Ht. apply Hloop.
  destruct (truthy h (get d "loop_continue" (VBool false))) eqn:E; [done|].
  rewrite truthy_insert_fresh in Ht; [done| |done].
  apply not_elem_of_dom, is_fresh.
Qed.

Lemma run_safe g h (initial_state : positive) :
  well_formed g → well_targeted g → loop_request_ok g h initial_state →
  match res_outcome (run g h initial_state) with
  | Returned _ _ | Raised (Exception _) => True
  | Raised (TypeError _) =>
      ∃ a marker, edges g !! a = Some marker ∧ startswith marker "if_" = true
  | Raised (ValueError _) => entry_node g = None
  | _ => False
  end.
Proof.
  intros Hwf Hwt Hok. pose proof Hok as (d & Hd & _). unfold run.
  destruct (entry_node g) as [entry|] eqn:He; [|done]. rewrite Hd. cbn zeta.
  pose proof (run_loop_safe max_iterations g (<[fresh (dom h) := ODict d]> h)
                (run_init entry (fresh (dom h))) Hwf Hwt) as Hsafe.
  assert (match res_outcome
                  (run_loop max_iterations g (<[fresh (dom h) := ODict d]> h)
                     (run_init entry (fresh (dom h)))) with
          | Returned _ _ | Raised (Exception _) => True
          | Raised (TypeError _) =>
              ∃ a marker, edges g !! a = Some marker
                          ∧ startswith marker "if_" = true
          | _ => False
          end) as H.
  { apply Hsafe; [cbn; lia| |by apply (loop_request_ok_copy g h initial_state)].
    right. exists entry. split; [done|].
    destruct Hwf as (_ & Hentry & _). by apply Hentry. }
  by destruct (res_outcome _) as [s log|[]| |].
Qed.

(** X5: a run of a well-formed graph (as every graph built by [add_node]
    and [add_edge] is), from a state that is a dictionary asking at
    most for a loop to a node of the graph, with transforms that keep
    the state such, never fails on a node lookup: it returns, or the
    exception of a transform leaves it, or the [TypeError] of an
    unhashable [route_to]; [ValueError] only when the graph has no
    node. *)
Theorem well_formed_run_never_fails_lookup g h (initial_state : positive) :
  well_formed g → well_targeted g → loop_request_ok g h initial_state →
  no_lookup_failure g (res_outcome (run g h initial_state)).
Proof.
  intros Hwf Hwt Hok.
  pose proof (run_safe g h initial_state Hwf Hwt Hok) as H.
  unfold no_lookup_failure.
  by destruct (res_outcome _) as [s log|[]| |].
Qed.

Lemma well_formed_run_never_fails_lookup_witness :
  no_lookup_failure scenario_b (res_outcome (run scenario_b x_is_1 1)).
Proof.
  apply well_formed_run_never_fails_lookup.
  - apply (build_invariant
             [AddNode "a" (always_raises "boom"); AddNode "b" same_state;
              AddEdge "a" "b"] (init "b")); [apply well_formed_init|].
    reflexivity.
  - intros key n h s h' s' Hn Hok Hf.
    assert (func n = always_raises "boom" ∨ func n = same_state) as [E|E].
    { assert (nodes scenario_b
              = nodes (add_node (add_node (init "b") "a" (always_raises "boom"))
                         "b" same_state)) as E by (by vm_compute).
      rewrite E in Hn. cbn in Hn.
      apply lookup_insert_Some in Hn as [[_ <-]|[_ Hn]]; [by right|].
      apply lookup_insert_Some in Hn as [[_ <-]|[_ Hn]]; [by left|].
      by rewrite lookup_empty in Hn. }
    + by rewrite E in Hf.
    + rewrite E in Hf. by injection Hf as <- <-.
  - eexists. split; [reflexivity|]. intros Ht. by vm_compute in Ht.
Defined.

(** X6: a marker nobody resolves ends the run: when the successor of the
    node just executed is an [if_] name, the state holds no
    [route_to] and asks for no loop, [run] returns after that node,
    whether or not a node of that name exists. *)
Theorem unresolved_marker_ends_run
    fuel g h L (key : string) node h1 (s1 : positive) d1 (marker : string) :
  iteration L < max_iterations →
  current_node_name L = VStr key → key ≠ "" → nodes g !! key = Some node →
  func node h (state L) = (h1, Returns s1) → dict_at h1 s1 = Some d1 →
  edges g !! key = Some marker → startswith marker "if_" = true →
  d1 !! "route_to" = None →
  truthy h1 (get d1 "loop_continue" (VBool false)) = false →
  run_loop (S fuel) g h L =
    {| res_graph := set_nodes (<[key := set_status COMPLETED node]> (nodes g)) g;
       res_heap := h1;
       res_locals := with_current VNone (after_node L key s1 d1);
       res_outcome := Returned s1 (execution_log L ++ [length (log_objs L)]) |}.
Proof.
  intros Hi Hc Hk Hn Hf Hd He Hm Hroute Hflag.
  rewrite run_loop_enter by (rewrite ?Hc; auto using truthy_name).
  rewrite (run_body_returns g h L key node h1 s1 d1) by done. cbn zeta.
  assert (marker ≠ "") as Hne by (intros ->; done).
  unfold route, get_next_node. rewrite He, Hm.
  rewrite (proj2 (String.eqb_neq _ _) Hne). cbn [negb andb].
  unfold _evaluate_conditional. rewrite Hd. cbn [mbind option_bind].
  rewrite Hroute. unfold loop_override. cbn [state with_current after_node].
  rewrite Hd. cbn [mbind option_bind]. by rewrite Hflag.
Qed.

Lemma unresolved_marker_ends_run_witness :
  res_outcome (run scenario_d x_is_1 1) = Returned 2 [0].
Proof.
  assert (run scenario_d x_is_1 1
          = run_loop 100 scenario_d
              (<[2%positive := ODict {[ "x" := VInt 1 ]}]> x_is_1)
              (run_init "a" 2)) as -> by reflexivity.
  rewrite (unresolved_marker_ends_run 99 scenario_d
             (<[2%positive := ODict {[ "x" := VInt 1 ]}]> x_is_1)
             (run_init "a" 2) "a"
             {| name := "a"; func := same_state; status := PENDING |}
             (<[2%positive := ODict {[ "x" := VInt 1 ]}]> x_is_1)
             2 {[ "x" := VInt 1 ]} "if_route");
    [reflexivity|unfold max_iterations; cbn; lia|reflexivity|discriminate
    |reflexivity..].
Defined.

End Safety.

(** * Further properties: transforms that work in place *)

Section InPlace.
Implicit Types (g : WorkflowGraph) (L : locals) (h : gmap positive obj)
  (d : gmap string value).

Lemma trace_of_after_failure L (key msg : string) :
  log_wf L →
  trace_of (after_failure L key msg)
  = trace_of L ++ [failed_entry key (S (iteration L)) msg;
                   failed_entry key (S (iteration L)) msg].
Proof.
  intros Hw.
  erewrite (trace_of_app L (after_failure L key msg)); [|done..].
  f_equal. cbn. rewrite lookup_app_r by lia. by rewrite Nat.sub_diag.
Qed.

Lemma fresh_insert_kept h (o : obj) l :
  is_Some (h !! l) → (<[fresh (dom h) := o]> h) !! l = h !! l.
Proof.
  intros Hl. rewrite lookup_insert_ne; [done|]. intros <-.
  by apply (is_fresh (dom h)), elem_of_dom.
Qed.

Lemma same_state_in_place : in_place same_state.
Proof. intros h s. split; [done|]. by intros ? [= <-]. Qed.

Lemma run_loop_in_place fuel g h L :
  (∀ key n, nodes g !! key = Some n → in_place (func n)) →
  let r := run_loop fuel g h L in
  ∀ l, l ≠ state L → is_Some (h !! l) → res_heap r !! l = h !! l.
Proof.
  revert g h L. induction fuel as [|fuel IH]; intros g h L Hg; cbn zeta.
  - cbn. by case_match.
  - destruct (truthy h (current_node_name L) && (iteration L <? max_iterations))
      eqn:Hc.
    2:{ rewrite run_loop_exit; [done|].
        apply andb_false_iff in Hc as [?|?%Nat.ltb_ge]; auto. }
    apply andb_true_iff in Hc as [Ht Hi%Nat.ltb_lt].
    rewrite run_loop_enter by done.
    pose proof (run_body_pass g h L) as Hp.
    pose proof (run_body_keeps_wiring g h L) as Hw.
    destruct (run_body g h L) as [[[g1 h1] L1] c]. cbn in Hw.
    assert ((∀ l, l ≠ state L → is_Some (h !! l) → h1 !! l = h !! l)
            ∧ (c = Continue → state L1 = state L)) as [Hh1 Hs1].
    { inversion Hp as [e Hno|key node h1' msg Hc Hn Hf|key node h1' s1 Hc
                       Hn Hf Hd|key node h1' s1 d1 h3 cur c' Hc
                       Hn Hf Hd Hfr Hpo]; subst; cbn.
      - done.
      - split; [|done]. intros l Hl Hsome.
        destruct (Hg key node Hn h (state L)) as [H1 _].
        rewrite Hf in H1. by apply H1.
      - split; [|done]. intros l Hl Hsome.
        destruct (Hg key node Hn h (state L)) as [H1 _].
        rewrite Hf in H1. by apply H1.
      - destruct (Hg key node Hn h (state L)) as [H1 H2].
        rewrite Hf in H1, H2. cbn in *. rewrite (H2 s1 eq_refl) in *.
        split; [|done]. intros l Hl Hsome. rewrite Hfr by done.
        by apply H1. }
    destruct c as [| |o]; cbn; [|done..].
    intros l Hl Hsome. rewrite (IH g1 h1 L1).
    + by apply Hh1.
    + by apply (funcs_wiring in_place g g1).
    + by rewrite Hs1.
    + rewrite Hh1 by done. done.
Qed.

(** X7: when every transform of the graph works in place, [run],
    however it ends, leaves every object the caller holds as it was:
    it writes to its own copy of the state only. *)
Theorem in_place_run_leaves_heap g h (initial_state : positive) l :
  (∀ key n, nodes g !! key = Some n → in_place (func n)) →
  is_Some (h !! l) →
  res_heap (run g h initial_state) !! l = h !! l.
Proof.
  intros Hg Hl. unfold run.
  destruct (entry_node g) as [entry|]; [|done].
  destruct (dict_at h initial_state) as [d|]; [|done]. cbn zeta.
  rewrite run_loop_in_place.
  - by apply fresh_insert_kept.
  - done.
  - cbn. intros ->. by apply (is_fresh (dom h)), elem_of_dom.
  - by rewrite fresh_insert_kept.
Qed.

Lemma in_place_run_leaves_heap_witness :
  res_heap (run self_loop x_is_1 1) !! 1%positive = x_is_1 !! 1%positive.
Proof.
  apply in_place_run_leaves_heap.
  - intros key n Hn.
    assert (nodes self_loop = nodes (add_node (init "loop") "a" same_state))
      as E by (by vm_compute).
    rewrite E in Hn. cbn in Hn.
    apply lookup_insert_Some in Hn as [[_ <-]|[_ Hn]];
      [apply same_state_in_place|].
    by rewrite lookup_empty in Hn.
  - by eexists.
Defined.

End InPlace.

(** * Properties of the tools *)

(** ** The registry *)

Section Registry.
Context {T : Type}.
Implicit Types (self : ToolRegistry.t T) (items : list (string * T)).

Lemma getitem_setitem items k v k' :
  getitem (setitem items k v) k'
  = if decide (k' = k) then Some v else getitem items k'.
Proof.
  induction items as [|[k0 v0] items IH]; cbn.
  - destruct (decide (k = k')), (decide (k' = k)); congruence.
  - destruct (decide (k0 = k)) as [->|]; cbn.
    + destruct (decide (k = k')), (decide (k' = k)); congruence.
    + destruct (decide (k0 = k')) as [->|]; [|done].
      by destruct (decide (k' = k)).
Qed.

Lemma getitem_None items k : getitem items k = None ↔ k ∉ items.*1.
Proof.
  induction items as [|[k0 v0] items IH]; cbn.
  - split; [intros _; apply not_elem_of_nil|done].
  - rewrite not_elem_of_cons. destruct (decide (k0 = k)) as [->|]; [naive_solver|].
    rewrite IH. naive_solver.
Qed.

Lemma getitem_Some items k v : getitem items k = Some v → (k, v) ∈ items.
Proof.
  induction items as [|[k0 v0] items IH]; cbn; [done|].
  destruct (decide (k0 = k)) as [->|]; [intros [= ->]; left|].
  intros H. right. auto.
Qed.

Lemma setitem_keys items k v :
  (setitem items k v).*1
  = if bool_decide (k ∈ items.*1) then items.*1 else items.*1 ++ [k].
Proof.
  induction items as [|[k0 v0] items IH]; cbn.
  - by rewrite bool_decide_eq_false_2 by apply not_elem_of_nil.
  - destruct (decide (k0 = k)) as [->|Hne]; cbn.
    + by rewrite bool_decide_eq_true_2 by left.
    + rewrite IH. case_bool_decide as Hin.
      * by rewrite bool_decide_eq_true_2 by (by right).
      * rewrite bool_decide_eq_false_2; [done|].
        rewrite not_elem_of_cons. naive_solver.
Qed.

(** X8: after [register(name, func)], [get(name)] returns [func],
    whatever was registered under the name before, and [get] of any
    other name does what it did. *)
Theorem registry_get_after_register self (name : string) (func : T) (name' : string) :
  ToolRegistry.get (ToolRegistry.register self name func) name'
  = if decide (name' = name) then Got func else ToolRegistry.get self name'.
Proof.
  unfold ToolRegistry.get, ToolRegistry.register. cbn.
  rewrite getitem_setitem. by destruct (decide (name' = name)).
Qed.

(** X9: [get] raises, and then a [ValueError], exactly for the names
    [list_tools] does not list; for a listed name it returns a tool
    stored under that name. *)
Theorem registry_get_raises_iff_unlisted self (name : string) :
  match ToolRegistry.get self name with
  | Got func =>
      ((name, func) ∈ ToolRegistry.tools self)
      ∧ name ∈ ToolRegistry.list_tools self
  | Threw e =>
      (name ∉ ToolRegistry.list_tools self) ∧ ∃ msg, e = Value_error msg
  end.
Proof.
  unfold ToolRegistry.get, ToolRegistry.list_tools.
  destruct (getitem _ name) as [func|] eqn:E.
  - apply getitem_Some in E. split; [done|].
    apply list_elem_of_fmap. by exists (name, func).
  - apply getitem_None in E. eauto.
Qed.

Lemma registered_snoc (calls : list (string * T)) name func :
  registered (calls ++ [(name, func)])
  = ToolRegistry.register (registered calls) name func.
Proof. unfold registered. by rewrite foldl_app. Qed.

(** X10: after any sequence of [register] calls on a new registry,
    [list_tools] lists every registered name once, a name registered
    again keeps its place, and [get] returns what was registered last
    under the name. *)
Theorem registry_after_calls (calls : list (string * T)) :
  NoDup (ToolRegistry.list_tools (registered calls))
  ∧ (∀ name, name ∈ ToolRegistry.list_tools (registered calls)
             ↔ name ∈ calls.*1)
  ∧ (∀ name func,
       ToolRegistry.list_tools (registered (calls ++ [(name, func)]))
       = if bool_decide (name ∈ calls.*1)
         then ToolRegistry.list_tools (registered calls)
         else ToolRegistry.list_tools (registered calls) ++ [name])
  ∧ (∀ name,
       ToolRegistry.get (registered calls) name
       = match last (filter (λ call, call.1 = name) calls) with
         | Some call => Got call.2
         | None =>
             Threw (Value_error
                      ("Tool '" +:+ name +:+ "' not found in registry"))
         end).
Proof.
  assert (∀ calls : list (string * T),
            NoDup (ToolRegistry.list_tools (registered calls))
            ∧ ∀ name, name ∈ ToolRegistry.list_tools (registered calls)
                      ↔ name ∈ calls.*1) as Hnames.
  { clear. intros calls. induction calls as [|[name func] calls IH] using rev_ind.
    - split; [constructor|done].
    - destruct IH as [Hnd Hin]. rewrite registered_snoc.
      unfold ToolRegistry.list_tools, ToolRegistry.register in *.
      cbn [ToolRegistry.tools]. rewrite setitem_keys, fmap_app. cbn.
      case_bool_decide as Hold.
      + split; [done|]. intros name'. rewrite elem_of_app, Hin.
        rewrite list_elem_of_singleton. split; [by left|].
        intros [?| ->]; [done|]. by apply Hin.
      + split.
        * apply NoDup_app. split; [done|].
          split; [|apply NoDup_singleton].
          by intros x Hx ->%list_elem_of_singleton.
        * intros name'. by rewrite !elem_of_app, Hin. }
  split; [apply Hnames|]. split; [apply Hnames|]. split.
  - intros name func. rewrite registered_snoc.
    unfold ToolRegistry.list_tools, ToolRegistry.register.
    cbn [ToolRegistry.tools]. rewrite setitem_keys.
    destruct (Hnames calls) as [_ Hin].
    unfold ToolRegistry.list_tools in Hin.
    case_bool_decide as H1; case_bool_decide as H2; try done.
    + by apply Hin in H1.
    + by apply Hin in H2.
  - induction calls as [|[name0 func0] calls IH] using rev_ind; [done|].
    intros name. rewrite registered_snoc.
    unfold ToolRegistry.get, ToolRegistry.register in *.
    cbn [ToolRegistry.tools]. rewrite getitem_setitem, filter_app.
    rewrite filter_cons, filter_nil. cbn [fst].
    destruct (decide (name = name0)) as [->|Hne].
    + rewrite decide_True by done. by rewrite last_snoc.
    + rewrite decide_False by done. rewrite app_nil_r. apply IH.
Qed.

End Registry.

(** ** The example tools *)

Section Tools.
Implicit Types (h : gmap positive obj) (d : gmap string value).

Lemma count_is_sequence h code sub :
  match count h code sub with
  | Got _ => is_sequence h code
  | Threw e => ¬ is_sequence h code ∧ ∃ msg, e = Attribute_error msg
  end.
Proof.
  destruct code as [| | | |l]; cbn; eauto.
  destruct (h !! l) as [[]|]; cbn; eauto; split; eauto; by intros [? ?].
Qed.

Lemma len_is_sequence h code :
  is_sequence h code → ∃ n, len h code = Got n.
Proof.
  destruct code as [| | | |l]; cbn; try done; eauto.
  intros [xs ->]. eauto.
Qed.

Lemma contains_is_sequence h code sub :
  is_sequence h code → ∃ b, contains h sub code = Got b.
Proof.
  destruct code as [| | | |l]; cbn; try done; eauto.
  intros [xs ->]. eauto.
Qed.

(** X11: [detect_smells] raises exactly when [code] is neither a
    string nor a list, and then leaves the heap as it is.  Otherwise
    it writes to no object there is: [issues] is a new list, holding
    some of the three messages in the order of the tests, and
    [issue_count] is its length, 3 at most. *)
Theorem detect_smells_report h code :
  match detect_smells h code with
  | (h', Got result) =>
      is_sequence h code
      ∧ ∃ issues,
          sublist issues smell_messages
          ∧ h' = <[fresh (dom h) := OList (VStr <$> issues)]> h
          ∧ result = {[ "issues" := VRef (fresh (dom h));
                        "issue_count" := VInt (Z.of_nat (length issues)) ]}
          ∧ length issues ≤ 3
  | (h', Threw e) => h' = h ∧ ¬ is_sequence h code
  end.
Proof.
  unfold detect_smells.
  destruct (len h code) as [n|e] eqn:Hlen; cbn [mbind may_bind].
  2:{ split; [done|]. intros Hs.
      destruct (len_is_sequence h code Hs); congruence. }
  pose proof (count_is_sequence h code "if") as Hc.
  destruct (count h code "if") as [ifs|e]; cbn [mbind may_bind];
    [|by destruct Hc].
  destruct (contains_is_sequence h code "TODO" Hc) as [todo ->].
  destruct (contains_is_sequence h code "FIXME" Hc) as [fixme ->].
  cbn [mbind may_bind].
  destruct (1000 <? n), (10 <? ifs), todo, fixme; cbn [mbind may_bind app];
    (split; [done|]);
    eexists; (split; [|split; [reflexivity|split; [reflexivity|]]]);
    try (cbn [length]; lia); unfold smell_messages;
    repeat first [apply sublist_nil | apply sublist_skip | apply sublist_cons ].
Qed.
Lemma count_from_pos sub s :
  sub ≠ "" → 0 < count_from 0 sub s ↔ str_contains sub s = true.
Proof.
  intros Hsub. induction s as [|c s IH].
  - cbn. destruct sub; [done|]. cbn. split; [lia|done].
  - cbn [count_from str_contains].
    destruct (String.prefix sub (String c s)); [cbn; split; [done|lia]|].
    cbn [orb]. exact IH.
Qed.

Lemma str_count_pos s sub : 0 < str_count s sub ↔ str_contains sub s = true.
Proof.
  unfold str_count. destruct (String.eqb_spec sub "") as [->|Hsub].
  - split; [|lia]. intros _. by destruct s.
  - by apply count_from_pos.
Qed.

Lemma str_count_zero s sub : str_count s sub = 0 ↔ str_contains sub s = false.
Proof.
  pose proof (str_count_pos s sub) as H. split; intros E.
  - apply not_true_is_false. intros C. apply H in C. lia.
  - destruct (str_count s sub) eqn:C; [done|].
    rewrite (proj1 H) in E by lia. done.
Qed.

(** X12: [check_complexity] never touches the heap.  It raises, an
    [AttributeError], exactly when [code] is neither a string nor a
    list; otherwise [complexity_score] is an integer that is not
    negative, and it is 0 exactly when [code.count] is 0 for each of
    the four words. *)
Theorem check_complexity_report h code :
  match check_complexity h code with
  | (h', Got result) =>
      h' = h ∧ is_sequence h code
      ∧ ∃ n, result = {[ "complexity_score" := VInt n ]} ∧ (0 ≤ n)%Z
             ∧ (n = 0%Z ↔
                Forall (λ word, count h code word = Got 0)
                  ["if"; "for"; "while"; "def"])
  | (h', Threw e) =>
      h' = h ∧ ¬ is_sequence h code ∧ ∃ msg, e = Attribute_error msg
  end.
Proof.
  unfold check_complexity.
  pose proof (count_is_sequence h code "if") as H1.
  pose proof (count_is_sequence h code "for") as H2.
  pose proof (count_is_sequence h code "while") as H3.
  pose proof (count_is_sequence h code "def") as H4.
  destruct (count h code "if") as [ifs|e] eqn:E1; cbn [mbind may_bind];
    [|by destruct H1].
  destruct (count h code "for") as [fors|e] eqn:E2; cbn [mbind may_bind];
    [|by destruct H2].
  destruct (count h code "while") as [whiles|e] eqn:E3; cbn [mbind may_bind];
    [|by destruct H3].
  destruct (count h code "def") as [defs|e] eqn:E4; cbn [mbind may_bind];
    [|by destruct H4].
  split; [done|]. split; [done|]. eexists. split; [reflexivity|].
  split; [lia|]. rewrite !Forall_cons, Forall_nil, E1, E2, E3, E4. split.
  - intros Hz. repeat split; f_equal; lia.
  - intros ([= ->] & [= ->] & [= ->] & [= ->] & _). done.
Qed.

(** X13: the complexity of a string is 0 exactly when none of ["if"],
    ["for"], ["while"], ["def"] occurs in it, anywhere, as a
    substring. *)
Theorem complexity_zero_iff_no_keyword h (code : string) :
  check_complexity h (VStr code) = (h, Got {[ "complexity_score" := VInt 0 ]})
  ↔ Forall (λ word, str_contains word code = false)
      ["if"; "for"; "while"; "def"].
Proof.
  rewrite !Forall_cons, Forall_nil, <-!str_count_zero.
  unfold check_complexity. cbn [count mbind may_bind]. split.
  - intros E.
    apply (f_equal (λ p, match p.2 with
                         | Got r => r !! "complexity_score"
                         | Threw _ => None
                         end)) in E.
    cbn [snd] in E. rewrite !lookup_singleton_eq in E. injection E as E.
    repeat split; lia.
  - intros (-> & -> & -> & -> & _). done.
Qed.

Lemma minus_times_cases h acc v k :
  match minus_times h acc v k with
  | Got r => ∃ n, number v = Some n ∧ r = (acc - n * k)%Z
  | Threw e => number v = None ∧ ∃ msg, e = Type_error msg
  end.
Proof.
  unfold minus_times. destruct (number v); eauto.
Qed.

Lemma not_a_number_None v : not_a_number v → number v = None.
Proof. by destruct v. Qed.

(** X14: [calculate_quality_score] never touches the heap.  On a
    dictionary whose [issue_count] and [complexity_score] (0 when
    missing) are integers or booleans, it returns, and [quality_score]
    is 100 - 10 * issue_count - 2 * complexity_score, or 0 if that is
    negative: never negative, and 100 at most when neither of the two
    is negative.  It raises a [TypeError] when [issue_count] is
    [None], a string, a list or a dictionary, and when [issue_count]
    is an integer or a boolean and [complexity_score] is one of
    those; and an [AttributeError] when [state] is no dictionary. *)
Theorem calculate_quality_score_range h state :
  (calculate_quality_score h state).1 = h
  ∧ match dict_of h state "get" with
    | Threw _ =>
        ∃ msg, (calculate_quality_score h state).2
               = Threw (Attribute_error msg)
    | Got d =>
        let issue_count := get d "issue_count" (VInt 0) in
        let complexity_score := get d "complexity_score" (VInt 0) in
        (∀ i c,
           number issue_count = Some i → number complexity_score = Some c →
           let quality_score := Z.max 0 (100 - i * 10 - c * 2) in
           (calculate_quality_score h state).2
           = Got {[ "quality_score" := VInt quality_score ]}
           ∧ (0 ≤ quality_score)%Z
           ∧ ((0 ≤ i)%Z → (0 ≤ c)%Z → (quality_score ≤ 100)%Z))
        ∧ (not_a_number issue_count
           ∨ (is_Some (number issue_count) ∧ not_a_number complexity_score) →
           ∃ msg, (calculate_quality_score h state).2
                  = Threw (Type_error msg))
    end.
Proof.
  unfold calculate_quality_score.
  destruct (dict_of h state "get") as [d|e] eqn:Hd; cbn [mbind may_bind].
  2:{ split; [done|]. unfold dict_of in Hd. unfold no_attribute in Hd.
      destruct state as [| | | |l]; try (injection Hd as <-; eauto).
      destruct (h !! l) as [[]|]; try done; injection Hd as <-; eauto. }
  cbn zeta.
  pose proof (minus_times_cases h 100 (get d "issue_count" (VInt 0)) 10) as H1.
  destruct (minus_times h 100 _ 10) as [q1|e]; cbn [mbind may_bind].
  2:{ destruct H1 as [H1 [msg ->]]. split; [done|]. split.
      - intros i c Hi. congruence.
      - intros _. cbn. eauto. }
  destruct H1 as (ic & Hic & ->).
  pose proof (minus_times_cases h (100 - ic * 10)
                (get d "complexity_score" (VInt 0)) 2) as H2.
  destruct (minus_times h _ _ 2) as [q2|e]; cbn [mbind may_bind].
  2:{ destruct H2 as [H2 [msg ->]]. split; [done|]. split.
      - intros i c _ Hc. congruence.
      - intros _. cbn. eauto. }
  destruct H2 as (cs & Hcs & ->).
  split; [done|]. split.
  - intros i c Hi Hc. assert (i = ic) as -> by congruence.
    assert (c = cs) as -> by congruence. cbn [snd].
    split; [done|]. lia.
  - intros [Hno|[_ Hno]]; apply not_a_number_None in Hno; congruence.
Qed.

End Tools.

(** * Properties of the example workflow *)

Section Review.
Variable keys_in_order : gmap positive obj → positive → list string.
Variable list_ge : gmap positive obj → list value → list value → may bool.
Implicit Types (g : WorkflowGraph) (L : locals) (h : gmap positive obj)
  (d : gmap string value).

Lemma dict_of_state h (s : positive) d attr :
  dict_at h s = Some d → dict_of h (VRef s) attr = Got d.
Proof. intros Hd%dict_at_Some. unfold dict_of. by rewrite Hd. Qed.

Lemma detect_smells_str h (code : string) :
  detect_smells h (VStr code)
  = (<[fresh (dom h) := OList (VStr <$> smells code)]> h,
     Got {[ "issues" := VRef (fresh (dom h));
            "issue_count" := VInt (Z.of_nat (length (smells code))) ]}).
Proof.
  unfold detect_smells, smells. cbn [len count contains mbind may_bind].
  destruct (1000 <? String.length code), (10 <? str_count code "if"),
    (str_contains "TODO" code), (str_contains "FIXME" code); reflexivity.
Qed.

Lemma check_complexity_str h (code : string) :
  check_complexity h (VStr code)
  = (h, Got {[ "complexity_score" := VInt (complexity code) ]}).
Proof. reflexivity. Qed.

Lemma suggest_strings h (issues : list string) suggestions :
  ∃ out, suggest h (VStr <$> issues) suggestions = Got out.
Proof.
  revert suggestions. induction issues as [|s issues IH]; intros acc; cbn.
  - eauto.
  - destruct (str_contains "too long" (lower s)); [apply IH|].
    destruct (str_contains "conditionals" (lower s)); [apply IH|].
    destruct (str_contains "TODO" s); apply IH.
Qed.

Lemma review_wired_built registry g :
  create_code_review_workflow registry keys_in_order list_ge = Ok g →
  review_wired registry keys_in_order list_ge g.
Proof.
  unfold create_code_review_workflow. cbn [build].
  repeat (rewrite add_edge_Ok;
          [cbn [nodes edges entry_node graph_id add_node init]| |]);
    try (cbn [nodes add_node];
         rewrite ?lookup_insert_ne by done; rewrite lookup_insert_eq; eauto).
  intros [= <-]. split; [done|]. split.
  - intros stage key Hk.
    do 6 (destruct stage as [|stage];
          [injection Hk as <-; cbn [nodes edges]; split;
             [by rewrite ?lookup_insert_ne by done; rewrite ?lookup_insert_eq
             |rewrite ?lookup_insert_ne by done; rewrite lookup_insert_eq;
              eexists; repeat split; reflexivity]
          |]).
    done.
  - intros key [node Hn]. cbn [nodes] in Hn. unfold workflow_order.
    repeat (apply lookup_insert_Some in Hn as [[<- _]|[_ Hn]];
            [set_solver|]).
    by rewrite lookup_empty in Hn.
Qed.

Lemma review_wired_wiring registry g g' :
  same_wiring g g' →
  review_wired registry keys_in_order list_ge g →
  review_wired registry keys_in_order list_ge g'.
Proof.
  intros Hw (He & Hk & Honly). pose proof Hw as (Hedges & Hentry & _).
  split; [congruence|]. split.
  - intros stage key Hs.
    destruct (Hk stage key Hs) as (Hedge & node & Hn & Hname & Hf).
    split; [congruence|].
    pose proof (same_wiring_lookup g g' key Hw) as E. rewrite Hn in E.
    destruct (nodes g' !! key) as [node'|]; [|done].
    exists node'. injection E as E1 E2. split; [done|]. split; congruence.
  - intros key Hin. apply Honly. rewrite <-elem_of_dom in *.
    by rewrite (same_wiring_dom g g').
Qed.

Lemma truthy_flag_kept h (s : positive) d o :
  dict_at h s = Some d →
  truthy h (get d "loop_continue" (VBool false)) = false →
  truthy (<[s := o]> h) (get d "loop_continue" (VBool false)) = false.
Proof.
  intros Hd%dict_at_Some Ht.
  destruct (get d "loop_continue" (VBool false)) as [| | | |l] eqn:E;
    try done.
  cbn in *. destruct (decide (s = l)) as [<-|]; [|by rewrite lookup_insert_ne].
  rewrite Hd in Ht. apply negb_false_iff, bool_decide_eq_true in Ht.
  subst d. unfold get in E. by rewrite lookup_empty in E.
Qed.

Lemma registry_has_tools :
  ToolRegistry.get tool_registry "check_complexity" = Got check_complexity
  ∧ ToolRegistry.get tool_registry "detect_smells" = Got detect_smells
  ∧ ToolRegistry.get tool_registry "calculate_quality_score"
    = Got calculate_quality_score.
Proof. by repeat split. Qed.

Ltac other_keys :=
  unfold get;
  rewrite ?lookup_insert_ne by done; rewrite ?lookup_insert_eq; try done.

(** Each node before [check_threshold], run on the state of its stage,
    returns the state of the next stage. *)
Lemma stage_step code t met stage seen h (s : positive) :
  stage < 5 → reviewing code t met stage seen h s →
  ∃ h1, stage_func tool_registry keys_in_order list_ge stage h s
        = (h1, Returns s)
        ∧ reviewing code t met (S stage) seen h1 s.
Proof.
  intros Hstage (d & Hd & Hcode & Hthr & Hflag & Hcs & Hissues & Hq & Hseen).
  pose proof Hd as Hs%dict_at_Some.
  destruct stage as [|[|[|[|[|]]]]]; [| | | | |lia]; cbn [stage_func].
  - (* extract_functions *)
    unfold extract_functions. rewrite (dict_of_state h s d) by done.
    rewrite Hcode. cbn [count]. eexists. split; [reflexivity|].
    eexists. split; [apply dict_at_insert_eq|].
    split; [by other_keys|]. split; [by other_keys|].
    split; [other_keys; by apply truthy_flag_kept|].
    split; [lia|]. split; [lia|].
    split; [intros Hc; other_keys; apply Hq; destruct Hc; [lia|by right]|].
    intros Hc. other_keys. by apply Hseen.
  - (* check_complexity_node *)
    unfold check_complexity_node. rewrite (dict_of_state h s d) by done.
    rewrite Hcode. rewrite (proj1 registry_has_tools).
    rewrite check_complexity_str. unfold update_with.
    rewrite (dict_of_state h s d) by done.
    rewrite <-insert_union_singleton_l.
    eexists. split; [reflexivity|].
    eexists. split; [apply dict_at_insert_eq|].
    split; [by other_keys|]. split; [by other_keys|].
    split; [other_keys; by apply truthy_flag_kept|].
    split; [intros _; by other_keys|]. split; [lia|].
    split; [intros Hc; other_keys; apply Hq; destruct Hc; [lia|by right]|].
    intros Hc. other_keys. by apply Hseen.
  - (* detect_issues_node *)
    unfold detect_issues_node. rewrite (dict_of_state h s d) by done.
    rewrite Hcode. rewrite (proj1 (proj2 registry_has_tools)).
    rewrite detect_smells_str. unfold update_with.
    assert (s ≠ fresh (dom h)) as Hfresh.
    { intros E. apply (is_fresh (dom h)). rewrite <-E.
      apply elem_of_dom. eauto. }
    rewrite (dict_of_state _ s d)
      by (by rewrite dict_at_insert_ne).
    rewrite <-insert_union_l, <-insert_union_singleton_l.
    eexists. split; [reflexivity|].
    eexists. split; [apply dict_at_insert_eq|].
    split; [by other_keys|]. split; [by other_keys|].
    split.
    { other_keys. apply truthy_flag_kept; [by rewrite dict_at_insert_ne|].
      apply truthy_insert_fresh; [|done]. apply not_elem_of_dom, is_fresh. }
    split; [intros _; other_keys; apply Hcs; lia|].
    split.
    { intros _. split; [by other_keys|]. eexists. split; [by other_keys|].
      rewrite lookup_insert_ne by done. apply lookup_insert_eq. }
    split; [intros Hc; other_keys; apply Hq; destruct Hc; [lia|by right]|].
    intros Hc. other_keys. by apply Hseen.
  - (* suggest_improvements *)
    unfold suggest_improvements. rewrite (dict_of_state h s d) by done.
    destruct Hissues as (Hcount & l & Hl & Hlist); [lia|].
    rewrite Hl. cbn [iterate]. rewrite Hlist. cbn [mbind may_bind].
    destruct (suggest_strings h (smells code) []) as [out ->].
    assert (s ≠ fresh (dom h)) as Hfresh.
    { intros E. apply (is_fresh (dom h)). rewrite <-E.
      apply elem_of_dom. eauto. }
    eexists. split; [reflexivity|].
    eexists. split; [apply dict_at_insert_eq|].
    split; [by other_keys|]. split; [by other_keys|].
    split.
    { other_keys. apply truthy_flag_kept; [by rewrite dict_at_insert_ne|].
      apply truthy_insert_fresh; [|done]. apply not_elem_of_dom, is_fresh. }
    split; [intros _; other_keys; apply Hcs; lia|].
    split.
    { intros _. split; [by other_keys|]. exists l. split; [by other_keys|].
      rewrite !lookup_insert_ne; [done| |].
      - intros E. apply (is_fresh (dom h)). rewrite E.
        apply elem_of_dom. eauto.
      - intros ->. rewrite Hs in Hlist. done. }
    split; [intros Hc; other_keys; apply Hq; destruct Hc; [lia|by right]|].
    intros Hc. other_keys. by apply Hseen.
  - (* calculate_quality *)
    unfold calculate_quality. rewrite (proj2 (proj2 registry_has_tools)).
    destruct Hissues as (Hcount & l & Hl & Hlist); [lia|].
    assert (calculate_quality_score h (VRef s)
            = (h, Got {[ "quality_score" := VInt (quality code) ]})) as ->.
    { unfold calculate_quality_score. rewrite (dict_of_state h s d) by done.
      cbn [mbind may_bind]. unfold get at 1 2. rewrite Hcount, Hcs by lia.
      reflexivity. }
    unfold update_with. rewrite (dict_of_state h s d) by done.
    rewrite <-insert_union_singleton_l.
    eexists. split; [reflexivity|].
    eexists. split; [apply dict_at_insert_eq|].
    split; [by other_keys|]. split; [by other_keys|].
    split; [other_keys; by apply truthy_flag_kept|].
    split; [intros _; other_keys; apply Hcs; lia|].
    split.
    { intros _. split; [by other_keys|]. exists l. split; [by other_keys|].
      rewrite lookup_insert_ne; [done|]. intros ->. rewrite Hs in Hlist. done. }
    split; [intros _; by other_keys|].
    intros Hc. other_keys. by apply Hseen.
Qed.

Lemma route_static g h (s : positive) key :
  (∀ b, edges g !! key = Some b →
        negb (String.eqb b "") && startswith b "if_" = false) →
  route g h s key = Some (h, Ok (of_optional (edges g !! key))).
Proof.
  unfold route, get_next_node. destruct (edges g !! key) as [b|]; [|done].
  intros H. by rewrite (H b eq_refl).
Qed.

Lemma run_body_static g h L key node h1 (s1 : positive) d1 :
  current_node_name L = VStr key → nodes g !! key = Some node →
  func node h (state L) = (h1, Returns s1) → dict_at h1 s1 = Some d1 →
  (∀ b, edges g !! key = Some b →
        negb (String.eqb b "") && startswith b "if_" = false) →
  truthy h1 (get d1 "loop_continue" (VBool false)) = false →
  run_body g h L =
    (set_nodes (<[key := set_status COMPLETED node]> (nodes g)) g, h1,
     with_current (of_optional (edges g !! key)) (after_node L key s1 d1),
     match edges g !! key with
     | Some _ => Continue
     | None => Break
     end).
Proof.
  intros Hc Hn Hf Hd Hedge Hflag.
  rewrite (run_body_returns g h L key node h1 s1 d1) by done. cbn zeta.
  rewrite route_static by done. unfold loop_override.
  cbn [state with_current after_node]. rewrite Hd. cbn [mbind option_bind].
  rewrite Hflag. cbn [current_node_name with_current].
  by destruct (edges g !! key).
Qed.

Lemma workflow_names_plain stage key b :
  workflow_order !! stage = Some key → workflow_order !! S stage = Some b →
  negb (String.eqb b "") && startswith b "if_" = false.
Proof.
  intros _ Hb.
  do 6 (destruct stage as [|stage]; [cbn in Hb; by simplify_eq|]).
  done.
Qed.

Lemma workflow_names_truthy h stage key :
  workflow_order !! stage = Some key → truthy h (VStr key) = true.
Proof.
  intros Hk.
  do 6 (destruct stage as [|stage]; [cbn in Hk; by simplify_eq|]).
  done.
Qed.

(** [check_threshold] on the state of its stage. *)
Lemma threshold_step code t tz met seen h (s : positive) :
  number t = Some tz → met = (tz <=? quality code)%Z →
  reviewing code t met 5 seen h s →
  ∃ d h1 d1,
    dict_at h s = Some d
    ∧ check_threshold list_ge h s = (h1, Returns s)
    ∧ h1 = <[s := ODict d1]> h
    ∧ d1 = (if met
            then <["loop_continue" := VBool false]>
                   (<["quality_met" := VBool true]> d)
            else <["loop_node" := VStr "suggest_improvements"]>
                   (<["loop_continue" := VBool true]>
                      (<["quality_met" := VBool false]> d))).
Proof.
  intros Ht -> (d & Hd & Hcode & Hthr & Hflag & Hcs & Hissues & Hq & Hseen).
  unfold check_threshold. rewrite (dict_of_state h s d) by done.
  unfold get at 1. rewrite Hq by (left; lia). cbn [default from_option id].
  rewrite Hthr. unfold ge. cbn [number]. rewrite Ht.
  exists d. destruct (tz <=? quality code)%Z;
    (eexists _, _; split; [done|]; split; [reflexivity|]; split; reflexivity).
Qed.

Lemma review_walk code t tz met :
  number t = Some tz → met = (tz <=? quality code)%Z →
  ∀ fuel stage seen g h L,
    review_wired tool_registry keys_in_order list_ge g →
    stage < 6 → (seen = true → 3 ≤ stage) →
    current_node_name L = VStr (default "" (workflow_order !! stage)) →
    reviewing code t met stage seen h (state L) → log_wf L →
    max_iterations ≤ iteration L + fuel →
    let r := run_loop fuel g h L in
    res_outcome r = Returned (state (res_locals r))
                      (execution_log (res_locals r))
    ∧ log_node <$> trace r
      = (log_node <$> trace_of L)
        ++ schedule met stage (max_iterations - iteration L)
    ∧ log_wf (res_locals r)
    ∧ (seen = true ∨ iteration L + (6 - stage) ≤ max_iterations →
       ∃ stage', 3 ≤ stage'
         ∧ reviewing code t met stage' true (res_heap r) (state (res_locals r))).
Proof.
  intros Ht Hmet fuel.
  induction fuel as [|fuel IH];
    intros stage seen g h L Hg Hstage Hseen3 Hcur Hrev Hwf Hfuel; cbn zeta.
  all: destruct (decide (max_iterations ≤ iteration L)) as [Hend|Hgo];
    [|try lia].
  1,2: rewrite run_loop_exit by (by right); cbn [res_outcome res_locals];
    unfold trace; cbn [res_locals res_heap];
    replace (max_iterations - iteration L) with 0 by lia;
    cbn [schedule]; rewrite app_nil_r;
    (split; [done|]); (split; [done|]); (split; [done|]);
    intros [->|?]; [|lia]; exists stage; split; [by apply Hseen3|done].
  destruct (workflow_order !! stage) as [key|] eqn:Hkey.
  2:{ apply lookup_ge_None in Hkey. cbn in Hkey. lia. }
  cbn [default from_option id] in Hcur.
  destruct Hg as (Hentry & Hnodes & Honly).
  destruct (Hnodes stage key Hkey) as (Hedge & node & Hn & Hname & Hf).
  rewrite run_loop_enter
    by (rewrite ?Hcur; eauto using workflow_names_truthy; lia).
  set (g1 := set_nodes (<[key := set_status COMPLETED node]> (nodes g)) g).
  assert (same_wiring g g1) as Hw
    by (by apply (same_wiring_set_node _ _ node)).
  pose proof (review_wired_wiring tool_registry _ _ Hw
                (conj Hentry (conj Hnodes Honly)))
    as Hg1.
  replace (max_iterations - iteration L)
    with (S (max_iterations - S (iteration L))) by lia.
  cbn [schedule]. rewrite Hkey. cbn [default].
  destruct (decide (stage < 5)) as [Hlt|Hlast].
  - (* a node of the chain *)
    destruct (stage_step code t met stage seen h (state L) Hlt Hrev)
      as (h1 & Hrun & Hrev1).
    pose proof Hrev1 as (d1 & Hd1 & _ & _ & Hflag1 & _).
    rewrite <-Hf in Hrun.
    rewrite (run_body_static g h L key node h1 (state L) d1); try done.
    2:{ intros b Hb. rewrite Hedge in Hb.
        by apply (workflow_names_plain stage key b). }
    rewrite Hedge.
    destruct (workflow_order !! S stage) as [next|] eqn:Hnext.
    2:{ apply lookup_ge_None in Hnext. cbn in Hnext. lia. }
    cbn [of_optional].
    rewrite (proj2 (Nat.ltb_lt _ _) Hlt).
    edestruct (IH (S stage) seen g1 h1
                 (with_current (VStr next) (after_node L key (state L) d1)))
      as (Hout & Htrace & Hwf' & Hfinal).
    + exact Hg1.
    + lia.
    + intros Hs. specialize (Hseen3 Hs). lia.
    + cbn [current_node_name with_current]. by rewrite Hnext.
    + exact Hrev1.
    + by apply log_wf_after_node.
    + cbn. lia.
    + cbn zeta in Hout, Htrace, Hwf', Hfinal. subst g1.
      split; [exact Hout|]. split.
      { rewrite Htrace, trace_of_after_node by done.
        rewrite fmap_app, <-app_assoc. done. }
      split; [exact Hwf'|]. intros Hc. apply Hfinal.
      destruct Hc; [by left|right; cbn; lia].
  - (* check_threshold *)
    assert (stage = 5) as -> by lia. injection Hkey as <-.
    cbn [stage_func] in Hf.
    change (workflow_order !! 6) with (@None string) in Hedge.
    destruct (threshold_step code t tz met seen h (state L) Ht Hmet Hrev)
      as (d & h1 & d1 & Hd & Hrun & -> & Hd1).
    destruct Hrev as (d' & Hd' & Hcode & Hthr & Hflag & Hcs & Hissues & Hq & _).
    assert (d' = d) as -> by congruence.
    destruct Hissues as (Hcount & l & Hl & Hlist); [lia|].
    assert (l ≠ state L) as Hlne.
    { intros ->. apply dict_at_Some in Hd. rewrite Hd in Hlist. done. }
    rewrite <-Hf in Hrun. cbn [Nat.ltb Nat.leb].
    clear Hmet. destruct met.
    + (* met: the run ends *)
      rewrite (run_body_static g h L "check_threshold" node
                 (<[state L := ODict d1]> h) (state L) d1);
        try done.
      2:{ apply dict_at_insert_eq. }
      2:{ intros b Hb. by rewrite Hedge in Hb. }
      2:{ subst d1. unfold get. by rewrite lookup_insert_eq. }
      rewrite Hedge. cbn [of_optional]. cbn [res_outcome res_locals].
      unfold trace. cbn [res_locals res_heap].
      split; [done|]. split.
      { rewrite trace_of_after_node by done. by rewrite fmap_app. }
      split; [by apply log_wf_after_node|].
      intros _. exists 5. split; [lia|].
      exists d1. cbn [state with_current after_node].
      split; [apply dict_at_insert_eq|]. subst d1.
      split; [by other_keys|]. split; [by other_keys|].
      split; [by other_keys|].
      split; [intros _; other_keys; apply Hcs; lia|].
      split.
      { intros _. split; [by other_keys|]. exists l. split; [by other_keys|].
        by rewrite lookup_insert_ne. }
      split; [intros _; other_keys; apply Hq; left; lia|].
      intros _. split; by other_keys.
    + (* not met: round the loop *)
      rewrite (run_body_loop_override g h L "check_threshold" node
                 (<[state L := ODict d1]> h) (state L) d1
                 (<[state L := ODict d1]> h) VNone d1); try done.
      2:{ apply dict_at_insert_eq. }
      2:{ rewrite route_static by (intros b Hb; by rewrite Hedge in Hb).
          by rewrite Hedge. }
      2:{ apply dict_at_insert_eq. }
      2:{ subst d1. by other_keys. }
      assert (get d1 "loop_node" (of_optional (entry_node g))
              = VStr "suggest_improvements") as ->
        by (subst d1; by other_keys).
      rewrite insert_insert_eq.
      edestruct (IH 3 true g1
                   (<[state L := ODict (<["loop_continue" := VBool false]> d1)]> h)
                   (with_current (VStr "suggest_improvements")
                      (after_node L "check_threshold" (state L) d1)))
        as (Hout & Htrace & Hwf' & Hfinal).
      * exact Hg1.
      * lia.
      * done.
      * done.
      * exists (<["loop_continue" := VBool false]> d1).
        cbn [state with_current after_node].
        split; [apply dict_at_insert_eq|]. subst d1.
        split; [by other_keys|]. split; [by other_keys|].
        split; [by other_keys|].
        split; [intros _; other_keys; apply Hcs; lia|].
        split.
        { intros _. split; [by other_keys|]. exists l.
          split; [by other_keys|]. by rewrite lookup_insert_ne. }
        split; [intros _; other_keys; apply Hq; left; lia|].
        intros _. split; by other_keys.
      * by apply log_wf_after_node.
      * cbn. lia.
      * cbn zeta in Hout, Htrace, Hwf', Hfinal. subst g1.
        split; [exact Hout|]. split.
        { rewrite Htrace, trace_of_after_node by done.
          rewrite fmap_app, <-app_assoc. done. }
        split; [exact Hwf'|]. intros _. apply Hfinal. by left.
Qed.

Lemma reviewing_copy code t met h (l0 : positive) d0 :
  dict_at h l0 = Some d0 →
  get d0 "code" (VStr "") = VStr code →
  get d0 "threshold" (VInt 70) = t →
  truthy h (get d0 "loop_continue" (VBool false)) = false →
  reviewing code t met 0 false (<[fresh (dom h) := ODict d0]> h)
    (fresh (dom h)).
Proof.
  intros Hd Hcode Hthr Hflag. exists d0.
  split; [apply dict_at_insert_eq|]. split; [done|]. split; [done|].
  split; [apply truthy_insert_fresh; [apply not_elem_of_dom, is_fresh|done]|].
  split; [lia|]. split; [lia|]. split; [intros [?|?]; [lia|done]|done].
Qed.

(** X17: a run of the example workflow on a string whose score meets the
    threshold executes the six nodes once each, in the order of the
    edges, and returns a state with [quality_met] true, the score, and
    no loop request. *)
Theorem review_run_threshold_met
    g h (initial_state : positive) d0 (code : string) threshold limit :
  create_code_review_workflow tool_registry keys_in_order list_ge = Ok g →
  dict_at h initial_state = Some d0 →
  get d0 "code" (VStr "") = VStr code →
  get d0 "threshold" (VInt 70) = threshold → number threshold = Some limit →
  truthy h (get d0 "loop_continue" (VBool false)) = false →
  (limit ≤ quality code)%Z →
  let r := run g h initial_state in
  ∃ s log d,
    res_outcome r = Returned s log
    ∧ log_node <$> trace r = workflow_order
    ∧ dict_at (res_heap r) s = Some d
    ∧ d !! "quality_met" = Some (VBool true)
    ∧ d !! "quality_score" = Some (VInt (quality code))
    ∧ d !! "loop_continue" = Some (VBool false)
    ∧ d !! "complexity_score" = Some (VInt (complexity code))
    ∧ d !! "issue_count" = Some (VInt (Z.of_nat (length (smells code)))).
Proof.
  intros Hg Hd Hcode Hthr Hnum Hflag Hmet. cbn zeta.
  apply review_wired_built in Hg. pose proof Hg as (Hentry & _).
  unfold run. rewrite Hentry, Hd. cbn zeta.
  destruct (review_walk code threshold limit true Hnum
              (eq_sym (proj2 (Z.leb_le _ _) Hmet))
              max_iterations 0 false g (<[fresh (dom h) := ODict d0]> h)
              (run_init "extract_functions" (fresh (dom h))))
    as (Hout & Htrace & _ & Hfinal);
    [done|lia|done|done|by apply (reviewing_copy code threshold true h initial_state)
    |apply run_init_wf|cbn; lia|].
  cbn zeta in Hout, Htrace, Hfinal.
  destruct Hfinal as (stage & Hstage & d & Hdict & _ & _ & _ & Hcs & Hissues
                      & Hq & Hseen); [right; unfold max_iterations; cbn; lia|].
  destruct (Hseen eq_refl) as [Hm Hl].
  destruct (Hissues Hstage) as [Hcount _].
  eexists _, _, d. split; [exact Hout|]. split; [exact Htrace|].
  split; [exact Hdict|]. split; [exact Hm|].
  split; [apply Hq; by right|]. split; [exact Hl|].
  split; [apply Hcs; lia|exact Hcount].
Qed.

(** X18: a run of the example workflow, started on a state that asks for
    no loop ([loop_continue] missing or not true), on a string whose
    score is below the threshold (an integer or a boolean, 70 when
    missing), never meets it: after the six nodes it goes round
    [suggest_improvements], [calculate_quality], [check_threshold]
    with the same score, until the hundredth pass ends the run; the
    state it returns has [quality_met] false. *)
Theorem review_run_threshold_missed
    g h (initial_state : positive) d0 (code : string) threshold limit :
  create_code_review_workflow tool_registry keys_in_order list_ge = Ok g →
  dict_at h initial_state = Some d0 →
  get d0 "code" (VStr "") = VStr code →
  get d0 "threshold" (VInt 70) = threshold → number threshold = Some limit →
  truthy h (get d0 "loop_continue" (VBool false)) = false →
  (quality code < limit)%Z →
  let r := run g h initial_state in
  ∃ s log d,
    res_outcome r = Returned s log
    ∧ log_node <$> trace r
      = workflow_order ++ concat (replicate 31 loop_order)
        ++ ["suggest_improvements"]
    ∧ length (trace r) = max_iterations
    ∧ dict_at (res_heap r) s = Some d
    ∧ d !! "quality_met" = Some (VBool false)
    ∧ d !! "quality_score" = Some (VInt (quality code))
    ∧ d !! "loop_continue" = Some (VBool false).
Proof.
  intros Hg Hd Hcode Hthr Hnum Hflag Hmet. cbn zeta.
  apply review_wired_built in Hg. pose proof Hg as (Hentry & _).
  unfold run. rewrite Hentry, Hd. cbn zeta.
  destruct (review_walk code threshold limit false Hnum
              (eq_sym (proj2 (Z.leb_gt _ _) Hmet))
              max_iterations 0 false g (<[fresh (dom h) := ODict d0]> h)
              (run_init "extract_functions" (fresh (dom h))))
    as (Hout & Htrace & _ & Hfinal);
    [done|lia|done|done|by apply (reviewing_copy code threshold false h initial_state)
    |apply run_init_wf|cbn; lia|].
  cbn zeta in Hout, Htrace, Hfinal.
  destruct Hfinal as (stage & Hstage & d & Hdict & _ & _ & _ & Hcs & Hissues
                      & Hq & Hseen); [right; unfold max_iterations; cbn; lia|].
  destruct (Hseen eq_refl) as [Hm Hl].
  assert (schedule false 0 (max_iterations - 0)
          = workflow_order ++ concat (replicate 31 loop_order)
            ++ ["suggest_improvements"]) as Hsched by (by vm_compute).
  cbn [iteration run_init] in Htrace. rewrite Hsched in Htrace.
  eexists _, _, d. split; [exact Hout|]. split; [exact Htrace|].
  split.
  { rewrite <-(length_fmap log_node), Htrace. by vm_compute. }
  split; [exact Hdict|]. split; [exact Hm|].
  split; [apply Hq; by right|exact Hl].
Qed.

(** The chain, walked for [n] nodes, none of them [check_threshold]. *)
Lemma review_walk_chain code t met seen n :
  ∀ stage fuel g h L,
    stage + n ≤ 5 →
    review_wired tool_registry keys_in_order list_ge g →
    current_node_name L = VStr (default "" (workflow_order !! stage)) →
    reviewing code t met stage seen h (state L) → log_wf L →
    iteration L + n < max_iterations →
    ∃ g' h' L' entries,
      run_loop (n + fuel) g h L = run_loop fuel g' h' L'
      ∧ review_wired tool_registry keys_in_order list_ge g'
      ∧ current_node_name L'
        = VStr (default "" (workflow_order !! (stage + n)))
      ∧ reviewing code t met (stage + n) seen h' (state L') ∧ log_wf L'
      ∧ iteration L' = iteration L + n
      ∧ trace_of L' = trace_of L ++ entries
      ∧ log_node <$> entries = take n (drop stage workflow_order)
      ∧ log_status <$> entries = replicate n "completed"
      ∧ log_error <$> entries = replicate n None.
Proof.
  induction n as [|n IH]; intros stage fuel g h L Hn Hg Hcur Hrev Hwf Hit.
  - exists g, h, L, []. rewrite !Nat.add_0_r, app_nil_r. done.
  - destruct (workflow_order !! stage) as [key|] eqn:Hkey.
    2:{ apply lookup_ge_None in Hkey. cbn in Hkey. lia. }
    cbn [default from_option id] in Hcur.
    destruct Hg as (Hentry & Hnodes & Honly).
    destruct (Hnodes stage key Hkey) as (Hedge & node & Hnode & Hname & Hf).
    cbn [Nat.add].
    rewrite run_loop_enter
      by (rewrite ?Hcur; eauto using workflow_names_truthy; lia).
    set (g1 := set_nodes (<[key := set_status COMPLETED node]> (nodes g)) g).
    assert (same_wiring g g1) as Hw
      by (by apply (same_wiring_set_node _ _ node)).
    pose proof (review_wired_wiring tool_registry _ _ Hw
                (conj Hentry (conj Hnodes Honly)))
      as Hg1.
    destruct (stage_step code t met stage seen h (state L) ltac:(lia) Hrev)
      as (h1 & Hrun & Hrev1).
    pose proof Hrev1 as (d1 & Hd1 & _ & _ & Hflag1 & _).
    rewrite <-Hf in Hrun.
    rewrite (run_body_static g h L key node h1 (state L) d1); try done.
    2:{ intros b Hb. rewrite Hedge in Hb.
        by apply (workflow_names_plain stage key b). }
    rewrite Hedge.
    destruct (workflow_order !! S stage) as [next|] eqn:Hnext.
    2:{ apply lookup_ge_None in Hnext. cbn in Hnext. lia. }
    cbn [of_optional].
    destruct (IH (S stage) fuel g1 h1
                (with_current (VStr next) (after_node L key (state L) d1)))
      as (g' & h' & L' & entries & Hloop & Hg' & Hcur' & Hrev' & Hwf' & Hit'
          & Htrace & Hnames & Hstatus & Herror).
    + lia.
    + exact Hg1.
    + cbn [current_node_name with_current]. by rewrite Hnext.
    + exact Hrev1.
    + by apply log_wf_after_node.
    + cbn. lia.
    + exists g', h', L', (completed_entry key (S (iteration L)) d1 :: entries).
      replace (stage + S n) with (S stage + n) by lia.
      split; [exact Hloop|]. split; [exact Hg'|]. split; [exact Hcur'|].
      split; [exact Hrev'|]. split; [exact Hwf'|].
      split; [rewrite Hit'; cbn; lia|].
      split.
      { rewrite Htrace, trace_of_after_node by done.
        by rewrite <-app_assoc. }
      split.
      { cbn [fmap list_fmap]. rewrite Hnames.
        rewrite (drop_S _ key stage Hkey). done. }
      cbn [fmap list_fmap replicate]. by rewrite Hstatus, Herror.
Qed.

(** X19: started on a state that asks for no loop ([loop_continue]
    missing or not true), with a string for [code] and a threshold
    that is [None], a string, a list or a dictionary, the comparison
    in [check_threshold] raises: the run fails at its sixth pass, the
    five nodes before it completed. *)
Theorem review_run_threshold_unordered
    g h (initial_state : positive) d0 (code : string) threshold :
  create_code_review_workflow tool_registry keys_in_order list_ge = Ok g →
  dict_at h initial_state = Some d0 →
  get d0 "code" (VStr "") = VStr code →
  get d0 "threshold" (VInt 70) = threshold → number threshold = None →
  truthy h (get d0 "loop_continue" (VBool false)) = false →
  let r := run g h initial_state in
  ∃ msg,
    res_outcome r = Raised (Exception msg)
    ∧ log_node <$> trace r = workflow_order ++ ["check_threshold"]
    ∧ log_status <$> trace r = replicate 5 "completed" ++ ["failed"; "failed"]
    ∧ log_error <$> trace r = replicate 5 None ++ [Some msg; Some msg]
    ∧ iteration (res_locals r) = 6.
Proof.
  intros Hg Hd Hcode Hthr Hnum Hflag. cbn zeta.
  apply review_wired_built in Hg. pose proof Hg as (Hentry & _).
  unfold run. rewrite Hentry, Hd. cbn zeta.
  destruct (review_walk_chain code threshold false false 5 0 95 g
              (<[fresh (dom h) := ODict d0]> h)
              (run_init "extract_functions" (fresh (dom h))))
    as (g' & h' & L' & entries & Hloop & Hg' & Hcur' & Hrev' & Hwf' & Hit'
        & Htrace & Hnames & Hstatus & Herror);
    [lia|done|done
    |by apply (reviewing_copy code threshold false h initial_state)
    |apply run_init_wf|unfold max_iterations; cbn; lia|].
  change (run_loop max_iterations) with (run_loop (5 + 95)).
  rewrite Hloop. clear Hloop.
  cbn [Nat.add default from_option id lookup] in Hcur'.
  change (workflow_order !! 5) with (Some "check_threshold") in Hcur'.
  cbn [default from_option id] in Hcur'.
  destruct Hg' as (_ & Hnodes & _).
  destruct (Hnodes 5 "check_threshold" eq_refl)
    as (_ & node & Hnode & _ & Hf).
  cbn [stage_func] in Hf.
  destruct Hrev' as (d & Hd' & _ & Hthr' & _ & _ & _ & Hq & _).
  assert (∃ msg, check_threshold list_ge h' (state L') = (h', Raises msg))
    as [msg Hraise].
  { unfold check_threshold. rewrite (dict_of_state h' _ d) by done.
    unfold get at 1. rewrite Hq by (left; cbn; lia).
    cbn [default from_option id]. rewrite Hthr'. unfold ge.
    cbn [number]. rewrite Hnum. eexists. reflexivity. }
  rewrite <-Hf in Hraise.
  change 95 with (S 94).
  rewrite run_loop_enter
    by (rewrite ?Hcur', ?Hit';
        first [done | unfold max_iterations; cbn; lia]).
  rewrite (run_body_raises g' h' L' "check_threshold" node h' msg) by done.
  exists msg. unfold trace. cbn [res_outcome res_locals].
  rewrite trace_of_after_failure, Htrace by done.
  cbn [trace_of run_init execution_log omap app].
  split; [done|].
  rewrite !fmap_app, Hnames, Hstatus, Herror.
  split; [done|]. split; [done|]. split; [done|]. cbn. by rewrite Hit'.
Qed.

(** X20: with a [code] that is neither a string nor a list (a number,
    [None], a dictionary), the first node raises: the run fails at its
    first pass, and has changed nothing but its own copy of the
    state. *)
Theorem review_run_code_not_a_sequence g h (initial_state : positive) d0 :
  create_code_review_workflow tool_registry keys_in_order list_ge = Ok g →
  dict_at h initial_state = Some d0 →
  ¬ is_sequence h (get d0 "code" (VStr "")) →
  let r := run g h initial_state in
  ∃ msg,
    res_outcome r = Raised (Exception msg)
    ∧ trace r = [failed_entry "extract_functions" 1 msg;
                 failed_entry "extract_functions" 1 msg]
    ∧ res_heap r = <[fresh (dom h) := ODict d0]> h.
Proof.
  intros Hg Hd Hcode. cbn zeta.
  apply review_wired_built in Hg. destruct Hg as (Hentry & Hnodes & Honly).
  destruct (Hnodes 0 "extract_functions" eq_refl)
    as (_ & node & Hnode & _ & Hf).
  cbn [stage_func] in Hf.
  unfold run. rewrite Hentry, Hd. cbn zeta.
  set (h0 := <[fresh (dom h) := ODict d0]> h).
  assert (∃ msg, extract_functions h0 (fresh (dom h)) = (h0, Raises msg))
    as [msg Hraise].
  { unfold extract_functions.
    rewrite (dict_of_state h0 _ d0) by apply dict_at_insert_eq.
    destruct (get d0 "code" (VStr "")) as [| | |c|l];
      [by eexists|by eexists|by eexists|by destruct Hcode|].
    cbn [count]. unfold h0.
    destruct (decide (l = fresh (dom h))) as [->|Hne].
    - rewrite lookup_insert_eq. by eexists.
    - rewrite lookup_insert_ne by done. cbn in Hcode.
      destruct (h !! l) as [[|xs]|]; try by eexists.
      destruct Hcode. eauto. }
  rewrite <-Hf in Hraise.
  change (run_loop max_iterations) with (run_loop (S 99)).
  rewrite run_loop_enter by (cbn; unfold max_iterations; done || lia).
  rewrite (run_body_raises g h0 _ "extract_functions" node h0 msg) by done.
  exists msg. unfold trace. cbn [res_outcome res_locals res_heap].
  rewrite trace_of_after_failure by apply run_init_wf. done.
Qed.

Lemma tools_keep_heap h v :
  (check_complexity h v).1 = h ∧ (calculate_quality_score h v).1 = h
  ∧ ((detect_smells h v).1 = h
     ∨ ∃ xs, (detect_smells h v).1 = <[fresh (dom h) := OList xs]> h).
Proof.
  split; [|split].
  - unfold check_complexity. by case_match.
  - unfold calculate_quality_score. by case_match.
  - unfold detect_smells. case_match; [right; eauto|by left].
Qed.

Lemma update_with_in_place h (s : positive) h1 r :
  (∀ l, is_Some (h !! l) → h1 !! l = h !! l) →
  (∀ l, l ≠ s → is_Some (h !! l) → (update_with h s (h1, r)).1 !! l = h !! l)
  ∧ (∀ s', (update_with h s (h1, r)).2 = Returns s' → s' = s).
Proof.
  intros Hh. unfold update_with, raises.
  destruct r as [result|e]; [|split; [intros; by apply Hh|done]].
  destruct (dict_of h1 (VRef s) "update"); cbn.
  - split; [|by intros ? [= <-]]. intros l Hl Hsome.
    rewrite lookup_insert_ne by done. by apply Hh.
  - split; [intros; by apply Hh|done].
Qed.

(** Every node function of the example workflow works in place. *)
Lemma stage_in_place stage :
  in_place (stage_func tool_registry keys_in_order list_ge stage).
Proof.
  intros h s.
  destruct stage as [|[|[|[|[|]]]]]; cbn [stage_func].
  - unfold extract_functions, raises. repeat case_match; cbn;
      (split; [|by intros ? [= <-]]); intros l Hl Hsome; try done.
    by rewrite lookup_insert_ne.
  - unfold check_complexity_node, raises.
    rewrite (proj1 registry_has_tools).
    destruct (dict_of h (VRef s) "get"); [|by split].
    destruct (check_complexity h _) as [h1 r] eqn:E.
    apply update_with_in_place. intros l _.
    pose proof (proj1 (tools_keep_heap h (get a "code" (VStr "")))) as H.
    rewrite E in H. cbn in H. by subst.
  - unfold detect_issues_node, raises.
    rewrite (proj1 (proj2 registry_has_tools)).
    destruct (dict_of h (VRef s) "get"); [|by split].
    destruct (detect_smells h _) as [h1 r] eqn:E.
    apply update_with_in_place. intros l Hl.
    pose proof (proj2 (proj2 (tools_keep_heap h (get a "code" (VStr "")))))
      as H.
    rewrite E in H. cbn in H. destruct H as [->|[xs ->]]; [done|].
    by apply fresh_insert_kept.
  - unfold suggest_improvements, raises.
    destruct (dict_of h (VRef s) "get"); [|by split].
    destruct (_ ≫= _); cbn; [|by split].
    split; [|by intros ? [= <-]]. intros l Hl Hsome.
    rewrite lookup_insert_ne by done. by apply fresh_insert_kept.
  - unfold calculate_quality, raises.
    rewrite (proj2 (proj2 registry_has_tools)).
    destruct (calculate_quality_score h _) as [h1 r] eqn:E.
    apply update_with_in_place. intros l _.
    pose proof (proj1 (proj2 (tools_keep_heap h (VRef s)))) as H.
    rewrite E in H. cbn in H. by subst.
  - unfold check_threshold, raises.
    destruct (dict_of h (VRef s) "get"); [|by split].
    destruct (ge list_ge h _ _) as [[]|]; cbn;
      (split; [|by intros ? [= <-]]); intros l Hl Hsome; try done;
      by rewrite lookup_insert_ne.
Qed.

(** X21: a run of the example workflow, whatever the state it is started
    on and however it ends, leaves every object the caller holds as it
    was: the caller's state, and the values nested in it. *)
Theorem review_run_leaves_caller_heap g h (initial_state : positive) l :
  create_code_review_workflow tool_registry keys_in_order list_ge = Ok g →
  is_Some (h !! l) →
  res_heap (run g h initial_state) !! l = h !! l.
Proof.
  intros Hg Hl. apply review_wired_built in Hg. destruct Hg as (Hentry & Hnodes & Honly).
  unfold run. rewrite Hentry.
  destruct (dict_at h initial_state) as [d|]; [|done]. cbn zeta.
  rewrite run_loop_in_place.
  - by apply fresh_insert_kept.
  - intros key n Hn.
    pose proof (Honly key (mk_is_Some _ _ Hn)) as Hin.
    apply list_elem_of_lookup in Hin as [stage Hs].
    destruct (Hnodes stage key Hs) as (_ & node & Hnode & _ & Hf).
    assert (node = n) as -> by congruence. rewrite Hf.
    apply stage_in_place.
  - cbn. intros ->. by apply (is_fresh (dom h)), elem_of_dom.
  - by rewrite fresh_insert_kept.
Qed.

Lemma suggest_omap h (issues : list string) suggestions :
  suggest h (VStr <$> issues) suggestions
  = Got (suggestions ++ omap advice issues).
Proof.
  revert suggestions.
  induction issues as [|s issues IH]; intros acc;
    cbn [fmap list_fmap suggest omap list_omap].
  - by rewrite app_nil_r.
  - pose proof (eq_refl (advice s)) as Ha. unfold advice at 2 in Ha.
    destruct (str_contains "too long" (lower s));
      [by rewrite Ha, IH, <-app_assoc|].
    destruct (str_contains "conditionals" (lower s));
      [by rewrite Ha, IH, <-app_assoc|].
    destruct (str_contains "TODO" s); [by rewrite Ha, IH, <-app_assoc|].
    rewrite Ha. apply IH.
Qed.

(** X15: [suggest_improvements] has a suggestion for every issue
    [detect_smells] can report: run on a state whose [issues] are
    some of its messages, it stores a new list [suggestions] with one
    entry for each issue, in the order of the issues, and changes
    nothing else. *)
Theorem every_smell_gets_a_suggestion
    h (state : positive) d (l : positive) (issues : list string) :
  dict_at h state = Some d → d !! "issues" = Some (VRef l) →
  h !! l = Some (OList (VStr <$> issues)) →
  sublist issues smell_messages →
  ∃ suggestions,
    suggest_improvements keys_in_order h state
    = (<[state := ODict (<["suggestions" := VRef (fresh (dom h))]> d)]>
         (<[fresh (dom h) := OList (VStr <$> suggestions)]> h),
       Returns state)
    ∧ Forall2 (λ issue suggestion, advice issue = Some suggestion)
        issues suggestions
    ∧ length suggestions = length issues.
Proof.
  intros Hd Hissues Hl Hsub.
  assert (Forall2 (λ issue suggestion, advice issue = Some suggestion)
            issues (omap advice issues)) as Hall.
  { assert (Forall (λ issue, issue ∈ smell_messages) issues) as Hin.
    { apply Forall_forall. intros x Hx. by apply (elem_of_sublist issues). }
    clear Hsub Hl. induction Hin as [|issue issues Hin _ IH]; [constructor|].
    assert (∃ a, advice issue = Some a) as [a Ha].
    { unfold smell_messages in Hin.
      repeat (apply elem_of_cons in Hin as [->|Hin]; [by eexists|]).
      by apply elem_of_nil in Hin. }
    cbn [omap list_omap]. rewrite Ha. by constructor. }
  exists (omap advice issues).
  unfold suggest_improvements. rewrite (dict_of_state h state d) by done.
  rewrite Hissues. cbn [iterate]. rewrite Hl. cbn [mbind may_bind].
  rewrite suggest_omap. cbn [app].
  split; [done|]. split; [done|]. symmetry. by eapply Forall2_length.
Qed.

(** X16: [create_code_review_workflow] does not raise, whatever the
    registry holds: every edge joins nodes added before it.  The graph
    it returns is the chain of the six nodes from
    [extract_functions], all of them pending. *)
Theorem review_workflow_is_a_chain registry :
  ∃ g, create_code_review_workflow registry keys_in_order list_ge = Ok g
       ∧ graph_id g = "code_review_workflow"
       ∧ chain g workflow_order
       ∧ dom (nodes g) = list_to_set workflow_order
       ∧ (∀ key node, nodes g !! key = Some node →
            name node = key ∧ status node = PENDING)
       ∧ dom (edges g) = list_to_set (take 5 workflow_order).
Proof.
  unfold create_code_review_workflow. cbn [build].
  repeat (rewrite add_edge_Ok;
          [cbn [nodes edges entry_node graph_id add_node init]| |]);
    try (cbn [nodes add_node];
         rewrite ?lookup_insert_ne by done; rewrite lookup_insert_eq; eauto).
  eexists. split; [reflexivity|]. cbn [graph_id nodes edges entry_node].
  split; [done|]. split.
  { split; [done|]. split.
    - unfold workflow_order. repeat constructor; try done;
        cbn [nodes]; rewrite ?lookup_insert_ne by done;
        rewrite lookup_insert_eq; eauto.
    - cbn [linked workflow_order edges head tail].
      by repeat split; rewrite ?lookup_insert_ne by done;
        rewrite ?lookup_insert_eq. }
  split; [rewrite !dom_insert_L, dom_empty_L; set_solver|].
  split; [|rewrite !dom_insert_L, dom_empty_L; set_solver].
  intros key node Hn.
  repeat (apply lookup_insert_Some in Hn as [[<- <-]|[_ Hn]]; [done|]).
  by rewrite lookup_empty in Hn.
Qed.

Lemma update_with_keys h (s : positive) h1 result h' s' (k : string) :
  update_with h s (h1, Got result) = (h', Returns s') →
  result !! k = None →
  ∃ d', s' = s ∧ dict_of h1 (VRef s) "update" = Got d'
        ∧ ∃ d'', dict_at h' s = Some d'' ∧ d'' !! k = d' !! k.
Proof.
  unfold update_with, raises. intros H Hk.
  destruct (dict_of h1 (VRef s) "update") as [d'|]; [|done].
  injection H as <- <-. exists d'. split; [done|]. split; [done|].
  eexists. split; [apply dict_at_insert_eq|].
  by rewrite lookup_union_r.
Qed.

Lemma dict_of_Got h (s : positive) attr d :
  dict_of h (VRef s) attr = Got d → dict_at h s = Some d.
Proof.
  unfold dict_of, dict_at. destruct (h !! s) as [[]|]; congruence.
Qed.

(** The nodes before [check_threshold] leave the loop request of the
    state as they found it. *)
Lemma stage_keeps_request stage h (s : positive) h' s' :
  stage < 5 →
  stage_func tool_registry keys_in_order list_ge stage h s = (h', Returns s') →
  ∃ d d', s' = s ∧ dict_at h s = Some d ∧ dict_at h' s = Some d'
          ∧ d' !! "loop_continue" = d !! "loop_continue"
          ∧ d' !! "loop_node" = d !! "loop_node".
Proof.
  intros Hstage.
  destruct stage as [|[|[|[|[|]]]]]; [| | | | |lia]; cbn [stage_func].
  - unfold extract_functions, raises.
    destruct (dict_of h (VRef s) "get") as [d|] eqn:Hd; [|done].
    destruct (count h _ _); [|done]. intros [= <- <-].
    exists d. eexists. split; [done|]. split; [by apply dict_of_Got in Hd|].
    split; [apply dict_at_insert_eq|]. by rewrite !lookup_insert_ne.
  - unfold check_complexity_node, raises.
    rewrite (proj1 registry_has_tools).
    destruct (dict_of h (VRef s) "get") as [d|] eqn:Hd; [|done].
    pose proof (proj1 (tools_keep_heap h (get d "code" (VStr "")))) as Hh.
    destruct (check_complexity h _) as [h1 [result|e]] eqn:E; [|done].
    cbn in Hh. subst h1. unfold update_with.
    pose proof Hd as Hd'%dict_of_Got. rewrite (dict_of_state h s d) by done.
    assert (∃ n, result = {[ "complexity_score" := VInt n ]}) as [n ->].
    { unfold check_complexity in E. case_match; [|done].
      injection E as <-. eauto. }
    intros [= <- <-].
    exists d. eexists. split; [done|]. split; [by apply dict_of_Got in Hd|].
    split; [apply dict_at_insert_eq|].
    rewrite <-insert_union_singleton_l. by rewrite !lookup_insert_ne.
  - unfold detect_issues_node, raises.
    rewrite (proj1 (proj2 registry_has_tools)).
    destruct (dict_of h (VRef s) "get") as [d|] eqn:Hd; [|done].
    pose proof Hd as Hd'%dict_of_Got.
    destruct (detect_smells h _) as [h1 [result|e]] eqn:E; [|done].
    unfold detect_smells in E. case_match; [|done].
    injection E as <- <-. unfold update_with.
    rewrite (dict_of_state _ s d).
    2:{ rewrite dict_at_insert_ne; [done|]. intros <-.
        apply dict_at_Some in Hd'.
        by apply (is_fresh (dom h)), elem_of_dom. }
    intros [= <- <-].
    exists d. eexists. split; [done|]. split; [done|].
    split; [apply dict_at_insert_eq|].
    rewrite <-insert_union_l, <-insert_union_singleton_l.
    by rewrite !lookup_insert_ne.
  - unfold suggest_improvements, raises.
    destruct (dict_of h (VRef s) "get") as [d|] eqn:Hd; [|done].
    destruct (_ ≫= _); [|done]. intros [= <- <-].
    exists d. eexists. split; [done|]. split; [by apply dict_of_Got in Hd|].
    split; [apply dict_at_insert_eq|]. by rewrite !lookup_insert_ne.
  - unfold calculate_quality, raises.
    rewrite (proj2 (proj2 registry_has_tools)).
    pose proof (proj1 (proj2 (tools_keep_heap h (VRef s)))) as Hh.
    destruct (calculate_quality_score h _) as [h1 [result|e]] eqn:E; [|done].
    cbn in Hh. subst h1. unfold update_with.
    assert (∃ n, result = {[ "quality_score" := VInt n ]}) as [n ->].
    { unfold calculate_quality_score in E. case_match; [|done].
      injection E as <-. eauto. }
    destruct (dict_of h (VRef s) "update") as [d|] eqn:Hd; [|done].
    intros [= <- <-].
    exists d. eexists. split; [done|]. split; [by apply dict_of_Got in Hd|].
    split; [apply dict_at_insert_eq|].
    rewrite <-insert_union_singleton_l. by rewrite !lookup_insert_ne.
Qed.

Lemma falsy_in_place h h' (s : positive) d v :
  dict_at h s = Some d → v = get d "loop_continue" (VBool false) →
  (∀ l, l ≠ s → is_Some (h !! l) → h' !! l = h !! l) →
  (∃ d', dict_at h' s = Some d'
         ∧ d' !! "loop_continue" = d !! "loop_continue") →
  truthy h v = false → truthy h' v = false.
Proof.
  intros Hd Hv Hframe (d' & Hd' & Hkey) Ht.
  destruct v as [| | | |l]; try done. cbn in *.
  apply dict_at_Some in Hd, Hd'.
  destruct (decide (l = s)) as [->|Hne].
  - rewrite Hd in Ht. rewrite Hd'.
    apply negb_false_iff, bool_decide_eq_true in Ht. subst d.
    unfold get in Hv. by rewrite lookup_empty in Hv.
  - destruct (h !! l) as [o|] eqn:Hl; [|done].
    rewrite (Hframe l Hne) by (by rewrite Hl). by rewrite Hl.
Qed.

(** The loop request of the example workflow always names one of its
    nodes. *)
Lemma review_well_targeted g :
  review_wired tool_registry keys_in_order list_ge g → well_targeted g.
Proof.
  intros (Hentry & Hnodes & Honly) key n h s h' s' Hn Hok Hf.
  pose proof (Honly key (mk_is_Some _ _ Hn)) as Hin.
  apply list_elem_of_lookup in Hin as [stage Hs].
  destruct (Hnodes stage key Hs) as (_ & node & Hnode & _ & Hfunc).
  assert (node = n) as -> by congruence. rewrite Hfunc in Hf.
  destruct (decide (stage < 5)) as [Hlt|Hlast].
  - destruct (stage_keeps_request stage h s h' s' Hlt Hf)
      as (d & d' & -> & Hd & Hd' & Hlc & Hln).
    destruct Hok as (d0 & Hd0 & Hloop). assert (d0 = d) as -> by congruence.
    exists d'. split; [done|]. intros Ht.
    assert (get d' "loop_continue" (VBool false)
            = get d "loop_continue" (VBool false)) as Eflag
      by (unfold get; by rewrite Hlc).
    assert (get d' "loop_node" (of_optional (entry_node g))
            = get d "loop_node" (of_optional (entry_node g))) as Enode
      by (unfold get; by rewrite Hln).
    rewrite Enode. apply Hloop. rewrite Eflag in Ht.
    destruct (truthy h (get d "loop_continue" (VBool false))) eqn:Hfalse;
      [done|].
    rewrite (falsy_in_place h h' s d _ Hd eq_refl) in Ht; [done| |eauto|done].
    intros l Hl Hsome.
    destruct (stage_in_place stage h s) as [Hframe _].
    rewrite Hf in Hframe. by apply Hframe.
  - assert (stage = 5) as ->.
    { apply lookup_lt_Some in Hs. cbn in Hs. lia. }
    cbn [stage_func] in Hf. unfold check_threshold, raises in Hf.
    destruct (dict_of h (VRef s) "get") as [d|] eqn:Hd; [|done].
    destruct (ge list_ge h _ _) as [[]|]; [| |done]; injection Hf as <- <-.
    + eexists. split; [apply dict_at_insert_eq|].
      unfold get. rewrite lookup_insert_eq. done.
    + eexists. split; [apply dict_at_insert_eq|]. intros _.
      exists "suggest_improvements". unfold get.
      rewrite lookup_insert_eq. split; [done|].
      destruct (Hnodes 3 "suggest_improvements" eq_refl)
        as (_ & m & Hm & _). eauto.
Qed.

Lemma review_unmarked g a b :
  well_formed g →
  review_wired tool_registry keys_in_order list_ge g →
  edges g !! a = Some b → startswith b "if_" = false.
Proof.
  intros (Hedges & _) (_ & Hnodes & Honly) Hab.
  destruct (Hedges a b Hab) as [Ha _].
  apply Honly, list_elem_of_lookup in Ha as [stage Hs].
  destruct (Hnodes stage a Hs) as (Hedge & _).
  rewrite Hab in Hedge. symmetry in Hedge.
  pose proof (workflow_names_plain stage a b Hs Hedge) as H.
  apply andb_false_iff in H as [H|H]; [|done].
  apply negb_false_iff, String.eqb_eq in H. by subst.
Qed.

(** X22: however the caller's state is filled (whatever the types of
    [code] and [threshold], with or without a loop request, as long as
    a request names a node), a run of the example workflow ends in one
    of two ways: it returns, or the exception of a node function
    leaves it.  The engine itself never raises on it: no [KeyError]
    for a node that is missing, no [TypeError], no [ValueError]. *)
Theorem review_run_outcomes g h (initial_state : positive) :
  create_code_review_workflow tool_registry keys_in_order list_ge = Ok g →
  loop_request_ok g h initial_state →
  match res_outcome (run g h initial_state) with
  | Returned _ _ | Raised (Exception _) => True
  | _ => False
  end.
Proof.
  intros Hg Hok.
  assert (well_formed g) as Hwf.
  { unfold create_code_review_workflow in Hg.
    by apply build_invariant in Hg as [? _]; [|apply well_formed_init]. }
  apply review_wired_built in Hg.
  pose proof (run_safe g h initial_state Hwf (review_well_targeted g Hg) Hok)
    as H.
  destruct (res_outcome _) as [s log|[]| |]; try done.
  - destruct Hg as (Hentry & _). congruence.
  - destruct H as (a & marker & Hedge & Hm).
    by rewrite (review_unmarked g a marker Hwf Hg Hedge) in Hm.
Qed.

End Review.

(** ** The properties, on requests *)

(** The example workflow is what [create_code_review_workflow]
    returns; the node functions are not looked into. *)
Ltac example_built :=
  unfold example_workflow, create_code_review_workflow;
  generalize extract_functions (check_complexity_node tool_registry)
    (detect_issues_node tool_registry) (suggest_improvements (λ _ _, []))
    (calculate_quality tool_registry) (check_threshold (λ _ _ _, Got true));
  intros; by vm_compute.

Lemma every_smell_gets_a_suggestion_witness :
  let h : heap :=
    {[ 1%positive := ODict {[ "issues" := VRef 2 ]};
       2%positive := OList [VStr "Code too long";
                            VStr "Contains TODO/FIXME"] ]} in
  ∃ suggestions,
    (suggest_improvements (λ _ _, []) h 1).2 = Returns 1
    ∧ Forall2 (λ issue suggestion, advice issue = Some suggestion)
        ["Code too long"; "Contains TODO/FIXME"] suggestions
    ∧ length suggestions = 2.
Proof.
  cbn zeta.
  destruct (every_smell_gets_a_suggestion (λ _ _, [])
              {[ 1%positive := ODict {[ "issues" := VRef 2 ]};
                 2%positive := OList [VStr "Code too long";
                                      VStr "Contains TODO/FIXME"] ]}
              1 {[ "issues" := VRef 2 ]} 2
              ["Code too long"; "Contains TODO/FIXME"])
    as (suggestions & Hrun & Hall & Hlen);
    [reflexivity|reflexivity|reflexivity
    |apply sublist_skip, sublist_cons, sublist_skip, sublist_nil|].
  exists suggestions. split; [by rewrite Hrun|]. split; [exact Hall|exact Hlen].
Defined.

Lemma review_run_threshold_met_witness :
  let r := run example_workflow
             (review_request (VStr "def f(x): return x") None) 1 in
  ∃ s log d,
    res_outcome r = Returned s log
    ∧ log_node <$> trace r = workflow_order
    ∧ dict_at (res_heap r) s = Some d
    ∧ d !! "quality_met" = Some (VBool true)
    ∧ d !! "quality_score" = Some (VInt 98).
Proof.
  cbn zeta.
  destruct (review_run_threshold_met (λ _ _, []) (λ _ _ _, Got true)
              example_workflow
              (review_request (VStr "def f(x): return x") None) 1
              {[ "code" := VStr "def f(x): return x" ]}
              "def f(x): return x" (VInt 70) 70)
    as (s & log & d & H1 & H2 & H3 & H4 & H5 & _);
    [example_built|reflexivity|reflexivity|reflexivity|reflexivity|reflexivity
    |by vm_compute|].
  exists s, log, d. split; [exact H1|]. split; [exact H2|].
  split; [exact H3|]. split; [exact H4|exact H5].
Defined.

Lemma review_run_threshold_missed_witness :
  let r := run example_workflow
             (review_request (VStr "def f(x): return x") (Some (VInt 99))) 1 in
  ∃ s log d,
    res_outcome r = Returned s log
    ∧ length (trace r) = 100
    ∧ dict_at (res_heap r) s = Some d
    ∧ d !! "quality_met" = Some (VBool false)
    ∧ d !! "quality_score" = Some (VInt 98).
Proof.
  cbn zeta.
  destruct (review_run_threshold_missed (λ _ _, []) (λ _ _ _, Got true)
              example_workflow
              (review_request (VStr "def f(x): return x") (Some (VInt 99))) 1
              (<["threshold" := VInt 99]>
                 {[ "code" := VStr "def f(x): return x" ]})
              "def f(x): return x" (VInt 99) 99)
    as (s & log & d & H1 & _ & H2 & H3 & H4 & H5 & _);
    [example_built|reflexivity|reflexivity|reflexivity|reflexivity|reflexivity
    |by vm_compute|].
  exists s, log, d. split; [exact H1|]. split; [exact H2|].
  split; [exact H3|]. split; [exact H4|exact H5].
Defined.

Lemma review_run_threshold_unordered_witness :
  let r := run example_workflow
             (review_request (VStr "def f(x): return x")
                (Some (VStr "70"))) 1 in
  ∃ msg,
    res_outcome r = Raised (Exception msg)
    ∧ log_node <$> trace r = workflow_order ++ ["check_threshold"]
    ∧ iteration (res_locals r) = 6.
Proof.
  cbn zeta.
  destruct (review_run_threshold_unordered (λ _ _, []) (λ _ _ _, Got true)
              example_workflow
              (review_request (VStr "def f(x): return x")
                 (Some (VStr "70"))) 1
              (<["threshold" := VStr "70"]>
                 {[ "code" := VStr "def f(x): return x" ]})
              "def f(x): return x" (VStr "70"))
    as (msg & H1 & H2 & _ & _ & H3);
    [example_built|reflexivity|reflexivity|reflexivity|reflexivity|reflexivity|].
  exists msg. split; [exact H1|]. split; [exact H2|exact H3].
Defined.

Lemma review_run_code_not_a_sequence_witness :
  let r := run example_workflow (review_request (VInt 5) None) 1 in
  ∃ msg,
    res_outcome r = Raised (Exception msg)
    ∧ trace r = [failed_entry "extract_functions" 1 msg;
                 failed_entry "extract_functions" 1 msg].
Proof.
  cbn zeta.
  destruct (review_run_code_not_a_sequence (λ _ _, []) (λ _ _ _, Got true)
              example_workflow (review_request (VInt 5) None) 1
              {[ "code" := VInt 5 ]})
    as (msg & H1 & H2 & _); [example_built|reflexivity|intros H; exact H|].
  exists msg. split; [exact H1|exact H2].
Defined.

Lemma review_run_leaves_caller_heap_witness :
  res_heap (run example_workflow
              (review_request (VStr "def f(x): return x") None) 1)
    !! 1%positive
  = Some (ODict {[ "code" := VStr "def f(x): return x" ]}).
Proof.
  rewrite (review_run_leaves_caller_heap (λ _ _, []) (λ _ _ _, Got true)
             example_workflow
             (review_request (VStr "def f(x): return x") None) 1 1);
    [reflexivity|example_built|by eexists].
Defined.

Lemma review_run_outcomes_witness :
  match res_outcome (run example_workflow
                       (review_request (VInt 5) (Some VNone)) 1) with
  | Returned _ _ | Raised (Exception _) => True
  | _ => False
  end.
Proof.
  apply (review_run_outcomes (λ _ _, []) (λ _ _ _, Got true)).
  - example_built.
  - eexists. split; [reflexivity|]. intros Ht. by vm_compute in Ht.
Defined.
